(** * FeedForward: the ingestion, dedup and filter pipeline

    A shallow embedding of [makeitmakesense.py] (class
    [PalantirIntelligenceProcessor] and [main]), of [export_to_json.py]
    and of the pure parts of [article_processor.py] (tags, file names, the
    summary request with its retries), with the properties of the
    pipeline proved over it.

    Conventions.
    - A Python [str] is a list of Unicode code points ([str := list N]);
      [len] is [length], slicing is [take]/[drop].
    - What the interpreter's libraries compute from tables that are not part
      of the repository (Unicode case mapping and digit classes beyond
      ASCII, [dateutil], [BeautifulSoup], [ElementTree], the iteration
      order of a [set]) is a field of the record [Libs]; what the outside
      world answers (the clock, the feed servers, the file system) is a
      field of [World]. The theorems hold for every [Libs] and [World].
    - A file is named by the path that the program builds for it, as on a
      POSIX system.
    - [print] is modelled by a list of events; time by a clock that is read
      where the source calls [datetime.now]. *)

From Stdlib Require Import String Ascii ZArith NArith List Bool Lia DecimalString.
From stdpp Require Import base list.
Import ListNotations.

Set Default Proof Using "Type".

(** ** Text *)

Module Text.

Definition char := N.
Definition str := list N.

(** An ASCII character and an ASCII literal of the source. *)
Definition ch (a : ascii) : char := N_of_ascii a.
Arguments ch a%_char.

Definition u (s : string) : str := map N_of_ascii (list_ascii_of_string s).

Fixpoint str_eqb (a b : str) : bool :=
  match a, b with
  | [], [] => true
  | x :: a', y :: b' => (x =? y)%N && str_eqb a' b'
  | _, _ => false
  end.

Definition is_ascii (c : char) : bool := (c <? 128)%N.

Definition ascii_lower (c : char) : char :=
  if ((65 <=? c) && (c <=? 90))%N then (c + 32)%N else c.

(** [str.isspace] for one code point (the whitespace of [str.split],
    [str.strip] and of [\s] in a [str] pattern). *)
Definition isspace (c : char) : bool :=
  (((9 <=? c) && (c <=? 13)) || ((28 <=? c) && (c <=? 32))
   || (c =? 133) || (c =? 160) || (c =? 5760)
   || ((8192 <=? c) && (c <=? 8202)) || (c =? 8232) || (c =? 8233)
   || (c =? 8239) || (c =? 8287) || (c =? 12288))%N.

(** [p] occurs in [s] at its start. *)
Fixpoint starts_with (p s : str) : bool :=
  match p, s with
  | [], _ => true
  | _ :: _, [] => false
  | a :: p', b :: s' => (a =? b)%N && starts_with p' s'
  end.

(** [needle in hay] on [str]. *)
Fixpoint contains (hay needle : str) : bool :=
  starts_with needle hay
  || match hay with
     | [] => false
     | _ :: hay' => contains hay' needle
     end.

(** [sep.join(parts)]. *)
Fixpoint join (sep : str) (parts : list str) : str :=
  match parts with
  | [] => []
  | [p] => p
  | p :: rest => p ++ sep ++ join sep rest
  end.

(** [s.strip()]. *)
Fixpoint lstrip (s : str) : str :=
  match s with
  | [] => []
  | c :: s' => if isspace c then lstrip s' else s
  end.

Definition rstrip (s : str) : str := rev (lstrip (rev s)).

Definition strip (s : str) : str := rstrip (lstrip s).

(** [s.split()] with no argument: the maximal runs of non-whitespace.
    [cur] is the word being read, reversed. *)
Fixpoint split_ws_from (cur : str) (s : str) : list str :=
  match s with
  | [] => match cur with [] => [] | _ => [rev cur] end
  | c :: s' =>
      if isspace c
      then match cur with
           | [] => split_ws_from [] s'
           | _ => rev cur :: split_ws_from [] s'
           end
      else split_ws_from (c :: cur) s'
  end.

Definition split_ws (s : str) : list str := split_ws_from [] s.

(** The substring relation that [contains] decides. *)
Definition is_substring (p s : str) : Prop := ∃ a b, s = a ++ p ++ b.


End Text.

Import Text.

(** ** The interpreter's libraries *)

(** A [datetime] as [dateutil.parser.parse] returns it: the wall-clock
    fields as microseconds since 0001-01-01T00:00:00, and the UTC offset of
    its [tzinfo] in microseconds ([None] for a naive value). *)
Record datetime := { wall : Z; utcoffset : option Z }.

(** An [xml.etree.ElementTree.Element]: tag, attributes, children. *)
#[warnings="-register-all"]
Inductive Element :=
| Elem (tag : str) (attrib : list (str * str)) (children : list Element).

Record Libs := {
  (** [str.lower] on a string that has a code point above 127 *)
  unicode_lower : str → str;
  (** [\d] on a code point above 127 *)
  unicode_isdecimal : char → bool;
  (** under [re.IGNORECASE], whether the code point [c] above 127 matches
      the pattern character [p] *)
  unicode_ieq : char → char → bool;
  (** [dateutil.parser.parse(s)] on the day [today]; [None] when it
      raises. The call gives no [default], so the parser takes the fields
      that [s] does not name (the year of ["1 Jan 09:00"], the whole date
      of ["09:00"]) from [datetime.now()] with its time set to 00:00;
      [today] is that value, in microseconds since 0001-01-01T00:00:00 *)
  dateutil_parse : Z → str → option datetime;
  (** [BeautifulSoup(content, "html.parser").get_text(separator=' ',
      strip=True)]; [None] when it raises *)
  soup_get_text : str → option str;
  (** [ET.fromstring]; [None] when it raises *)
  et_fromstring : str → option Element;
  (** [list(set(l))]: the order in which a set built from [l] is iterated *)
  set_order : list str → list str
}.

(** What Python guarantees of [list(set(l))]: no duplicates, and the
    elements of [l]. *)
Definition set_order_ok (L : Libs) : Prop :=
  ∀ l, NoDup (set_order L l) ∧ ∀ x, x ∈ set_order L l ↔ x ∈ l.

(** [s.lower()]. *)
Definition lower (L : Libs) (s : str) : str :=
  if forallb is_ascii s then map ascii_lower s else unicode_lower L s.

(** ** Regular expressions, as the backtracking matcher of [re] reads them *)

Module Re.

Inductive re :=
| Eps
| Cls (p : char → bool)      (* one character of a class, a literal included *)
| Seq (a b : re)
| Alt (a b : re)             (* a|b, a tried first *)
| Star (a : re)              (* a*, greedy *)
| NotAhead (a : re).         (* (?!a) *)

Definition Plus (a : re) : re := Seq a (Star a).
Definition Opt (a : re) : re := Alt a Eps.

(** [m r s k]: match [r] at the start of [s], then continue with [k] on
    what is left; alternatives are tried in the order of [re], the first
    success wins. An iteration of [Star] that consumes nothing ends the
    loop. *)
Fixpoint m (r : re) (s : str) (k : str → option str) {struct r} : option str :=
  match r with
  | Eps => k s
  | Cls p => match s with
             | c :: s' => if p c then k s' else None
             | [] => None
             end
  | Seq a b => m a s (fun s' => m b s' k)
  | Alt a b => match m a s k with
               | Some x => Some x
               | None => m b s k
               end
  | Star a =>
      (fix loop (fuel : nat) (s : str) {struct fuel} : option str :=
         match fuel with
         | O => k s
         | S fuel' =>
             match m a s (fun s' => if (length s' <? length s)%nat
                                    then loop fuel' s' else None) with
             | Some x => Some x
             | None => k s
             end
         end) (length s) s
  | NotAhead a => match m a s Some with
                  | Some _ => None
                  | None => k s
                  end
  end.

(** The length of the match of [r] at the start of [s], if there is one. *)
Definition match_len (r : re) (s : str) : option nat :=
  match m r s Some with
  | Some rest => Some (length s - length rest)%nat
  | None => None
  end.

(** The leftmost non-overlapping matches of [r] in [s], each with the
    unmatched text before it, and the unmatched text after the last one.
    [skip] counts the characters of the current match still to be passed,
    [gap] is the unmatched text read so far, reversed. The patterns of this
    program never match the empty string; an empty match is not reported. *)
Fixpoint scan (r : re) (s : str) (skip : nat) (gap : str)
  : list (str * str) * str :=
  match s with
  | [] => ([], rev gap)
  | c :: s' =>
      match skip with
      | S n => scan r s' n gap
      | O =>
          match match_len r s with
          | Some (S n) =>
              let '(ms, last) := scan r s' n [] in
              ((rev gap, take (S n) s) :: ms, last)
          | _ => scan r s' O (c :: gap)
          end
      end
  end.

(** [re.findall(r, s)] for a pattern without capturing groups. *)
Definition findall (r : re) (s : str) : list str :=
  map snd (fst (scan r s O [])).

(** [re.split(r, s)] for a pattern without capturing groups. *)
Definition split (r : re) (s : str) : list str :=
  let '(ms, last) := scan r s O [] in map fst ms ++ [last].

(** The text with each match replaced by [repl]. *)
Definition assemble (repl : str) (found : list (str * str) * str) : str :=
  concat (map (fun gm => fst gm ++ repl) (fst found)) ++ snd found.

(** [re.sub(r, repl, s)] for a replacement without group references. *)
Definition sub (r : re) (repl : str) (s : str) : str :=
  assemble repl (scan r s O []).

(** Pattern pieces. *)
Definition chr (c : char) : re := Cls (fun x => (x =? c)%N).

Fixpoint lit (s : str) : re :=
  match s with
  | [] => Eps
  | [c] => chr c
  | c :: s' => Seq (chr c) (lit s')
  end.

Definition range (lo hi : char) (c : char) : bool := ((lo <=? c) && (c <=? hi))%N.

Section WithLibs.
Variable L : Libs.

(** [\d] *)
Definition isdecimal (c : char) : bool :=
  if is_ascii c then range 48%N 57%N c else unicode_isdecimal L c.

(** a pattern character under [re.IGNORECASE] *)
Definition chr_i (p : char) : re :=
  Cls (fun c => if is_ascii c then (ascii_lower c =? ascii_lower p)%N
                else unicode_ieq L c p).

Fixpoint lit_i (s : str) : re :=
  match s with
  | [] => Eps
  | [c] => chr_i c
  | c :: s' => Seq (chr_i c) (lit_i s')
  end.
End WithLibs.

End Re.

(** ** Python values and dictionaries *)

(** The objects that are pickled and dumped to JSON. *)
#[warnings="-register-all"]
Inductive value :=
| VNone
| VInt (z : Z)
| VStr (s : str)
| VList (l : list value)
| VDict (d : list (str * value)).

(** A [dict] with [str] keys, in insertion order. *)
Definition dict (V : Type) := list (str * V).

Fixpoint dict_get {V} (d : dict V) (k : str) : option V :=
  match d with
  | [] => None
  | (k', v) :: d' => if str_eqb k' k then Some v else dict_get d' k
  end.

(** [k in d] *)
Definition dict_mem {V} (d : dict V) (k : str) : bool :=
  match dict_get d k with Some _ => true | None => false end.

(** [d[k] = v]: an existing key keeps its place, a new one goes last. *)
Fixpoint dict_set {V} (d : dict V) (k : str) (v : V) : dict V :=
  match d with
  | [] => [(k, v)]
  | (k', v') :: d' =>
      if str_eqb k' k then (k', v) :: d' else (k', v') :: dict_set d' k v
  end.

Definition dict_keys {V} (d : dict V) : list str := map fst d.
Definition dict_values {V} (d : dict V) : list V := map snd d.

(** Truth value of a [str]. *)
Definition truthy (s : str) : bool :=
  match s with [] => false | _ => true end.

(** ** Data model *)

(** An entry of [parsed_feed.entries]: for each attribute, its value if
    the entry has it ([hasattr]). [e_content] holds the [.value] of each
    element of [entry.content]. *)
Record Entry := {
  e_link : option str;
  e_title : option str;
  e_published : option str;
  e_updated : option str;
  e_content : option (list str);
  e_summary : option str;
  e_description : option str
}.

(** An element of [self.feeds]. *)
Record Feed := { feed_title : str; feed_url : str; feed_type : str }.

Record Entities := {
  companies : list str;
  agencies : list str;
  amounts : list str;
  people : list str
}.

(** An element of the list that [process_rss_feeds] returns. *)
Record Item := {
  item_id : str;
  item_title : str;
  item_content : str;
  item_summary : str;
  item_url : str;
  item_date : str;
  item_source : str;
  item_source_type : str;
  item_keywords : list str;
  item_entities : Entities
}.

(** The instance of [PalantirIntelligenceProcessor]. *)
Record Processor := {
  opml_file : option str;
  output_dir : str;
  keywords : list str;
  days_back : Z;
  feeds : list Feed;
  results : dict Item;
  processed_items : dict value
}.

Definition set_processed_items (self : Processor) (d : dict value) : Processor :=
  {| opml_file := opml_file self; output_dir := output_dir self;
     keywords := keywords self; days_back := days_back self;
     feeds := feeds self; results := results self; processed_items := d |}.

Definition set_feeds (self : Processor) (fs : list Feed) : Processor :=
  {| opml_file := opml_file self; output_dir := output_dir self;
     keywords := keywords self; days_back := days_back self;
     feeds := fs; results := results self;
     processed_items := processed_items self |}.

Definition set_results (self : Processor) (r : dict Item) : Processor :=
  {| opml_file := opml_file self; output_dir := output_dir self;
     keywords := keywords self; days_back := days_back self;
     feeds := feeds self; results := r;
     processed_items := processed_items self |}.

(** ** The outside world *)

(** A file as [open] finds it. *)
Inductive File :=
| Missing
| Unreadable
| Content (text : str).

(** The history file [processed_intelligence.pkl]: unreadable, or the
    pickled ledger as [save_history] writes it. *)
Inductive PickleFile :=
| Corrupt
| Pickled (d : dict value).

(** What the program prints. *)
Inductive event :=
| EvInitialized (n_keywords : nat) (days : Z)
| EvHistoryLoadError
| EvHistorySaved
| EvHistorySaveError
| EvKeywordsLoaded (n : nat) (path : str)
| EvKeywordsError
| EvNoOpml
| EvFeedsLoaded (n : nat)
| EvOpmlError
| EvProcessing (title : str)
| EvFeedError (title : str)
| EvStarting
| EvCollected (n : nat)
| EvHistoryReset
| EvHistoryResetError
| EvComplete
| EvProcessingError
| EvNoNewItems.

(** What does not change during a run. [now_utc n] is the [n]-th reading of
    the clock, in microseconds since 0001-01-01T00:00:00 UTC, and
    [now_isoformat n] is [datetime.now().isoformat()] at that reading. *)
Record World := {
  now_utc : nat → Z;
  now_isoformat : nat → str;
  (** the day as [dateutil.parser.parse] reads it from the local clock
      when it is called ahead of the [n]-th reading: [datetime.now()] at
      00:00 *)
  today : nat → Z;
  (** [feedparser.parse(url).entries]; [None] when it raises *)
  feedparser_parse : str → option (list Entry);
  (** the text files the program opens *)
  files : str → File;
  (** whether [save_history] succeeds: [os.makedirs], [open] and
      [pickle.dump] raise nothing *)
  history_writable : bool;
  (** when [save_history] fails, whether it fails with the file open: by
      then [open(..., 'wb')] has emptied the file *)
  history_truncated : bool;
  (** whether [os.remove] of the history file succeeds *)
  history_removable : bool;
  (** whether [generate_intelligence_report] returns; otherwise it
      raises *)
  report_rendered : bool
}.

(** What changes during a run: how often the clock was read, what was
    printed (latest first), and the history files, by path. *)
Record Sys := {
  ticks : nat;
  out : list event;
  history_files : str → option PickleFile
}.

Definition tick (sys : Sys) : Sys :=
  {| ticks := S (ticks sys); out := out sys;
     history_files := history_files sys |}.

Definition print (ev : event) (sys : Sys) : Sys :=
  {| ticks := ticks sys; out := ev :: out sys;
     history_files := history_files sys |}.

(** [os.path.join(output_dir, "processed_intelligence.pkl")], the
    [self.history_file] of a processor with this [output_dir]. *)
Definition history_path (output_dir : str) : str :=
  match last output_dir with
  | None => u "processed_intelligence.pkl"
  | Some c =>
      if (c =? ch "/")%N then output_dir ++ u "processed_intelligence.pkl"
      else output_dir ++ u "/" ++ u "processed_intelligence.pkl"
  end.

(** The history file at [path]. *)
Definition history_file (path : str) (sys : Sys) : option PickleFile :=
  history_files sys path.

(** [os.path.exists(path)] *)
Definition history_exists (path : str) (sys : Sys) : bool :=
  match history_file path sys with Some _ => true | None => false end.

(** The history file at [path] becomes [f]; [None] removes it. *)
Definition set_history_file (path : str) (f : option PickleFile) (sys : Sys)
  : Sys :=
  {| ticks := ticks sys; out := out sys;
     history_files := fun path' =>
       if str_eqb path' path then f else history_files sys path' |}.

(** ** Dates *)

Definition day_us : Z := 86400000000.
Definition datetime_min : Z := 0.
Definition datetime_max : Z := 3652059 * day_us - 1.

(** [timedelta(days=n)]; [None] for the [OverflowError] beyond 999999999
    days. *)
Definition timedelta_days (n : Z) : option Z :=
  if (Z.abs n <=? 999999999)%Z then Some (n * day_us)%Z else None.

(** [t - d] for an aware [datetime] in UTC; [None] for the [OverflowError]
    outside the years 1 to 9999. *)
Definition datetime_sub (t d : Z) : option Z :=
  let r := (t - d)%Z in
  if ((datetime_min <=? r) && (r <=? datetime_max))%Z then Some r else None.

(** The point in time of a parsed date, a naive one read as UTC
    ([entry_date.replace(tzinfo=timezone.utc)]). *)
Definition instant (d : datetime) : Z :=
  match utcoffset d with
  | Some off => (wall d - off)%Z
  | None => wall d
  end.


(** ** [PalantirIntelligenceProcessor] *)

(** The [date_str] that [is_recent] reads from an entry. *)
Definition date_str_of (entry : Entry) : option str :=
  match e_published entry with
  | Some s => Some s
  | None => e_updated entry
  end.

Section Processor.
Variable L : Libs.
Variable W : World.

(** [is_recent(self, entry)]. The clock is read once the date is parsed;
    every exception inside the inner [try] ends in [return True]. *)
Definition is_recent (self : Processor) (entry : Entry) (sys : Sys)
  : bool * Sys :=
  let date_str :=
    match e_published entry with
    | Some s => Some s
    | None => e_updated entry
    end in
  match date_str with
  | Some s =>
      if truthy s then
        match dateutil_parse L (today W (ticks sys)) s with
        | Some entry_date =>
            let now := now_utc W (ticks sys) in
            let sys := tick sys in
            match timedelta_days (days_back self) with
            | Some delta =>
                match datetime_sub now delta with
                | Some cutoff => ((cutoff <=? instant entry_date)%Z, sys)
                | None => (true, sys)
                end
            | None => (true, sys)
            end
        | None => (true, sys)
        end
      else (true, sys)
  | None => (true, sys)
  end.

(** [load_history(self)], on [self.history_file]. *)
Definition load_history (history_file : str) (sys : Sys) : dict value * Sys :=
  match history_files sys history_file with
  | Some (Pickled d) => (d, sys)
  | Some Corrupt => ([], print EvHistoryLoadError sys)
  | None => ([], sys)
  end.

(** [save_history(self)]. A failure with the file open leaves a file
    that [pickle.load] cannot read. *)
Definition save_history (self : Processor) (sys : Sys) : Sys :=
  let history_file := history_path (output_dir self) in
  if history_writable W
  then print EvHistorySaved
         (set_history_file history_file
            (Some (Pickled (processed_items self))) sys)
  else print EvHistorySaveError
         (if history_truncated W
          then set_history_file history_file (Some Corrupt) sys
          else sys).

(** The lines of a text file: a line ends at each CR or LF (a CR LF pair
    leaves an empty line, which every caller drops). *)
Definition file_lines (text : str) : list str :=
  Re.split (Re.Cls (fun c => (c =? 10) || (c =? 13))%N) text.

(** [[line.strip() for line in f if line.strip()]] *)
Definition keyword_lines (text : str) : list str :=
  List.filter truthy (map strip (file_lines text)).

(** [load_keywords(self, file_path)]. *)
Definition load_keywords (file_path : str) (sys : Sys) : list str * Sys :=
  match files W file_path with
  | Content text =>
      let keywords := keyword_lines text in
      (keywords, print (EvKeywordsLoaded (length keywords) file_path) sys)
  | _ => ([], print EvKeywordsError sys)
  end.

(** [contains_keywords(self, text)]; [match_loop] is its [for] loop,
    [matched] the list built so far. *)
Fixpoint match_loop (text_lower : str) (kws : list str) (matched : list str)
  : list str :=
  match kws with
  | [] => matched
  | keyword :: kws' =>
      match_loop text_lower kws'
        (if contains text_lower (lower L keyword)
         then matched ++ [keyword] else matched)
  end.

Definition contains_keywords (self : Processor) (text : str)
  : bool * list str :=
  match keywords self with
  | [] => (true, [])
  | _ =>
      let text_lower := lower L text in
      let matched := match_loop text_lower (keywords self) [] in
      ((0 <? length matched)%nat, matched)
  end.

(** [extract_content(self, entry)]. *)
Definition extract_content (entry : Entry) : str :=
  let content :=
    match e_content entry with
    | Some (v :: _) => v
    | _ =>
        match e_summary entry with
        | Some s => s
        | None =>
            match e_description entry with
            | Some d => d
            | None => []
            end
        end
    end in
  if truthy content then
    match soup_get_text L content with
    | Some text => text
    | None => content
    end
  else content.

(** [[.!?]+] *)
Definition sentence_end : Re.re :=
  Re.Plus (Re.Cls (fun c => (c =? ch ".") || (c =? ch "!") || (c =? ch "?"))%N).

(** [any(kw.lower() in sentence_lower for kw in keywords)] *)
Definition any_keyword_in (kws : list str) (sentence_lower : str) : bool :=
  existsb (fun kw => contains sentence_lower (lower L kw)) kws.

(** The first [for] loop of [generate_summary], with its [break]. *)
Fixpoint relevant_loop (kws : list str) (sentences : list str)
  (relevant_sentences : list str) : list str :=
  match sentences with
  | [] => relevant_sentences
  | sentence :: rest =>
      let sentence := strip sentence in
      if (30 <? length sentence)%nat then
        if any_keyword_in kws (lower L sentence) then
          let relevant_sentences := relevant_sentences ++ [sentence] in
          if (6 <=? length relevant_sentences)%nat
          then relevant_sentences
          else relevant_loop kws rest relevant_sentences
        else relevant_loop kws rest relevant_sentences
      else relevant_loop kws rest relevant_sentences
  end.

(** The line that names the keywords: two newlines, U+1F3AF, and the
    text. *)
Definition keywords_line (kws : list str) : str :=
  [10; 10; 127919]%N ++ u " Relevant keywords found: " ++ join (u ", ") kws.

(** [generate_summary(self, content, title, keywords)]. *)
Definition generate_summary (content title : str) (kws : list str) : str :=
  let sentences := Re.split sentence_end content in
  let relevant_sentences := relevant_loop kws sentences [] in
  let summary :=
    match relevant_sentences with
    | _ :: _ => join (u ". ") relevant_sentences ++ u "."
    | [] =>
        join (u ". ")
          (map strip (List.filter (fun s => truthy (strip s)) (take 2 sentences)))
        ++ u "."
    end in
  match kws with
  | [] => summary
  | _ => summary ++ keywords_line kws
  end.

End Processor.

(** ** Entities *)

Section Entities.
Variable L : Libs.
Import Re.

(** [[\$€£¥][\d,]+(?:\.\d{2})?\s*(?:million|billion|thousand|M|B|K)?]
    under [re.IGNORECASE]. *)
Definition amount_pattern : re :=
  Seq (Cls (fun c => (c =? ch "$") || (c =? 8364) || (c =? 163) || (c =? 165))%N)
 (Seq (Plus (Cls (fun c => isdecimal L c || (c =? ch ",")%N)))
 (Seq (Opt (Seq (chr (ch ".")) (Seq (Cls (isdecimal L)) (Cls (isdecimal L)))))
 (Seq (Star (Cls isspace))
      (Opt (Alt (lit_i L (u "million"))
           (Alt (lit_i L (u "billion"))
           (Alt (lit_i L (u "thousand"))
           (Alt (lit_i L (u "M"))
           (Alt (lit_i L (u "B"))
                (lit_i L (u "K"))))))))))).

(** [[A-Z][a-z]+(?:\s+[A-Z][a-z]+)*] *)
Definition capitalized_words : re :=
  let word := Seq (Cls (range (ch "A") (ch "Z")))
                  (Plus (Cls (range (ch "a") (ch "z")))) in
  Seq word (Star (Seq (Plus (Cls isspace)) word)).

Definition agency_patterns : list re :=
  [ Seq (lit (u "Department of ")) capitalized_words;
    Alt (lit (u "DOD")) (Alt (lit (u "Pentagon")) (Alt (lit (u "CIA"))
      (Alt (lit (u "FBI")) (Alt (lit (u "NSA")) (Alt (lit (u "DHS"))
      (Alt (lit (u "ICE")) (lit (u "CBP"))))))));
    Seq (lit (u "Office of ")) capitalized_words ].

Definition company_indicators : list str :=
  [u "Inc"; u "Corp"; u "LLC"; u "Ltd"; u "Technologies"; u "Systems"; u "GmbH"].

(** The loop over [enumerate(words)]: [i] is the index of the first word
    of [rest]. [i - 2] on [nat] is [max(0, i-2)]. *)
Fixpoint company_loop (words : list str) (i : nat) (rest : list str)
  (found : list str) : list str :=
  match rest with
  | [] => found
  | word :: rest' =>
      let found :=
        if existsb (fun indicator => contains word indicator) company_indicators
        then
          let start := (i - 2)%nat in
          let company := join (u " ") (take (i + 1 - start) (drop start words)) in
          if (5 <? length company)%nat then found ++ [company] else found
        else found in
      company_loop words (S i) rest' found
  end.

(** [list(set(l))[:5]] *)
Definition dedup5 (l : list str) : list str := take 5 (set_order L l).

(** [extract_entities(self, text)]. *)
Definition extract_entities (text : str) : Entities :=
  let amounts := take 5 (findall amount_pattern text) in
  let agencies := flat_map (fun pattern => findall pattern text) agency_patterns in
  let words := split_ws text in
  let companies := company_loop words 0 words [] in
  {| companies := dedup5 companies;
     agencies := dedup5 agencies;
     amounts := dedup5 amounts;
     people := dedup5 [] |}.
End Entities.

(** ** The orchestrator *)

Section Orchestrator.
Variable L : Libs.
Variable W : World.

(** The state of the loops of [process_rss_feeds]: the object, the
    outside, and [items]. *)
Definition LoopState : Type := Processor * Sys * list Item.

(** The body of the loop over [parsed_feed.entries[:50]]. *)
Definition process_entry (feed : Feed) (st : LoopState) (entry : Entry)
  : LoopState :=
  let '(self, sys, items) := st in
  let entry_url := default [] (e_link entry) in
  if negb (truthy entry_url) || dict_mem (processed_items self) entry_url
  then st
  else
    let '(recent, sys) := is_recent L W self entry sys in
    if negb recent then (self, sys, items)
    else
      let title := default [] (e_title entry) in
      let content := extract_content L entry in
      let '(has_keywords, matched_keywords) :=
        contains_keywords L self (title ++ u " " ++ content) in
      if has_keywords then
        let summary := generate_summary L content title matched_keywords in
        let entities := extract_entities L (title ++ u " " ++ content) in
        let item :=
          {| item_id := entry_url;
             item_title := title;
             item_content := content;
             item_summary := summary;
             item_url := entry_url;
             item_date := default [] (e_published entry);
             item_source := feed_title feed;
             item_source_type := u "rss";
             item_keywords := matched_keywords;
             item_entities := entities |} in
        let stamp := VStr (now_isoformat W (ticks sys)) in
        (set_processed_items self
           (dict_set (processed_items self) entry_url stamp),
         tick sys, items ++ [item])
      else (self, sys, items).

(** The entries of a feed that the loop visits. *)
Definition examined (entries : list Entry) : list Entry := take 50 entries.

(** The body of the loop over [self.feeds]. *)
Definition process_feed (st : LoopState) (feed : Feed) : LoopState :=
  let '(self, sys, items) := st in
  if negb (str_eqb (feed_type feed) (u "rss")) then st
  else
    let sys := print (EvProcessing (feed_title feed)) sys in
    match feedparser_parse W (feed_url feed) with
    | Some entries =>
        fold_left (process_entry feed) (examined entries) (self, sys, items)
    | None => (self, print (EvFeedError (feed_title feed)) sys, items)
    end.

(** [process_rss_feeds(self, session)]. *)
Definition process_rss_feeds (self : Processor) (sys : Sys) : LoopState :=
  fold_left process_feed (feeds self) (self, sys, []).

(** [process_all_sources(self)]; the last component is its return
    value. *)
Definition process_all_sources (self : Processor) (sys : Sys)
  : Processor * Sys * nat :=
  let sys := print EvStarting sys in
  let '(self, sys, rss_items) := process_rss_feeds self sys in
  let all_items := rss_items in
  let self :=
    set_results self
      (fold_left (fun r item => dict_set r (item_id item) item)
                 all_items (results self)) in
  let sys := save_history W self sys in
  let sys := print (EvCollected (length all_items)) sys in
  (self, sys, length all_items).

(** [__init__(self, opml_file, output_dir, keywords, days_back)]. *)
Definition init (opml : option str) (dir : str) (kws : list str) (days : Z)
  (sys : Sys) : Processor * Sys :=
  let '(history, sys) := load_history (history_path dir) sys in
  ({| opml_file := opml; output_dir := dir; keywords := kws;
      days_back := days; feeds := []; results := [];
      processed_items := history |},
   print (EvInitialized (length kws) days) sys).
End Orchestrator.

(** ** The feed catalog *)

Section Catalog.
Variable L : Libs.
Variable W : World.
Import Re.

(** [&(?!amp;|lt;|gt;|apos;|quot;)] *)
Definition bare_ampersand : re :=
  Seq (chr (ch "&"))
      (NotAhead (Alt (lit (u "amp;")) (Alt (lit (u "lt;")) (Alt (lit (u "gt;"))
                (Alt (lit (u "apos;")) (lit (u "quot;"))))))).

(** The pre-pass of [parse_opml]. *)
Definition fix_ampersands (content : str) : str :=
  sub bare_ampersand (u "&amp;") content.

(** The elements below [e], in document order. *)
Fixpoint descendants (e : Element) : list Element :=
  match e with
  | Elem _ _ cs =>
      (fix below (l : list Element) : list Element :=
         match l with
         | [] => []
         | c :: l' => c :: descendants c ++ below l'
         end) cs
  end.

Definition tag_of (e : Element) : str := match e with Elem t _ _ => t end.
Definition attrib_of (e : Element) : dict str :=
  match e with Elem _ a _ => a end.

(** [root.findall(".//outline[@xmlUrl]")] *)
Definition outlines (root : Element) : list Element :=
  List.filter
    (fun e => str_eqb (tag_of e) (u "outline") && dict_mem (attrib_of e) (u "xmlUrl"))
    (descendants root).

(** The loop of [parse_opml] over the outlines. *)
Fixpoint outline_loop (os : list Element) (fs : list Feed) : list Feed :=
  match os with
  | [] => fs
  | outline :: os' =>
      let feed_title := default (u "Unnamed Feed") (dict_get (attrib_of outline) (u "title")) in
      let feed_url := default [] (dict_get (attrib_of outline) (u "xmlUrl")) in
      outline_loop os'
        (if truthy feed_url
         then fs ++ [{| feed_title := feed_title; feed_url := feed_url;
                        feed_type := u "rss" |}]
         else fs)
  end.

(** [parse_opml(self)]. *)
Definition parse_opml (self : Processor) (sys : Sys) : Processor * Sys :=
  match opml_file self with
  | None => (self, print EvNoOpml sys)
  | Some path =>
      if negb (truthy path) then (self, print EvNoOpml sys)
      else
        match files W path with
        | Missing => (self, print EvNoOpml sys)
        | Unreadable => (self, print EvOpmlError sys)
        | Content content =>
            let fixed_content := fix_ampersands content in
            match et_fromstring L fixed_content with
            | Some root =>
                let self := set_feeds self (outline_loop (outlines root) (feeds self)) in
                (self, print (EvFeedsLoaded (length (feeds self))) sys)
            | None => (self, print EvOpmlError sys)
            end
        end
  end.
End Catalog.

(** ** [main] *)

(** The namespace that [parser.parse_args()] returns. *)
Record Args := {
  args_keywords : str;
  args_feeds : str;
  args_output_dir : str;
  args_days_back : Z;
  args_gov : bool;
  args_reset : bool
}.

Section Main.
Variable L : Libs.
Variable W : World.

(** [main()], from the parsed arguments on. [None] is the exception that
    [open('keywords.txt')] raises and nothing catches. Of the report that
    is rendered when items were found, only whether rendering it returns
    or raises is kept; when it raises, [main] prints the error and the
    program ends with status 1. *)
Definition main (args : Args) (sys : Sys) : option (Processor * Sys * nat) :=
  match files W (u "keywords.txt") with
  | Content text =>
      let keywords := keyword_lines text in
      let '(processor, sys) :=
        init (Some (u "Reader_Feeds.opml")) (args_output_dir args) keywords
             (args_days_back args) sys in
      let history_file := history_path (output_dir processor) in
      let sys :=
        if args_reset args && history_exists history_file sys then
          if history_removable W
          then print EvHistoryReset (set_history_file history_file None sys)
          else print EvHistoryResetError sys
        else sys in
      let '(processor, sys) := parse_opml L W processor sys in
      let '(processor, sys, items_found) := process_all_sources L W processor sys in
      let sys :=
        if (0 <? items_found)%nat then
          if report_rendered W then print EvComplete sys
          else print EvProcessingError sys
        else print EvNoNewItems sys in
      Some (processor, sys, items_found)
  | _ => None
  end.
End Main.

(** ** [export_to_json.py] *)

Module ExportJson.

Definition is_dict (v : value) : bool :=
  match v with VDict _ => true | _ => false end.

(** The loop over [processed_items.items()]. *)
Fixpoint items_loop (kvs : list (str * value)) (items : list value)
  : list value :=
  match kvs with
  | [] => items
  | (key, v) :: kvs' =>
      items_loop kvs' (if is_dict v then items ++ [v] else items)
  end.

(** [len(items)]; [None] for the [TypeError]. *)
Definition len (v : value) : option nat :=
  match v with
  | VStr s => Some (length s)
  | VList l => Some (length l)
  | VDict d => Some (length d)
  | _ => None
  end.

(** [export_data]. *)
Record ExportData := {
  generated_at : str;
  total_items : nat;
  items : value
}.

(** [export_to_json(pickle_file, output_dir)], on what [pickle_file]
    holds ([None]: no such file; [Some None]: [pickle.load] raises), the
    current time in ISO format, and whether the JSON file can be written.
    The result is the document written, [None] where the source returns
    [None]. *)
Definition export_to_json (pickle : option (option value)) (now : str)
  (writable : bool) : option ExportData :=
  match pickle with
  | None => None
  | Some None => None
  | Some (Some processed_items) =>
      let items :=
        match processed_items with
        | VDict d => VList (items_loop d [])
        | _ => processed_items
        end in
      match len items with
      | Some n =>
          if writable
          then Some {| generated_at := now; total_items := n; items := items |}
          else None
      | None => None
      end
  end.

(** The history file as [export_to_json] reads it. *)
Definition of_history (f : option PickleFile) : option (option value) :=
  match f with
  | None => None
  | Some Corrupt => Some None
  | Some (Pickled d) => Some (Some (VDict d))
  end.

End ExportJson.

(** ** The state machine of an entry, in the words of the specification *)

(** The terminal states of an entry. *)
Inductive Verdict :=
| SkippedDuplicate
| SkippedStale
| Rejected
| Accepted.

(** The identifier of an entry: [entry.get('link', '')]. *)
Definition entry_url (entry : Entry) : str := default [] (e_link entry).

(** The haystack of an entry: [f"{title} {content}"]. *)
Definition entry_text (L : Libs) (entry : Entry) : str :=
  default [] (e_title entry) ++ u " " ++ extract_content L entry.

(** The transition rules, in their order: (1) no identifier, or one that
    the ledger holds; (2) not recent; (3) no keyword match; (4) accepted. *)
Definition transition (ledger : dict value) (url : str) (recent matched : bool)
  : Verdict :=
  if negb (truthy url) || dict_mem ledger url then SkippedDuplicate
  else if negb recent then SkippedStale
  else if negb matched then Rejected
  else Accepted.

(** The answer of [is_recent] when the clock reads [now]. *)
Definition recent_at (L : Libs) (W : World) (days : Z) (entry : Entry)
  (n : nat) : bool :=
  match date_str_of entry with
  | Some s =>
      if truthy s then
        match dateutil_parse L (today W n) s with
        | Some entry_date =>
            match timedelta_days days with
            | Some delta =>
                match datetime_sub (now_utc W n) delta with
                | Some cutoff => (cutoff <=? instant entry_date)%Z
                | None => true
                end
            | None => true
            end
        | None => true
        end
      else true
  | None => true
  end.

(** The item that [process_entry] appends for an accepted entry. *)
Definition make_item (L : Libs) (self : Processor) (feed : Feed) (entry : Entry)
  : Item :=
  let matched_keywords := snd (contains_keywords L self (entry_text L entry)) in
  {| item_id := entry_url entry;
     item_title := default [] (e_title entry);
     item_content := extract_content L entry;
     item_summary :=
       generate_summary L (extract_content L entry) (default [] (e_title entry))
         matched_keywords;
     item_url := entry_url entry;
     item_date := default [] (e_published entry);
     item_source := feed_title feed;
     item_source_type := u "rss";
     item_keywords := matched_keywords;
     item_entities := extract_entities L (entry_text L entry) |}.

(** The entries that a run over the catalog [fs] examines. *)
Definition examined_by (W : World) (fs : list Feed) : list Entry :=
  flat_map
    (fun feed =>
       if str_eqb (feed_type feed) (u "rss") then
         match feedparser_parse W (feed_url feed) with
         | Some entries => examined entries
         | None => []
         end
       else [])
    fs.

(** An entry that no later run accepts: it has no identifier, or the
    ledger holds it, or no keyword matches it, or it was stale at some
    reading of the clock. *)
Definition settled (L : Libs) (W : World) (self : Processor)
  (ledger : dict value) (entry : Entry) : Prop :=
  truthy (entry_url entry) = false
  ∨ dict_mem ledger (entry_url entry) = true
  ∨ fst (contains_keywords L self (entry_text L entry)) = false
  ∨ ∃ n, recent_at L W (days_back self) entry n = false.

(** The world [W], except that the server of [url] answers [answer]. *)
Definition serving (W : World) (url : str) (answer : option (list Entry))
  : World :=
  {| now_utc := now_utc W;
     now_isoformat := now_isoformat W;
     today := today W;
     feedparser_parse := fun url' =>
       if str_eqb url' url then answer else feedparser_parse W url';
     files := files W;
     history_writable := history_writable W;
     history_truncated := history_truncated W;
     history_removable := history_removable W;
     report_rendered := report_rendered W |}.

(** What the loops of [process_rss_feeds] keep, from a state [st0] on: the
    configuration and the keys of the ledger; the items are those of [st0]
    and new ones, whose identifiers are distinct, were not in the ledger at
    [st0] and are in the ledger now. *)
Definition extends (st0 st : LoopState) : Prop :=
  let '(self0, _, items0) := st0 in
  let '(self, _, items) := st in
  keywords self = keywords self0
  ∧ days_back self = days_back self0
  ∧ feeds self = feeds self0
  ∧ (∀ k, dict_mem (processed_items self0) k = true
          → dict_mem (processed_items self) k = true)
  ∧ ∃ new, items = items0 ++ new
      ∧ NoDup (map item_id new)
      ∧ ∀ item, item ∈ new →
          dict_mem (processed_items self0) (item_id item) = false
          ∧ dict_mem (processed_items self) (item_id item) = true.

(** The run in [W2] is later than the one in [W1], at times that
    [datetime] represents. *)
Definition later (W1 W2 : World) : Prop :=
  (∀ i j, (now_utc W1 i ≤ now_utc W2 j)%Z)
  ∧ (∀ j, (now_utc W2 j ≤ datetime_max)%Z).

(** The feed servers answer in [W2] what they answer in [W1]. *)
Definition same_answers (W1 W2 : World) : Prop :=
  ∀ url, feedparser_parse W2 url = feedparser_parse W1 url.

(** The date stamp of [entry] is read in [W2] as it is in [W1]: on the
    days of both runs [dateutil.parser.parse] gives the same answer, as
    it does for a stamp that names its year, month and day. *)
Definition same_date (L : Libs) (W1 W2 : World) (entry : Entry) : Prop :=
  ∀ s n1 n2, date_str_of entry = Some s →
    dateutil_parse L (today W2 n2) s = dateutil_parse L (today W1 n1) s.

(** The world [W], except that [path] holds [file]. *)
Definition with_file (W : World) (path : str) (file : File) : World :=
  {| now_utc := now_utc W;
     now_isoformat := now_isoformat W;
     today := today W;
     feedparser_parse := feedparser_parse W;
     files := fun path' => if str_eqb path' path then file else files W path';
     history_writable := history_writable W;
     history_truncated := history_truncated W;
     history_removable := history_removable W;
     report_rendered := report_rendered W |}.

(** The text after an ampersand makes it one of the five entity
    references that the pre-pass of [parse_opml] leaves alone. *)
Definition known_entity (rest : str) : bool :=
  starts_with (u "amp;") rest || starts_with (u "lt;") rest
  || starts_with (u "gt;") rest || starts_with (u "apos;") rest
  || starts_with (u "quot;") rest.

(** [escaped d d']: the document [d'] is [d] with some (possibly all) of
    its ampersands that begin no such reference written as [&amp;]. *)
Inductive escaped : str → str → Prop :=
| escaped_nil : escaped [] []
| escaped_keep c d d' : escaped d d' → escaped (c :: d) (c :: d')
| escaped_amp d d' :
    known_entity d = false → escaped d d' →
    escaped (ch "&" :: d) (u "&amp;" ++ d').

(** The arguments [args], with other values for [--keywords] and
    [--feeds]. *)
Definition set_paths (args : Args) (keywords_path feeds_path : str) : Args :=
  {| args_keywords := keywords_path;
     args_feeds := feeds_path;
     args_output_dir := args_output_dir args;
     args_days_back := args_days_back args;
     args_gov := args_gov args;
     args_reset := args_reset args |}.

(** A ledger none of whose values is a record ([dict]). *)
Definition plain (d : dict value) : Prop :=
  Forall (fun v => ExportJson.is_dict v = false) (dict_values d).

(** ** Instances for the examples *)

Module Sample.

(** [list(set(l))] in order of first occurrence. *)
Fixpoint first_occurrences (seen l : list str) : list str :=
  match l with
  | [] => []
  | x :: l' =>
      if existsb (str_eqb x) seen then first_occurrences seen l'
      else x :: first_occurrences (x :: seen) l'
  end.

(** Libraries that know ASCII only, parse no date and no document, and
    leave markup alone. *)
Definition libs : Libs :=
  {| unicode_lower := fun s => s;
     unicode_isdecimal := fun _ => false;
     unicode_ieq := fun c p => (c =? p)%N;
     dateutil_parse := fun _ _ => None;
     soup_get_text := Some;
     et_fromstring := fun _ => None;
     set_order := first_occurrences [] |}.

(** The same, with a date parser that knows one timestamp: the year
    2024 began 2023 years, that is 738885 days, after the origin. *)
Definition new_year_2024 : Z := 738885 * day_us.

Definition libs_dated : Libs :=
  {| unicode_lower := fun s => s;
     unicode_isdecimal := fun _ => false;
     unicode_ieq := fun c p => (c =? p)%N;
     dateutil_parse := fun _ s =>
       if str_eqb s (u "2024-01-01T00:00:00")
       then Some {| wall := new_year_2024; utcoffset := None |}
       else None;
     soup_get_text := Some;
     et_fromstring := fun _ => None;
     set_order := first_occurrences [] |}.

Definition entry (link : option str) (title : str) (published : option str)
  : Entry :=
  {| e_link := link; e_title := Some title; e_published := published;
     e_updated := None; e_content := None; e_summary := None;
     e_description := None |}.

Definition processor (kws : list str) (days : Z) (fs : list Feed)
  (ledger : dict value) : Processor :=
  {| opml_file := Some (u "Reader_Feeds.opml"); output_dir := u "output";
     keywords := kws; days_back := days; feeds := fs; results := [];
     processed_items := ledger |}.

Definition sys0 : Sys :=
  {| ticks := 0; out := []; history_files := fun _ => None |}.

Definition feed : Feed :=
  {| feed_title := u "News"; feed_url := u "http://news/rss";
     feed_type := u "rss" |}.

(** A world whose clock stands at [t], and whose one feed serves
    [entries]. *)
Definition world (t : Z) (entries : list Entry) : World :=
  {| now_utc := fun _ => t;
     now_isoformat := fun _ => u "2024-01-03T00:00:00";
     today := fun _ => t;
     feedparser_parse := fun url =>
       if str_eqb url (u "http://news/rss") then Some entries else None;
     files := fun _ => Missing;
     history_writable := true;
     history_truncated := false;
     history_removable := true;
     report_rendered := true |}.

(** One matching entry, published at the start of 2024, and the clock one
    day, then two days later. *)
Definition entries : list Entry :=
  [entry (Some (u "http://news/1")) (u "Data protection news")
     (Some (u "2024-01-01T00:00:00"))].

(** A catalog with a bare ampersand in a feed address, and the same
    catalog correctly escaped. *)
Definition catalog : str :=
  u "<opml><outline title='News' xmlUrl='http://news/rss?a=1&b=2'/></opml>".

Definition catalog_escaped : str :=
  u "<opml><outline title='News' xmlUrl='http://news/rss?a=1&amp;b=2'/></opml>".

Definition first_run : World := world (new_year_2024 + day_us) entries.

(** A feed whose server does not answer in these worlds. *)
Definition down : Feed :=
  {| feed_title := u "Down"; feed_url := u "http://down/rss";
     feed_type := u "rss" |}.
Definition second_run : World := world (new_year_2024 + 2 * day_us) entries.

(** A date parser that knows one stamp without a year, and reads it in
    the year of the day it is called on: 2024 had 366 days. *)
Definition new_year_2025 : Z := (738885 + 366) * day_us.

Definition libs_yearless : Libs :=
  {| unicode_lower := fun s => s;
     unicode_isdecimal := fun _ => false;
     unicode_ieq := fun c p => (c =? p)%N;
     dateutil_parse := fun today s =>
       if str_eqb s (u "1 Jan 09:00")
       then Some {| wall := (if (today <? new_year_2025)%Z
                             then new_year_2024 else new_year_2025)
                            + 9 * 3600000000;
                    utcoffset := None |}
       else None;
     soup_get_text := Some;
     et_fromstring := fun _ => None;
     set_order := first_occurrences [] |}.

(** One matching entry stamped 1 January, 09:00, and two runs: on 31
    December 2024 and on 2 January 2025. *)
Definition yearless_entries : list Entry :=
  [entry (Some (u "http://news/1")) (u "Data protection news")
     (Some (u "1 Jan 09:00"))].

Definition old_year : World := world (new_year_2025 - day_us) yearless_entries.
Definition new_year : World := world (new_year_2025 + day_us) yearless_entries.

End Sample.

(** ** Further notions used by the properties *)

(** What every item of a run of [self] looks like: it has an identifier,
    which is its address; it comes from an RSS feed of the catalog, whose
    title it carries; its keywords are configured ones, in their order,
    and there is one at least unless none is configured. *)
Definition item_ok (self : Processor) (item : Item) : Prop :=
  truthy (item_id item) = true
  ∧ item_url item = item_id item
  ∧ item_source_type item = u "rss"
  ∧ (∃ feed, feed ∈ feeds self ∧ feed_type feed = u "rss"
             ∧ item_source item = feed_title feed)
  ∧ item_keywords item `sublist_of` keywords self
  ∧ (keywords self = [] ∨ item_keywords item ≠ []).

(** The arguments [args], with [--reset] given or not. *)
Definition set_reset (args : Args) (reset : bool) : Args :=
  {| args_keywords := args_keywords args;
     args_feeds := args_feeds args;
     args_output_dir := args_output_dir args;
     args_days_back := args_days_back args;
     args_gov := args_gov args;
     args_reset := reset |}.

(** Two states of the loops that differ at most in the catalog, in what
    was printed and in the history file: same configuration and ledger,
    same items, same number of clock readings. *)
Definition agree (st1 st2 : LoopState) : Prop :=
  set_feeds st1.1.1 [] = set_feeds st2.1.1 []
  ∧ st1.2 = st2.2
  ∧ ticks st1.1.2 = ticks st2.1.2.

(** ** The statistics of the report *)

Module Report.

(** The [stats] dict of [generate_stats]. A [set] is held as the list of
    its members, each once; the order of that list has no meaning. *)
Record Stats := {
  total_items : nat;
  source_breakdown : dict nat;
  keyword_frequency : dict nat;
  agencies_mentioned : list str;
  companies_mentioned : list str;
  total_amounts : list str
}.

(** [d[k] = d.get(k, 0) + 1] *)
Definition count_one (d : dict nat) (k : str) : dict nat :=
  dict_set d k (default 0%nat (dict_get d k) + 1)%nat.

(** [s.add(x)] and [s.update(l)] *)
Definition set_add (s : list str) (x : str) : list str :=
  if existsb (str_eqb x) s then s else s ++ [x].

Definition set_update (s : list str) (l : list str) : list str :=
  fold_left set_add l s.

(** Truth value of a list. *)
Definition nonempty {A} (l : list A) : bool :=
  match l with [] => false | _ => true end.

(** The body of the third loop of [generate_stats], on the pair of
    [stats['agencies_mentioned']] and [stats['total_amounts']]. *)
Definition collect (acc : list str * list str) (item : Item)
  : list str * list str :=
  let '(agencies_mentioned, total_amounts) := acc in
  let entities := item_entities item in
  let agencies_mentioned :=
    if nonempty (agencies entities)
    then set_update agencies_mentioned (agencies entities)
    else agencies_mentioned in
  let agencies_mentioned :=
    if nonempty (companies entities)
    then set_update agencies_mentioned (companies entities)
    else agencies_mentioned in
  let total_amounts :=
    if nonempty (amounts entities)
    then total_amounts ++ amounts entities
    else total_amounts in
  (agencies_mentioned, total_amounts).

(** [generate_stats(self, items)], on items as [process_rss_feeds] builds
    them (every key present). *)
Definition generate_stats (items : list Item) : Stats :=
  let source_breakdown :=
    fold_left (fun d item => count_one d (item_source_type item)) items [] in
  let keyword_frequency :=
    fold_left (fun d item => fold_left count_one (item_keywords item) d)
              items [] in
  let collected := fold_left collect items ([], []) in
  {| total_items := length items;
     source_breakdown := source_breakdown;
     keyword_frequency := keyword_frequency;
     agencies_mentioned := collected.1;
     companies_mentioned := [];
     total_amounts := collected.2 |}.

(** The number of times [k] occurs in [keys]. *)
Definition occurrences (k : str) (keys : list str) : nat :=
  length (List.filter (str_eqb k) keys).

(** The sum of the counts of a counter. *)
Definition total (d : dict nat) : nat := fold_right Nat.add 0%nat (dict_values d).

End Report.

(** ** [article_processor.py] *)

(** The strings that a pattern can consume: the language of [r], a
    lookahead consuming nothing. *)
Fixpoint consumes (r : Re.re) (x : str) : Prop :=
  match r with
  | Re.Eps => x = []
  | Re.Cls p => ∃ c, x = [c] ∧ p c = true
  | Re.Seq a b => ∃ x1 x2, x = x1 ++ x2 ∧ consumes a x1 ∧ consumes b x2
  | Re.Alt a b => consumes a x ∨ consumes b x
  | Re.Star a => ∃ xs, x = concat xs ∧ Forall (consumes a) xs
  | Re.NotAhead _ => x = []
  end.

Module Article.

(** [str(n)] for an [int]. *)
Definition str_of_int (n : Z) : str := u (NilZero.string_of_int (Z.to_int n)).

(** [s[:n]] *)
Definition slice_to (s : str) (n : Z) : str :=
  if (0 <=? n)%Z then take (Z.to_nat n) s
  else take (Z.to_nat (Z.of_nat (length s) + n)) s.

(** [s.strip(c)] for a single character [c]. *)
Fixpoint lstrip_char (x : char) (s : str) : str :=
  match s with
  | [] => []
  | c :: s' => if (c =? x)%N then lstrip_char x s' else s
  end.

Definition strip_char (x : char) (s : str) : str :=
  rev (lstrip_char x (rev (lstrip_char x s))).

(** What [messages.create] and the reading of its first content block
    come to: the text, [anthropic.RateLimitError], or any other exception,
    with its message. *)
Inductive Reply :=
| Replied (text : str)
| RateLimited
| Raised (e : str).

(** The dict that [summarize_with_claude] returns. *)
Record SummaryData := {
  summary : str;
  tags : list str;
  raw_response : str
}.

(** What [summarize_with_claude] does to the outside: a request to the API
    (with the number of the attempt) and [time.sleep(seconds)]. *)
Inductive Effect :=
| Called (attempt : nat)
| Slept (seconds : Z).

Section WithLibs.
Variable L : Libs.

(** [str.isalnum] on a code point above 127. *)
Variable unicode_isalnum : char → bool.

(** The reply of the API to the request of attempt [n] of a call of
    [summarize_with_claude] with this prompt. *)
Variable client : nat → str → Reply.

(** [[a-zA-Z0-9_-]] *)
Definition tag_char (c : char) : bool :=
  Re.range (ch "a") (ch "z") c || Re.range (ch "A") (ch "Z") c
  || Re.range (ch "0") (ch "9") c || (c =? ch "_")%N || (c =? ch "-")%N.

(** [#([a-zA-Z0-9_-]+)] without its group. *)
Definition tag_pattern : Re.re :=
  Re.Seq (Re.chr (ch "#")) (Re.Plus (Re.Cls tag_char)).

(** [extract_tags_from_summary(self, summary)]; [re.findall] returns the
    group of each match, which is the match without its first
    character. *)
Definition extract_tags_from_summary (summary : str) : list str :=
  let matches := map (drop 1) (Re.findall tag_pattern summary) in
  let tags := map (lower L) matches in
  set_order L tags.

(** [\w] in a [str] pattern. *)
Definition isword (c : char) : bool :=
  if is_ascii c
  then Re.range (ch "a") (ch "z") c || Re.range (ch "A") (ch "Z") c
       || Re.range (ch "0") (ch "9") c || (c =? ch "_")%N
  else unicode_isalnum c.

(** [[^\w\s-]] *)
Definition special (c : char) : bool :=
  negb (isword c || isspace c || (c =? ch "-")%N).

(** [sanitize_filename(self, title, max_length)]. *)
Definition sanitize_filename (title : str) (max_length : Z) : str :=
  let clean := Re.sub (Re.Cls special) [] title in
  let clean := Re.sub (Re.Plus (Re.Cls isspace)) (u "_") clean in
  let clean := strip_char (ch "_") clean in
  let clean :=
    if (max_length <? Z.of_nat (length clean))%Z
    then slice_to clean max_length else clean in
  clean ++ u ".md".

(** [self.summary_prompt.format(title=title, url=url, content=content)] *)
Definition summary_prompt (title url content : str) : str :=
  u "Provide a bullet point summary of the page, including key themes and interesting observations. Suggest one or more relevant tags and list them in the format #{tag}. For example, #legal, #AI, #neuraltech, #artificial-intelligence, #data-protection, #brain-computer-interface, #quantum-computing"
  ++ [10; 10]%N ++ u "Article Title: " ++ title
  ++ [10]%N ++ u "Article URL: " ++ url
  ++ [10]%N ++ u "Article Content:" ++ [10]%N ++ content.

(** The [for attempt in range(max_retries)] loop of
    [summarize_with_claude]; [range] is what is left of the range, [trace]
    the effects so far. *)
Fixpoint retry_loop (prompt : str) (max_retries : Z) (range : list nat)
  (trace : list Effect) : SummaryData * list Effect :=
  match range with
  | [] =>
      ({| summary := u "Error: Max retries exceeded"; tags := [];
          raw_response := [] |}, trace)
  | attempt :: range' =>
      let trace := trace ++ [Called attempt] in
      match client attempt prompt with
      | Replied response_text =>
          ({| summary := response_text;
              tags := extract_tags_from_summary response_text;
              raw_response := response_text |}, trace)
      | RateLimited =>
          let wait_time := (2 ^ Z.of_nat attempt * 2)%Z in
          if (Z.of_nat attempt <? max_retries - 1)%Z
          then retry_loop prompt max_retries range' (trace ++ [Slept wait_time])
          else
            ({| summary := u "Rate limit exceeded after "
                           ++ str_of_int max_retries ++ u " retries";
                tags := []; raw_response := [] |}, trace)
      | Raised e =>
          ({| summary := u "Error generating summary: " ++ e; tags := [];
              raw_response := [] |}, trace)
      end
  end.

(** [summarize_with_claude(self, title, url, content, max_retries)], with
    the effects it has; what it prints is left out. *)
Definition summarize_with_claude (title url content : str) (max_retries : Z)
  : SummaryData * list Effect :=
  let max_content_length := 15000%Z in
  let content :=
    if (max_content_length <? Z.of_nat (length content))%Z
    then slice_to content max_content_length
         ++ [10; 10]%N ++ u "[Content truncated...]"
    else content in
  let prompt := summary_prompt title url content in
  retry_loop prompt max_retries (seq 0 (Z.to_nat max_retries)) [].

End WithLibs.

(** The seconds slept in a trace. *)
Definition slept (trace : list Effect) : list Z :=
  flat_map (fun e => match e with Slept s => [s] | Called _ => [] end) trace.

(** The attempts made in a trace. *)
Definition called (trace : list Effect) : list nat :=
  flat_map (fun e => match e with Called a => [a] | Slept _ => [] end) trace.

End Article.

(** A pair of a feed of the catalog and an entry that a run over it could
    accept: the feed is an RSS feed whose server answers, the entry is among
    those examined, its identifier is not in the ledger the run starts
    from, and it is recent at some reading of the clock. *)
Definition acceptable (L : Libs) (W : World) (self : Processor)
  (fe : Feed * Entry) : Prop :=
  fe.1 ∈ feeds self
  ∧ feed_type fe.1 = u "rss"
  ∧ (∃ entries, feedparser_parse W (feed_url fe.1) = Some entries
                ∧ fe.2 ∈ examined entries)
  ∧ truthy (entry_url fe.2) = true
  ∧ dict_mem (processed_items self) (entry_url fe.2) = false
  ∧ fst (contains_keywords L self (entry_text L fe.2)) = true
  ∧ ∃ n, recent_at L W (days_back self) fe.2 n = true.

(** * Properties *)

(** ** Text *)

Lemma str_eqb_eq (a b : str) : str_eqb a b = true ↔ a = b.
Proof.
  revert b. induction a as [|x a IH]; intros [|y b]; simpl; try by split.
  rewrite andb_true_iff, N.eqb_eq, IH. split.
  - by intros [-> ->].
  - intros H. by injection H.
Qed.

Lemma str_eqb_refl (a : str) : str_eqb a a = true.
Proof. by apply str_eqb_eq. Qed.

Lemma str_eqb_neq (a b : str) : str_eqb a b = false ↔ a ≠ b.
Proof.
  rewrite <- str_eqb_eq. destruct (str_eqb a b); split; congruence.
Qed.

Lemma starts_with_spec (p s : str) :
  starts_with p s = true ↔ ∃ b, s = p ++ b.
Proof.
  revert s. induction p as [|a p IH]; intros s; simpl.
  - split; [eauto | done].
  - destruct s as [|c s].
    + split; [done | intros [b Hb]; discriminate].
    + rewrite andb_true_iff, N.eqb_eq, IH. split.
      * intros [-> [b ->]]. eauto.
      * intros [b Hb]. injection Hb as -> ->. eauto.
Qed.

Lemma contains_spec (hay needle : str) :
  contains hay needle = true ↔ is_substring needle hay.
Proof.
  unfold is_substring. induction hay as [|c hay IH]; simpl.
  - rewrite orb_false_r, starts_with_spec. split.
    + intros [b Hb]. exists [], b. done.
    + intros [a [b Hab]]. destruct a; [eauto|discriminate].
  - rewrite orb_true_iff, starts_with_spec, IH. split.
    + intros [[b Hb] | [a [b Hab]]].
      * exists [], b. done.
      * exists (c :: a), b. simpl. by rewrite Hab.
    + intros [a [b Hab]]. destruct a as [|c' a].
      * left. eauto.
      * right. injection Hab as _ ->. eauto.
Qed.

(** ** The keyword matcher *)

Section Keywords.
Context (L : Libs).

Lemma match_loop_filter (text_lower : str) (kws matched : list str) :
  match_loop L text_lower kws matched
  = matched ++ List.filter (fun kw => contains text_lower (lower L kw)) kws.
Proof.
  revert matched. induction kws as [|kw kws IH]; intros matched; simpl.
  - by rewrite app_nil_r.
  - rewrite IH. destruct (contains text_lower (lower L kw)); [|done].
    by rewrite <- app_assoc.
Qed.

Lemma contains_keywords_matched (self : Processor) (text : str) :
  snd (contains_keywords L self text)
  = List.filter (fun kw => contains (lower L text) (lower L kw)) (keywords self).
Proof.
  unfold contains_keywords. destruct (keywords self) as [|k ks] eqn:E; [done|].
  cbn [snd]. by rewrite match_loop_filter.
Qed.

Lemma contains_keywords_flag (self : Processor) (text : str) :
  fst (contains_keywords L self text) = true
  ↔ keywords self = []
    ∨ ∃ kw, kw ∈ keywords self ∧ contains (lower L text) (lower L kw) = true.
Proof.
  unfold contains_keywords. destruct (keywords self) as [|k ks] eqn:E.
  - split; [by left | done].
  - cbn [fst]. rewrite match_loop_filter, app_nil_l, Nat.ltb_lt. split.
    + intros Hlen. right.
      destruct (List.filter _ (k :: ks)) as [|kw m] eqn:F; [simpl in Hlen; lia|].
      assert (Hin : In kw (List.filter
        (fun kw => contains (lower L text) (lower L kw)) (k :: ks)))
        by (rewrite F; by left).
      apply filter_In in Hin as [Hin Hc]. exists kw. split; [|done].
      by apply list_elem_of_In.
    + intros [? | [kw [Hin Hc]]]; [done|].
      assert (Hf : In kw (List.filter
        (fun kw => contains (lower L text) (lower L kw)) (k :: ks))).
      { apply filter_In. split; [by apply list_elem_of_In | done]. }
      destruct (List.filter _ (k :: ks)); [destruct Hf | simpl; lia].
Qed.
End Keywords.

(** C6. [contains_keywords] reports a match exactly when the keyword list
    is empty or the lowercase form of some keyword is a substring of the
    lowercase haystack; the matched keywords are the configured keywords
    that occur, in configured order, and none when the list is empty. The
    haystack "Data Protection Authority fines Acme Corp $5M" with the
    keywords "data protection" and "fine" matches both. *)
Theorem contains_keywords_spec (L : Libs) (self : Processor) (text : str) :
  (fst (contains_keywords L self text) = true
   ↔ keywords self = []
     ∨ ∃ kw, kw ∈ keywords self ∧ is_substring (lower L kw) (lower L text))
  ∧ snd (contains_keywords L self text)
    = List.filter (fun kw => contains (lower L text) (lower L kw)) (keywords self)
  ∧ (∀ kw, contains (lower L text) (lower L kw) = true
           ↔ is_substring (lower L kw) (lower L text))
  ∧ match keywords self with
    | [] => contains_keywords L self text = (true, [])
    | _ => True
    end
  ∧ contains_keywords L
      (Sample.processor [u "data protection"; u "fine"] 3 [] [])
      (u "Data Protection Authority fines Acme Corp $5M")
    = (true, [u "data protection"; u "fine"]).
Proof.
  split; [|split; [|split; [|split]]].
  - rewrite contains_keywords_flag. split.
    + intros [H | [kw [Hin Hc]]]; [by left|]. right. exists kw.
      split; [done|]. by apply contains_spec.
    + intros [H | [kw [Hin Hc]]]; [by left|]. right. exists kw.
      split; [done|]. by apply contains_spec.
  - apply contains_keywords_matched.
  - intros kw. apply contains_spec.
  - unfold contains_keywords. by destruct (keywords self).
  - vm_compute. reflexivity.
Qed.

(** ** The recency filter *)

Lemma is_recent_undated (L : Libs) (W : World) (self : Processor)
  (entry : Entry) (sys : Sys) :
  date_str_of entry = None ∨ date_str_of entry = Some []
  ∨ (∃ s, date_str_of entry = Some s
          ∧ dateutil_parse L (today W (ticks sys)) s = None) →
  is_recent L W self entry sys = (true, sys).
Proof.
  unfold is_recent, date_str_of.
  intros [H | [H | [s [H Hp]]]]; rewrite H; [done..|].
  rewrite Hp. by destruct (truthy s).
Qed.

Lemma is_recent_dated (L : Libs) (W : World) (self : Processor)
  (entry : Entry) (sys : Sys) (s : str) (d : datetime) :
  date_str_of entry = Some s → s ≠ [] →
  dateutil_parse L (today W (ticks sys)) s = Some d →
  is_recent L W self entry sys
  = (match timedelta_days (days_back self) with
     | Some delta =>
         match datetime_sub (now_utc W (ticks sys)) delta with
         | Some cutoff => (cutoff <=? instant d)%Z
         | None => true
         end
     | None => true
     end, tick sys).
Proof.
  unfold is_recent, date_str_of. intros -> Hs ->.
  destruct s as [|c s]; [done|]. cbn [truthy].
  destruct (timedelta_days (days_back self)) as [delta|]; [|done].
  by destruct (datetime_sub (now_utc W (ticks sys)) delta).
Qed.

Lemma cutoff_spec (days now i : Z) :
  (0 ≤ days)%Z → (now ≤ datetime_max)%Z → (datetime_min ≤ i)%Z →
  match timedelta_days days with
  | Some delta =>
      match datetime_sub now delta with
      | Some cutoff => (cutoff <=? i)%Z
      | None => true
      end
  | None => true
  end = true ↔ (now - days * day_us ≤ i)%Z.
Proof.
  intros Hdays Hnow Hmin.
  unfold timedelta_days, datetime_sub.
  assert (Hday : (day_us = 86400000000)%Z) by reflexivity.
  assert (Hmax : (datetime_max = 3652059 * day_us - 1)%Z) by reflexivity.
  assert (Hmn : (datetime_min = 0)%Z) by reflexivity.
  destruct (Z.leb_spec (Z.abs days) 999999999) as [Ha | Ha].
  - destruct (Z.leb_spec datetime_min (now - days * day_us)) as [H1 | H1];
      destruct (Z.leb_spec (now - days * day_us) datetime_max) as [H2 | H2];
      cbn [andb]; rewrite ?Z.leb_le; split; try done; intros _; nia.
  - split; [|done]. intros _. nia.
Qed.

(** C5. For an entry whose timestamp parses, [is_recent] answers true
    exactly when the parsed date, read as UTC when it has no timezone, is
    not before the current UTC time minus [days_back] days: a date exactly
    at that bound is recent and an earlier one is not. An entry whose
    timestamp is absent, empty or does not parse is recent. The lookback is
    a number of days back ([0 <= days_back]), and clock and parsed date are
    dates that [datetime] represents. *)
Theorem is_recent_spec (L : Libs) (W : World) (self : Processor)
  (entry : Entry) (sys : Sys) :
  (0 ≤ days_back self)%Z →
  (now_utc W (ticks sys) ≤ datetime_max)%Z →
  (∀ s d, date_str_of entry = Some s → s ≠ [] →
          dateutil_parse L (today W (ticks sys)) s = Some d →
          (datetime_min ≤ instant d)%Z →
          (fst (is_recent L W self entry sys) = true
           ↔ (now_utc W (ticks sys) - days_back self * day_us ≤ instant d)%Z))
  ∧ (date_str_of entry = None ∨ date_str_of entry = Some []
     ∨ (∃ s, date_str_of entry = Some s
             ∧ dateutil_parse L (today W (ticks sys)) s = None) →
     fst (is_recent L W self entry sys) = true).
Proof.
  intros Hdays Hnow. split.
  - intros s d Hs Hne Hp Hmin.
    rewrite (is_recent_dated L W self entry sys s d Hs Hne Hp). cbn [fst].
    by apply cutoff_spec.
  - intros H. by rewrite (is_recent_undated L W self entry sys H).
Qed.

Lemma is_recent_spec_witness :
  fst (is_recent Sample.libs_dated
         (Sample.world (Sample.new_year_2024 + 3 * day_us) [])
         (Sample.processor [] 3 [] [])
         (Sample.entry None [] (Some (u "2024-01-01T00:00:00")))
         Sample.sys0) = true.
Proof.
  apply (proj1 (is_recent_spec Sample.libs_dated
           (Sample.world (Sample.new_year_2024 + 3 * day_us) [])
           (Sample.processor [] 3 [] [])
           (Sample.entry None [] (Some (u "2024-01-01T00:00:00")))
           Sample.sys0 ltac:(vm_compute; discriminate)
           ltac:(vm_compute; discriminate))
           (u "2024-01-01T00:00:00")
           {| wall := Sample.new_year_2024; utcoffset := None |}).
  - reflexivity.
  - discriminate.
  - reflexivity.
  - vm_compute. discriminate.
  - vm_compute. discriminate.
Defined.

(** ** The summary *)

Section Summary.
Context (L : Libs).

Lemma relevant_loop_take (kws sentences acc : list str) :
  length acc < 6 →
  relevant_loop L kws sentences acc
  = take 6 (acc ++ List.filter
              (fun s => (30 <? length s)%nat && any_keyword_in L kws (lower L s))
              (map strip sentences)).
Proof.
  revert acc. induction sentences as [|s rest IH]; intros acc Hacc;
    cbn [relevant_loop map List.filter].
  - rewrite app_nil_r. symmetry. apply take_ge. lia.
  - destruct (30 <? length (strip s))%nat; cbn [andb]; [|by apply IH].
    destruct (any_keyword_in L kws (lower L (strip s))); [|by apply IH].
    destruct (6 <=? length (acc ++ [strip s]))%nat eqn:E.
    + apply Nat.leb_le in E. rewrite length_app in E. cbn [length] in E.
      set (more := List.filter _ _).
      change (acc ++ strip s :: more) with (acc ++ [strip s] ++ more).
      rewrite (app_assoc acc [strip s] more).
      rewrite take_app_length'; [done|]. rewrite length_app. cbn [length]. lia.
    + apply Nat.leb_gt in E. rewrite IH by done.
      by rewrite <- app_assoc.
Qed.

Lemma map_strip_filter (l : list str) :
  map strip (List.filter (fun s => truthy (strip s)) l)
  = List.filter truthy (map strip l).
Proof.
  induction l as [|s l IH]; simpl; [done|].
  destruct (truthy (strip s)); simpl; by rewrite IH.
Qed.

Lemma any_keyword_in_spec (kws : list str) (s : str) :
  any_keyword_in L kws s = true
  ↔ ∃ kw, kw ∈ kws ∧ is_substring (lower L kw) s.
Proof.
  unfold any_keyword_in. rewrite existsb_exists. split.
  - intros [kw [Hin Hc]]. exists kw. split; [by apply list_elem_of_In|].
    by apply contains_spec.
  - intros [kw [Hin Hc]]. exists kw. split; [by apply list_elem_of_In|].
    by apply contains_spec.
Qed.
End Summary.

(** C7, as the code has it. The sentences are the pieces between runs of
    [.], [!] and [?], each trimmed of surrounding whitespace. The summary
    is made of the first 6 trimmed sentences that are longer than 30
    characters and contain a keyword case-insensitively; when there is
    none, of the non-empty ones among the first two pieces. They are joined
    with ". " and followed by "."; the line naming the keywords is added
    when the keyword list is not empty. *)
Theorem generate_summary_spec (L : Libs) (content title : str) (kws : list str) :
  let sentences := Re.split sentence_end content in
  let relevant :=
    take 6 (List.filter
              (fun s => (30 <? length s)%nat && any_keyword_in L kws (lower L s))
              (map strip sentences)) in
  let fallback := List.filter truthy (map strip (take 2 sentences)) in
  generate_summary L content title kws
  = join (u ". ") (match relevant with [] => fallback | _ => relevant end)
    ++ u "." ++ match kws with [] => [] | _ => keywords_line kws end
  ∧ ∀ s, any_keyword_in L kws (lower L s) = true
         ↔ ∃ kw, kw ∈ kws ∧ is_substring (lower L kw) (lower L s).
Proof.
  split; [|intros s; apply any_keyword_in_spec].
  unfold generate_summary.
  rewrite (relevant_loop_take L kws) by (simpl; lia). rewrite app_nil_l.
  rewrite map_strip_filter.
  destruct (take 6 _) as [|r rs]; destruct kws as [|k ks];
    rewrite <- ?app_assoc, ?app_nil_r; reflexivity.
Qed.

(** C7 as stated fails: the body "...And then there were none. The end.
    Bye" has no qualifying sentence, its first two non-empty sentences are
    "And then there were none" and "The end", and the summary is "And then
    there were none." *)
Lemma generate_summary_fallback_counterexample :
  let content := u "...And then there were none. The end. Bye" in
  take 2 (List.filter truthy (map strip (Re.split sentence_end content)))
  = [u "And then there were none"; u "The end"]
  ∧ generate_summary Sample.libs content [] [] = u "And then there were none."
  ∧ contains (generate_summary Sample.libs content [] []) (u "The end") = false.
Proof. vm_compute. repeat split. Qed.

(** ** Dictionaries *)

Lemma dict_mem_set {V} (d : dict V) (k k' : str) (v : V) :
  dict_mem (dict_set d k v) k' = str_eqb k k' || dict_mem d k'.
Proof.
  unfold dict_mem. induction d as [|[k0 v0] d IH]; cbn [dict_set dict_get].
  - destruct (str_eqb k k'); reflexivity.
  - destruct (str_eqb k0 k) eqn:E0; cbn [dict_get].
    + apply str_eqb_eq in E0. subst k0.
      destruct (str_eqb k k'); reflexivity.
    + destruct (str_eqb k0 k') eqn:E1; [by rewrite orb_true_r | exact IH].
Qed.

Lemma dict_mem_set_same {V} (d : dict V) (k : str) (v : V) :
  dict_mem (dict_set d k v) k = true.
Proof. by rewrite dict_mem_set, str_eqb_refl. Qed.

Lemma dict_mem_set_mono {V} (d : dict V) (k k' : str) (v : V) :
  dict_mem d k' = true → dict_mem (dict_set d k v) k' = true.
Proof. intros H. by rewrite dict_mem_set, H, orb_true_r. Qed.

Lemma dict_values_set {V} (P : V → Prop) (d : dict V) (k : str) (v : V) :
  P v → Forall P (dict_values d) → Forall P (dict_values (dict_set d k v)).
Proof.
  intros Hv. unfold dict_values.
  induction d as [|[k0 v0] d IH]; cbn [dict_set map]; intros Hd.
  - by constructor.
  - inversion Hd; subst. destruct (str_eqb k0 k); cbn [map snd].
    + by constructor.
    + constructor; [done | by apply IH].
Qed.

(** ** One entry *)

Section Entry.
Context (L : Libs) (W : World).

Lemma is_recent_at (self : Processor) (entry : Entry) (sys : Sys) :
  fst (is_recent L W self entry sys)
  = recent_at L W (days_back self) entry (ticks sys).
Proof.
  unfold is_recent, recent_at, date_str_of.
  destruct (e_published entry) as [s|]; [|destruct (e_updated entry) as [s|]];
    try done;
    destruct (truthy s); try done;
    destruct (dateutil_parse L _ s); try done;
    destruct (timedelta_days (days_back self)); try done;
    by destruct (datetime_sub _ _).
Qed.

Lemma is_recent_sys (self : Processor) (entry : Entry) (sys : Sys) :
  snd (is_recent L W self entry sys) = sys
  ∨ snd (is_recent L W self entry sys) = tick sys.
Proof.
  unfold is_recent.
  destruct (e_published entry) as [s|]; [|destruct (e_updated entry) as [s|]];
    try (by left);
    destruct (truthy s); try (by left);
    destruct (dateutil_parse L _ s); try (by left);
    destruct (timedelta_days (days_back self)); try (by right);
    destruct (datetime_sub _ _); by right.
Qed.

Lemma contains_keywords_config (p q : Processor) (text : str) :
  keywords p = keywords q →
  contains_keywords L p text = contains_keywords L q text.
Proof. unfold contains_keywords. by intros ->. Qed.

(** [process_entry], one case for each verdict. *)
Lemma process_entry_eq (feed : Feed) (self : Processor) (sys : Sys)
  (items : list Item) (entry : Entry) :
  process_entry L W feed (self, sys, items) entry
  = let r := is_recent L W self entry sys in
    match transition (processed_items self) (entry_url entry) (fst r)
            (fst (contains_keywords L self (entry_text L entry))) with
    | SkippedDuplicate => (self, sys, items)
    | SkippedStale | Rejected => (self, snd r, items)
    | Accepted =>
        (set_processed_items self
           (dict_set (processed_items self) (entry_url entry)
              (VStr (now_isoformat W (ticks (snd r))))),
         tick (snd r), items ++ [make_item L self feed entry])
    end.
Proof.
  unfold process_entry, transition, make_item, entry_text, entry_url.
  cbv zeta.
  destruct (negb (truthy (default [] (e_link entry)))
            || dict_mem (processed_items self) (default [] (e_link entry)));
    [done|].
  destruct (is_recent L W self entry sys) as [recent sys1]. cbn [fst snd].
  destruct recent; cbn [negb]; [|done].
  destruct (contains_keywords L self _) as [has matched]. cbn [fst snd].
  by destruct has.
Qed.
End Entry.

Lemma transition_accepted (ledger : dict value) (url : str)
  (recent matched : bool) :
  transition ledger url recent matched = Accepted
  ↔ truthy url = true ∧ dict_mem ledger url = false
    ∧ recent = true ∧ matched = true.
Proof.
  unfold transition.
  destruct (truthy url), (dict_mem ledger url), recent, matched; cbn;
    split; try done; intros (? & ? & ? & ?); done.
Qed.

(** C2, as the code has it. The checks of an entry run in the order of
    the transition rules: an entry with no identifier, or with one that
    the ledger holds, leaves the state as it is (the clock is not even
    read); otherwise a stale entry, and otherwise one that no keyword
    matches, leaves ledger and items as they are; otherwise exactly one
    item is appended and the identifier enters the ledger with the current
    timestamp. So an item is produced exactly when the entry has an
    identifier that is not in the ledger, is recent and matches. *)
Theorem process_entry_spec (L : Libs) (W : World) (feed : Feed)
  (self : Processor) (sys : Sys) (items : list Item) (entry : Entry) :
  let url := entry_url entry in
  let r := is_recent L W self entry sys in
  let matched := fst (contains_keywords L self (entry_text L entry)) in
  let st' := process_entry L W feed (self, sys, items) entry in
  match transition (processed_items self) url (fst r) matched with
  | SkippedDuplicate => st' = (self, sys, items)
  | SkippedStale | Rejected => st'.1.1 = self ∧ st'.2 = items
  | Accepted =>
      st'.2 = items ++ [make_item L self feed entry]
      ∧ item_id (make_item L self feed entry) = url
      ∧ processed_items st'.1.1
        = dict_set (processed_items self) url
            (VStr (now_isoformat W (ticks (snd r))))
  end
  ∧ (st'.2 = items ++ [make_item L self feed entry]
     ↔ truthy url = true ∧ dict_mem (processed_items self) url = false
       ∧ fst r = true ∧ matched = true)
  ∧ (st'.2 = items ∨ st'.2 = items ++ [make_item L self feed entry])
  ∧ (transition (processed_items self) url (fst r) matched = Accepted
     ↔ truthy url = true ∧ dict_mem (processed_items self) url = false
       ∧ fst r = true ∧ matched = true).
Proof.
  cbv zeta. rewrite process_entry_eq. cbv zeta.
  assert (Hne : ∀ x : Item, items ≠ items ++ [x]).
  { intros x H. apply (f_equal length) in H. rewrite length_app in H.
    simpl in H. lia. }
  pose proof (transition_accepted (processed_items self) (entry_url entry)
    (fst (is_recent L W self entry sys))
    (fst (contains_keywords L self (entry_text L entry)))) as Hacc.
  destruct (transition _ _ _ _); cbn [fst snd];
    (split; [|split; [|split]]); try done;
    try (by left); try (by right); try (by apply Hacc).
  all: try (split; [intros H; by destruct (Hne _ H) | intros H; by apply Hacc in H]).
  split; [by intros _; apply Hacc | done].
Qed.

(** C2 as stated fails: an entry without a link is not in the (empty)
    ledger, is recent (it has no date) and matches (the keyword list is
    empty), and no item is produced for it. *)
Lemma process_entry_iff_counterexample :
  let entry := Sample.entry None (u "News") None in
  let self := Sample.processor [] 3 [] [] in
  let W := Sample.world 0 [] in
  dict_mem (processed_items self) (entry_url entry) = false
  ∧ fst (is_recent Sample.libs W self entry Sample.sys0) = true
  ∧ fst (contains_keywords Sample.libs self (entry_text Sample.libs entry)) = true
  ∧ process_entry Sample.libs W Sample.feed (self, Sample.sys0, []) entry
    = (self, Sample.sys0, []).
Proof. vm_compute. repeat split. Qed.

(** ** One feed *)

Section Feed.
Context (L : Libs) (W : World).

Lemma process_entry_bounds (feed : Feed) (st : LoopState) (entry : Entry) :
  length (process_entry L W feed st entry).2 ≤ S (length st.2)
  ∧ ticks (process_entry L W feed st entry).1.2 ≤ 2 + ticks st.1.2.
Proof.
  destruct st as [[self sys] items]. rewrite process_entry_eq. cbv zeta.
  destruct (is_recent_sys L W self entry sys) as [-> | ->];
    destruct (transition _ _ _ _); cbn [fst snd tick ticks];
    rewrite ?length_app; cbn [length]; lia.
Qed.

Lemma fold_entries_bounds (feed : Feed) (entries : list Entry) (st : LoopState) :
  length (fold_left (process_entry L W feed) entries st).2
    ≤ length entries + length st.2
  ∧ ticks (fold_left (process_entry L W feed) entries st).1.2
    ≤ 2 * length entries + ticks st.1.2.
Proof.
  revert st. induction entries as [|e es IH]; intros st; cbn [fold_left length].
  - lia.
  - destruct (IH (process_entry L W feed st e)) as [H1 H2].
    destruct (process_entry_bounds feed st e) as [H3 H4]. lia.
Qed.

Lemma examined_length (entries : list Entry) :
  length (examined entries) = min 50 (length entries).
Proof. unfold examined. apply length_take. Qed.
End Feed.

(** ** A run *)

Section Run.
Context (L : Libs) (W : World).

Lemma extends_refl (st : LoopState) : extends st st.
Proof.
  destruct st as [[self sys] items]. repeat split; try done.
  exists []. rewrite app_nil_r. split; [done|]. split; [apply NoDup_nil_2|].
  intros item H. by apply elem_of_nil in H.
Qed.

Lemma process_entry_extends (feed : Feed) (st0 st : LoopState) (entry : Entry) :
  extends st0 st → extends st0 (process_entry L W feed st entry).
Proof.
  destruct st0 as [[self0 sys0] items0], st as [[self sys] items].
  intros (Hk & Hd & Hf & Hmono & new & Hitems & Hnodup & Hnew).
  rewrite process_entry_eq. cbv zeta.
  pose proof (transition_accepted (processed_items self) (entry_url entry)
    (fst (is_recent L W self entry sys))
    (fst (contains_keywords L self (entry_text L entry)))) as Hacc.
  destruct (transition _ _ _ _);
    try (repeat split; try done; by exists new).
  destruct (proj1 Hacc eq_refl) as (Hurl & Hfresh & _ & _).
  cbn [extends set_processed_items keywords days_back feeds processed_items].
  repeat split; try done.
  - intros k Hin. apply dict_mem_set_mono. by apply Hmono.
  - exists (new ++ [make_item L self feed entry]). split; [|split].
    + rewrite Hitems. by rewrite app_assoc.
    + rewrite map_app. apply NoDup_app. split; [done|]. split.
      * intros id Hid Hid'. cbn in Hid'. apply list_elem_of_singleton in Hid'.
        subst id. apply list_elem_of_fmap in Hid as (item & Heq & Hitem).
        destruct (Hnew item Hitem) as [_ Hin]. rewrite <- Heq in Hin.
        cbn [make_item item_id] in Hin. congruence.
      * cbn. apply NoDup_singleton.
    + intros item Hitem. apply elem_of_app in Hitem as [Hitem | Hitem].
      * destruct (Hnew item Hitem) as [H0 H1]. split; [done|].
        by apply dict_mem_set_mono.
      * apply list_elem_of_singleton in Hitem. subst item.
        cbn [make_item item_id]. split; [|apply dict_mem_set_same].
        destruct (dict_mem (processed_items self0) (entry_url entry)) eqn:E;
          [|done]. apply Hmono in E. congruence.
Qed.

Lemma fold_entries_extends (feed : Feed) (entries : list Entry)
  (st0 st : LoopState) :
  extends st0 st → extends st0 (fold_left (process_entry L W feed) entries st).
Proof.
  revert st. induction entries as [|e es IH]; intros st H; cbn [fold_left].
  - done.
  - apply IH. by apply process_entry_extends.
Qed.

Lemma extends_print (st0 : LoopState) (self : Processor) (sys : Sys)
  (items : list Item) (ev : event) :
  extends st0 (self, sys, items) → extends st0 (self, print ev sys, items).
Proof. by destruct st0 as [[self0 sys0] items0]. Qed.

Lemma process_feed_extends (st0 st : LoopState) (feed : Feed) :
  extends st0 st → extends st0 (process_feed L W st feed).
Proof.
  destruct st as [[self sys] items]. intros H. unfold process_feed.
  destruct (negb (str_eqb (feed_type feed) (u "rss"))); [done|].
  destruct (feedparser_parse W (feed_url feed)) as [entries|].
  - apply fold_entries_extends. by apply extends_print.
  - by apply extends_print, extends_print.
Qed.

Lemma fold_feeds_extends (fs : list Feed) (st0 st : LoopState) :
  extends st0 st → extends st0 (fold_left (process_feed L W) fs st).
Proof.
  revert st. induction fs as [|f fs IH]; intros st H; cbn [fold_left].
  - done.
  - apply IH. by apply process_feed_extends.
Qed.

Lemma settled_mono (p q : Processor) (l1 l2 : dict value) (entry : Entry) :
  keywords q = keywords p → days_back q = days_back p →
  (∀ k, dict_mem l1 k = true → dict_mem l2 k = true) →
  settled L W p l1 entry → settled L W q l2 entry.
Proof.
  intros Hk Hd Hmono. unfold settled.
  rewrite (contains_keywords_config L q p _ Hk), Hd.
  intros [H | [H | [H | H]]]; auto.
Qed.

Lemma process_entry_settled (feed : Feed) (self : Processor) (sys : Sys)
  (items : list Item) (entry : Entry) :
  settled L W self
    (processed_items (process_entry L W feed (self, sys, items) entry).1.1)
    entry.
Proof.
  rewrite process_entry_eq. cbv zeta. unfold transition, settled.
  destruct (truthy (entry_url entry)); cbn [negb orb fst snd]; [|by left].
  destruct (dict_mem (processed_items self) (entry_url entry)) eqn:Hm;
    cbn [negb orb fst snd]; [by right; left|].
  destruct (fst (is_recent L W self entry sys)) eqn:Hr; cbn [negb fst snd].
  - destruct (fst (contains_keywords L self (entry_text L entry)));
      cbn [negb fst snd].
    + right. left. cbn [set_processed_items processed_items].
      apply dict_mem_set_same.
    + right. right. by left.
  - right. right. right. exists (ticks sys). by rewrite <- is_recent_at.
Qed.

Lemma extends_config (st0 st : LoopState) :
  extends st0 st →
  keywords st.1.1 = keywords st0.1.1 ∧ days_back st.1.1 = days_back st0.1.1
  ∧ feeds st.1.1 = feeds st0.1.1
  ∧ ∀ k, dict_mem (processed_items st0.1.1) k = true
         → dict_mem (processed_items st.1.1) k = true.
Proof.
  destruct st0 as [[self0 sys0] items0], st as [[self sys] items].
  by intros (Hk & Hd & Hf & Hmono & _).
Qed.

Lemma fold_entries_settled (feed : Feed) (entries : list Entry)
  (st : LoopState) (entry : Entry) :
  entry ∈ entries →
  settled L W st.1.1
    (processed_items (fold_left (process_entry L W feed) entries st).1.1) entry.
Proof.
  revert st. induction entries as [|e es IH]; intros st Hin.
  - by apply elem_of_nil in Hin.
  - cbn [fold_left].
    pose proof (process_entry_extends feed st st e (extends_refl st)) as Hstep.
    apply extends_config in Hstep as (Hk & Hd & _ & _).
    apply elem_of_cons in Hin as [-> | Hin].
    + pose proof (fold_entries_extends feed es _ _
        (extends_refl (process_entry L W feed st e))) as Hrest.
      apply extends_config in Hrest as (_ & _ & _ & Hmono).
      apply (settled_mono st.1.1 st.1.1 _ _ _ eq_refl eq_refl Hmono).
      destruct st as [[self sys] items]. apply process_entry_settled.
    + apply (settled_mono (process_entry L W feed st e).1.1 st.1.1 _ _ _
               (eq_sym Hk) (eq_sym Hd) (fun k H => H) (IH _ Hin)).
Qed.

Lemma process_feed_settled (st : LoopState) (feed : Feed) (entry : Entry) :
  entry ∈ examined_by W [feed] →
  settled L W st.1.1 (processed_items (process_feed L W st feed).1.1) entry.
Proof.
  destruct st as [[self sys] items]. unfold examined_by, process_feed.
  cbn [flat_map]. rewrite app_nil_r.
  destruct (str_eqb (feed_type feed) (u "rss")); cbn [negb];
    [|intros H; by apply elem_of_nil in H].
  destruct (feedparser_parse W (feed_url feed)) as [entries|];
    [|intros H; by apply elem_of_nil in H].
  intros Hin.
  apply (fold_entries_settled feed (examined entries)
    (self, print (EvProcessing (feed_title feed)) sys, items) entry Hin).
Qed.

Lemma fold_feeds_settled (fs : list Feed) (st : LoopState) (entry : Entry) :
  entry ∈ examined_by W fs →
  settled L W st.1.1
    (processed_items (fold_left (process_feed L W) fs st).1.1) entry.
Proof.
  revert st. induction fs as [|f fs IH]; intros st Hin.
  - by apply elem_of_nil in Hin.
  - cbn [fold_left].
    pose proof (process_feed_extends st st f (extends_refl st)) as Hstep.
    apply extends_config in Hstep as (Hk & Hd & _ & _).
    unfold examined_by in Hin. cbn [flat_map] in Hin.
    apply elem_of_app in Hin as [Hin | Hin].
    + pose proof (fold_feeds_extends fs _ _
        (extends_refl (process_feed L W st f))) as Hrest.
      apply extends_config in Hrest as (_ & _ & _ & Hmono).
      apply (settled_mono st.1.1 st.1.1 _ _ _ eq_refl eq_refl Hmono).
      apply process_feed_settled. unfold examined_by. cbn [flat_map].
      by rewrite app_nil_r.
    + apply (settled_mono (process_feed L W st f).1.1 st.1.1 _ _ _
               (eq_sym Hk) (eq_sym Hd) (fun k H => H) (IH _ Hin)).
Qed.
End Run.

(** ** A later run *)

Lemma recent_at_mono (L : Libs) (W1 W2 : World) (days : Z) (entry : Entry)
  (n1 n2 : nat) :
  (0 ≤ days)%Z → (now_utc W1 n1 ≤ now_utc W2 n2)%Z →
  (now_utc W2 n2 ≤ datetime_max)%Z → same_date L W1 W2 entry →
  recent_at L W1 days entry n1 = false → recent_at L W2 days entry n2 = false.
Proof.
  intros Hdays Ht Hmax Hsame. unfold recent_at.
  destruct (date_str_of entry) as [s|] eqn:Es; [|done].
  rewrite (Hsame s n1 n2 Es).
  set (t1 := now_utc W1 n1) in *. set (t2 := now_utc W2 n2) in *.
  destruct (truthy s); [|done].
  destruct (dateutil_parse L (today W1 n1) s) as [d|]; [|done].
  unfold timedelta_days.
  destruct (Z.abs days <=? 999999999)%Z; [|done].
  unfold datetime_sub.
  assert (Hday : (0 ≤ days * day_us)%Z) by (unfold day_us; lia).
  destruct (Z.leb_spec datetime_min (t1 - days * day_us)) as [H1 | H1];
    [|done].
  destruct (Z.leb_spec (t1 - days * day_us) datetime_max) as [H2 | H2];
    [|done].
  cbn [andb]. intros Hc. apply Z.leb_gt in Hc.
  destruct (Z.leb_spec datetime_min (t2 - days * day_us)) as [H3 | H3];
    [|lia].
  destruct (Z.leb_spec (t2 - days * day_us) datetime_max) as [H4 | H4];
    [|lia].
  cbn [andb]. apply Z.leb_gt. lia.
Qed.

Section Rerun.
Context (L : Libs) (W1 W2 : World).

(** An entry that the first run settled is not accepted by the second. *)
Lemma process_entry_skip (feed : Feed) (self1 self2 : Processor)
  (ledger1 : dict value) (sys2 : Sys) (items : list Item) (entry : Entry) :
  later W1 W2 → (0 ≤ days_back self1)%Z →
  keywords self2 = keywords self1 → days_back self2 = days_back self1 →
  (∀ k, dict_mem ledger1 k = true → dict_mem (processed_items self2) k = true) →
  settled L W1 self1 ledger1 entry ∧ same_date L W1 W2 entry →
  (process_entry L W2 feed (self2, sys2, items) entry).1.1 = self2
  ∧ (process_entry L W2 feed (self2, sys2, items) entry).2 = items.
Proof.
  intros [Hlater Hmax] Hdays Hk Hd Hsub [Hsettled Hsame].
  rewrite process_entry_eq. cbv zeta.
  pose proof (transition_accepted (processed_items self2) (entry_url entry)
    (fst (is_recent L W2 self2 entry sys2))
    (fst (contains_keywords L self2 (entry_text L entry)))) as Hacc.
  destruct (transition _ _ _ _); try done.
  exfalso. destruct (proj1 Hacc eq_refl) as (Hurl & Hfresh & Hrecent & Hmatch).
  destruct Hsettled as [H | [H | [H | [n H]]]].
  - congruence.
  - apply Hsub in H. congruence.
  - rewrite (contains_keywords_config L self2 self1 _ Hk) in Hmatch. congruence.
  - rewrite is_recent_at, Hd in Hrecent.
    rewrite (recent_at_mono L W1 W2 (days_back self1) entry n (ticks sys2)
      Hdays (Hlater _ _) (Hmax _) Hsame H) in Hrecent.
    discriminate.
Qed.

Lemma fold_entries_skip (feed : Feed) (self1 self2 : Processor)
  (ledger1 : dict value) (entries : list Entry) (sys2 : Sys)
  (items : list Item) :
  later W1 W2 → (0 ≤ days_back self1)%Z →
  keywords self2 = keywords self1 → days_back self2 = days_back self1 →
  (∀ k, dict_mem ledger1 k = true → dict_mem (processed_items self2) k = true) →
  (∀ entry, entry ∈ entries →
     settled L W1 self1 ledger1 entry ∧ same_date L W1 W2 entry) →
  (fold_left (process_entry L W2 feed) entries (self2, sys2, items)).1.1 = self2
  ∧ (fold_left (process_entry L W2 feed) entries (self2, sys2, items)).2 = items.
Proof.
  intros Hlater Hdays Hk Hd Hsub. revert sys2.
  induction entries as [|e es IH]; intros sys2 Hall; cbn [fold_left]; [done|].
  destruct (process_entry_skip feed self1 self2 ledger1 sys2 items e
    Hlater Hdays Hk Hd Hsub) as [H1 H2].
  { apply Hall. by left. }
  destruct (process_entry L W2 feed (self2, sys2, items) e) as [[self' sys'] items'].
  cbn [fst snd] in H1, H2. subst self' items'.
  apply IH. intros entry Hin. apply Hall. by right.
Qed.

Lemma fold_feeds_skip (self1 self2 : Processor) (ledger1 : dict value)
  (fs : list Feed) (sys2 : Sys) (items : list Item) :
  later W1 W2 → (0 ≤ days_back self1)%Z →
  keywords self2 = keywords self1 → days_back self2 = days_back self1 →
  (∀ k, dict_mem ledger1 k = true → dict_mem (processed_items self2) k = true) →
  (∀ entry, entry ∈ examined_by W2 fs →
     settled L W1 self1 ledger1 entry ∧ same_date L W1 W2 entry) →
  (fold_left (process_feed L W2) fs (self2, sys2, items)).1.1 = self2
  ∧ (fold_left (process_feed L W2) fs (self2, sys2, items)).2 = items.
Proof.
  intros Hlater Hdays Hk Hd Hsub. revert sys2.
  induction fs as [|f fs IH]; intros sys2 Hall; cbn [fold_left]; [done|].
  assert (Hrest : ∀ entry, entry ∈ examined_by W2 fs
                           → settled L W1 self1 ledger1 entry
                             ∧ same_date L W1 W2 entry).
  { intros entry Hin. apply Hall. unfold examined_by. cbn [flat_map].
    apply elem_of_app. by right. }
  assert (Hhead : ∀ entry,
    entry ∈ (if str_eqb (feed_type f) (u "rss") then
               match feedparser_parse W2 (feed_url f) with
               | Some entries => examined entries
               | None => []
               end
             else []) → settled L W1 self1 ledger1 entry
                        ∧ same_date L W1 W2 entry).
  { intros entry Hin. apply Hall. unfold examined_by. cbn [flat_map].
    apply elem_of_app. by left. }
  unfold process_feed at 2 4.
  destruct (str_eqb (feed_type f) (u "rss")); cbn [negb]; [|by apply IH].
  destruct (feedparser_parse W2 (feed_url f)) as [entries|]; [|by apply IH].
  destruct (fold_entries_skip f self1 self2 ledger1 (examined entries)
    (print (EvProcessing (feed_title f)) sys2) items
    Hlater Hdays Hk Hd Hsub Hhead) as [H1 H2].
  destruct (fold_left (process_entry L W2 f) _ _) as [[self' sys'] items'].
  cbn [fst snd] in H1, H2. subst self' items'. by apply IH.
Qed.

Lemma examined_by_same (fs : list Feed) :
  same_answers W1 W2 → examined_by W2 fs = examined_by W1 fs.
Proof.
  intros Hsame. unfold examined_by. induction fs as [|f fs IH]; [done|].
  cbn [flat_map]. by rewrite IH, Hsame.
Qed.
End Rerun.

Lemma process_all_sources_eq (L : Libs) (W : World) (self : Processor)
  (sys : Sys) :
  process_all_sources L W self sys
  = let run := process_rss_feeds L W self (print EvStarting sys) in
    let self' :=
      set_results run.1.1
        (fold_left (fun r item => dict_set r (item_id item) item) run.2
           (results run.1.1)) in
    (self', print (EvCollected (length run.2)) (save_history W self' run.1.2),
     length run.2).
Proof.
  unfold process_all_sources.
  by destruct (process_rss_feeds L W self (print EvStarting sys)) as [[? ?] ?].
Qed.

(** ** The configuration of a processor *)

Section MainConfig.
Context (L : Libs) (W : World).

Lemma process_entry_self (feed : Feed) (st : LoopState) (entry : Entry) :
  ∃ d, (process_entry L W feed st entry).1.1 = set_processed_items st.1.1 d.
Proof.
  destruct st as [[self sys] items]. rewrite process_entry_eq. cbv zeta.
  destruct (transition _ _ _ _); cbn [fst snd]; eauto;
    exists (processed_items self); by destruct self.
Qed.

Lemma fold_entries_self (feed : Feed) (entries : list Entry) (st : LoopState) :
  ∃ d, (fold_left (process_entry L W feed) entries st).1.1
       = set_processed_items st.1.1 d.
Proof.
  revert st. induction entries as [|e es IH]; intros st; cbn [fold_left].
  - exists (processed_items st.1.1). by destruct st as [[[] ?] ?].
  - destruct (IH (process_entry L W feed st e)) as [d Hd].
    destruct (process_entry_self feed st e) as [d' Hd'].
    exists d. by rewrite Hd, Hd'.
Qed.

Lemma fold_feeds_self (fs : list Feed) (st : LoopState) :
  ∃ d, (fold_left (process_feed L W) fs st).1.1 = set_processed_items st.1.1 d.
Proof.
  revert st. induction fs as [|f fs IH]; intros st; cbn [fold_left].
  - exists (processed_items st.1.1). by destruct st as [[[] ?] ?].
  - destruct (IH (process_feed L W st f)) as [d Hd]. exists d. rewrite Hd.
    destruct st as [[self sys] items]. unfold process_feed.
    destruct (negb (str_eqb (feed_type f) (u "rss"))); [done|].
    destruct (feedparser_parse W (feed_url f)) as [es|]; [|done].
    destruct (fold_entries_self f (examined es)
      (self, print (EvProcessing (feed_title f)) sys, items)) as [d' Hd'].
    by rewrite Hd'.
Qed.

Lemma process_all_sources_config (self : Processor) (sys : Sys) :
  keywords (process_all_sources L W self sys).1.1 = keywords self
  ∧ opml_file (process_all_sources L W self sys).1.1 = opml_file self
  ∧ days_back (process_all_sources L W self sys).1.1 = days_back self
  ∧ output_dir (process_all_sources L W self sys).1.1 = output_dir self.
Proof.
  rewrite process_all_sources_eq. cbv zeta. unfold process_rss_feeds.
  destruct (fold_feeds_self (feeds self) (self, print EvStarting sys, []))
    as [d Hd].
  cbn [fst snd]. by rewrite Hd.
Qed.

Lemma parse_opml_config (self : Processor) (sys : Sys) :
  keywords (parse_opml L W self sys).1 = keywords self
  ∧ opml_file (parse_opml L W self sys).1 = opml_file self
  ∧ days_back (parse_opml L W self sys).1 = days_back self
  ∧ output_dir (parse_opml L W self sys).1 = output_dir self.
Proof.
  unfold parse_opml. destruct (opml_file self) as [path|] eqn:E;
    [|cbn [fst]; by rewrite E].
  destruct (negb (truthy path)); [cbn [fst]; by rewrite E|].
  destruct (files W path); try (cbn [fst]; by rewrite E).
  destruct (et_fromstring L _);
    cbn [fst set_feeds keywords opml_file days_back output_dir]; by rewrite E.
Qed.
End MainConfig.

(** C1, as the code has it. In a run, an entry whose identifier the
    ledger holds leaves the state as it is, the ledger only grows, and the
    items of the run have distinct identifiers, none of which the ledger
    held before and all of which it holds after. A processor that loads
    the history file the run saved has the run's ledger, and no run of it,
    whatever the servers answer, gives an item under an identifier of that
    ledger. A later run with the same keywords, lookback and catalog, to
    which the servers answer the same entries, produces no item, provided
    that the date stamps of the entries are read on its day as on the day
    of the first run. *)
Theorem dedup_correct (L : Libs) (W1 W2 : World) (self self2 : Processor)
  (sys sys2 : Sys) :
  (0 ≤ days_back self)%Z → later W1 W2 → same_answers W1 W2 →
  (∀ entry, entry ∈ examined_by W1 (feeds self) → same_date L W1 W2 entry) →
  history_writable W1 = true →
  keywords self2 = keywords self → days_back self2 = days_back self →
  feeds self2 = feeds self →
  history_file (history_path (output_dir self2)) sys2
  = history_file (history_path (output_dir self))
      (process_all_sources L W1 self sys).1.2 →
  processed_items self2
  = (load_history (history_path (output_dir self2)) sys2).1 →
  let run1 := process_rss_feeds L W1 self (print EvStarting sys) in
  NoDup (map item_id run1.2)
  ∧ (∀ item, item ∈ run1.2 →
       dict_mem (processed_items self) (item_id item) = false
       ∧ dict_mem (processed_items run1.1.1) (item_id item) = true)
  ∧ (∀ k, dict_mem (processed_items self) k = true
          → dict_mem (processed_items run1.1.1) k = true)
  ∧ (∀ W feed p s items entry,
       dict_mem (processed_items p) (entry_url entry) = true →
       process_entry L W feed (p, s, items) entry = (p, s, items))
  ∧ processed_items self2 = processed_items run1.1.1
  ∧ (∀ W sys' item,
       item ∈ (process_rss_feeds L W self2 sys').2 →
       dict_mem (processed_items run1.1.1) (item_id item) = false)
  ∧ (process_rss_feeds L W2 self2 (print EvStarting sys2)).2 = []
  ∧ (process_all_sources L W2 self2 sys2).2 = 0.
Proof.
  intros Hdays Hlater Hsame Hdates Hw Hk Hd Hf Hfile Hledger run1.
  pose proof (fold_feeds_extends L W1 (feeds self) _ _
    (extends_refl (self, print EvStarting sys, []))) as Hext.
  fold (process_rss_feeds L W1 self (print EvStarting sys)) in Hext.
  fold run1 in Hext.
  assert (Hsettled : ∀ entry, entry ∈ examined_by W1 (feeds self) →
            settled L W1 self (processed_items run1.1.1) entry).
  { intros entry Hin.
    apply (fold_feeds_settled L W1 (feeds self)
             (self, print EvStarting sys, []) entry Hin). }
  assert (Hload : processed_items self2 = processed_items run1.1.1).
  { rewrite Hledger. unfold load_history.
    change (history_files sys2 (history_path (output_dir self2)))
      with (history_file (history_path (output_dir self2)) sys2).
    rewrite Hfile, process_all_sources_eq. cbv zeta. fold run1.
    destruct (fold_feeds_self L W1 (feeds self) (self, print EvStarting sys, []))
      as [d Hself].
    fold (process_rss_feeds L W1 self (print EvStarting sys)) in Hself.
    fold run1 in Hself. cbn [fst snd] in Hself.
    unfold save_history. rewrite Hw. cbn [fst snd set_results output_dir].
    rewrite Hself at 1.
    unfold history_file, print, set_history_file.
    cbn [history_files set_processed_items output_dir processed_items].
    by rewrite str_eqb_refl. }
  assert (Hrun2 : (process_rss_feeds L W2 self2 (print EvStarting sys2)).2 = []).
  { unfold process_rss_feeds. rewrite Hf.
    apply (fold_feeds_skip L W1 W2 self self2 (processed_items run1.1.1)
             (feeds self) (print EvStarting sys2) [] Hlater Hdays Hk Hd).
    - intros k Hin. by rewrite Hload.
    - intros entry Hin.
      rewrite (examined_by_same W1 W2 (feeds self) Hsame) in Hin.
      split; [by apply Hsettled | by apply Hdates]. }
  assert (Hlater_runs : ∀ W sys' item,
            item ∈ (process_rss_feeds L W self2 sys').2 →
            dict_mem (processed_items run1.1.1) (item_id item) = false).
  { intros W sys' item Hin.
    pose proof (fold_feeds_extends L W (feeds self2) _ _
      (extends_refl (self2, sys', []))) as H.
    fold (process_rss_feeds L W self2 sys') in H.
    destruct (process_rss_feeds L W self2 sys') as [[p s] items].
    destruct H as (_ & _ & _ & _ & new & Hnew & _ & Hfresh).
    cbn [app fst snd] in *. subst new. rewrite <- Hload.
    by apply Hfresh. }
  destruct run1 as [[self1 sys1] items1] eqn:Erun. cbn [fst snd] in *.
  destruct Hext as (_ & _ & _ & Hmono & new & Hitems & Hnodup & Hnew).
  cbn [app] in Hitems. subst new.
  split; [done|]. split; [done|]. split; [done|].
  split; [|split; [done|split; [done|split; [done|]]]].
  - intros W feed p s items entry Hin. rewrite process_entry_eq. cbv zeta.
    unfold transition. rewrite Hin. by rewrite orb_true_r.
  - rewrite process_all_sources_eq. cbv zeta. cbn [snd]. by rewrite Hrun2.
Qed.

Lemma dedup_correct_witness :
  (process_all_sources Sample.libs_dated Sample.second_run
     (set_processed_items (Sample.processor [u "data"] 3 [Sample.feed] [])
        (load_history (history_path (u "output"))
           (process_all_sources Sample.libs_dated Sample.first_run
              (Sample.processor [u "data"] 3 [Sample.feed] []) Sample.sys0).1.2).1)
     (process_all_sources Sample.libs_dated Sample.first_run
        (Sample.processor [u "data"] 3 [Sample.feed] []) Sample.sys0).1.2).2 = 0
  ∧ length (process_rss_feeds Sample.libs_dated Sample.first_run
      (Sample.processor [u "data"] 3 [Sample.feed] [])
      (print EvStarting Sample.sys0)).2 = 1.
Proof.
  split; [|vm_compute; reflexivity].
  refine (proj2 (proj2 (proj2 (proj2 (proj2 (proj2 (proj2
    (dedup_correct Sample.libs_dated Sample.first_run Sample.second_run
       (Sample.processor [u "data"] 3 [Sample.feed] []) _ Sample.sys0 _
       _ _ _ _ _ _ _ _ _ _)))))))).
  - vm_compute. discriminate.
  - split; intros; vm_compute; discriminate.
  - intros url. reflexivity.
  - intros entry _ s n1 n2 _. reflexivity.
  - reflexivity.
  - reflexivity.
  - reflexivity.
  - reflexivity.
  - reflexivity.
  - reflexivity.
Defined.

(** C1 as stated fails: an entry stamped "1 Jan 09:00" names no year, and
    the parser takes the year from the day of the run. On 31 December
    2024, with a lookback of 3 days, the entry is stale and the run finds
    nothing; on 2 January 2025 the same catalog, the same answer of the
    server and the ledger that the first run saved give one item. *)
Lemma dedup_rerun_counterexample :
  let self := Sample.processor [u "data"] 3 [Sample.feed] [] in
  let run1 :=
    process_all_sources Sample.libs_yearless Sample.old_year self Sample.sys0 in
  let self2 :=
    set_processed_items self
      (load_history (history_path (output_dir self)) run1.1.2).1 in
  later Sample.old_year Sample.new_year
  ∧ same_answers Sample.old_year Sample.new_year
  ∧ history_writable Sample.old_year = true
  ∧ run1.2 = 0%nat
  ∧ (process_all_sources Sample.libs_yearless Sample.new_year self2
       run1.1.2).2 = 1%nat.
Proof.
  cbv zeta. split; [split; intros; vm_compute; discriminate|].
  split; [intros url; reflexivity|]. vm_compute. repeat split.
Qed.

(** ** The export *)

Section LedgerValues.
Context (L : Libs) (W : World).

Lemma process_entry_plain (feed : Feed) (st : LoopState) (entry : Entry) :
  plain (processed_items st.1.1) →
  plain (processed_items (process_entry L W feed st entry).1.1).
Proof.
  destruct st as [[self sys] items]. intros H. rewrite process_entry_eq.
  cbv zeta. destruct (transition _ _ _ _); cbn [fst snd]; try done.
  cbn [set_processed_items processed_items]. unfold plain.
  by apply dict_values_set.
Qed.

Lemma fold_entries_plain (feed : Feed) (entries : list Entry) (st : LoopState) :
  plain (processed_items st.1.1) →
  plain (processed_items (fold_left (process_entry L W feed) entries st).1.1).
Proof.
  revert st. induction entries as [|e es IH]; intros st H; cbn [fold_left].
  - done.
  - apply IH. by apply process_entry_plain.
Qed.

Lemma fold_feeds_plain (fs : list Feed) (st : LoopState) :
  plain (processed_items st.1.1) →
  plain (processed_items (fold_left (process_feed L W) fs st).1.1).
Proof.
  revert st. induction fs as [|f fs IH]; intros st H; cbn [fold_left].
  - done.
  - apply IH. destruct st as [[self sys] items]. unfold process_feed.
    destruct (negb (str_eqb (feed_type f) (u "rss"))); [done|].
    destruct (feedparser_parse W (feed_url f)); [|done].
    by apply fold_entries_plain.
Qed.

Lemma items_loop_plain (d : dict value) (items : list value) :
  plain d → ExportJson.items_loop d items = items.
Proof.
  revert items. induction d as [|[k v] d IH]; intros items H; [done|].
  cbn [ExportJson.items_loop]. unfold plain in H. cbn [dict_values map] in H.
  inversion H as [|? ? Hv Hd]; subst.
  cbn [snd] in Hv. rewrite Hv. by apply IH.
Qed.
End LedgerValues.

(** C3, on the code: the values of the ledger that a run saves are the
    timestamps of acceptance ([str]), as they were before the run when the
    history held no record; [export_to_json] keeps only values that are
    records, so the export of the saved ledger has no item, whatever the
    run accepted. *)
Theorem export_of_saved_ledger (L : Libs) (W : World) (self : Processor)
  (sys : Sys) (now : str) :
  plain (processed_items self) →
  history_writable W = true →
  ExportJson.export_to_json
    (ExportJson.of_history
       (history_file (history_path (output_dir self))
          (process_all_sources L W self sys).1.2)) now true
  = Some {| ExportJson.generated_at := now;
            ExportJson.total_items := 0;
            ExportJson.items := VList [] |}.
Proof.
  intros Hplain Hw. rewrite process_all_sources_eq. cbv zeta.
  unfold save_history. rewrite Hw.
  destruct (fold_feeds_self L W (feeds self) (self, print EvStarting sys, []))
    as [d Hself].
  fold (process_rss_feeds L W self (print EvStarting sys)) in Hself.
  cbn [fst snd] in Hself.
  cbn [fst snd set_results output_dir processed_items]. rewrite Hself at 1.
  unfold history_file, print, set_history_file.
  cbn [history_files set_processed_items output_dir]. rewrite str_eqb_refl.
  cbn [ExportJson.of_history ExportJson.export_to_json].
  rewrite items_loop_plain; [reflexivity|].
  apply (fold_feeds_plain L W (feeds self) (self, print EvStarting sys, []) Hplain).
Qed.

Lemma export_of_saved_ledger_witness :
  length (process_rss_feeds Sample.libs_dated Sample.first_run
            (Sample.processor [u "data"] 3 [Sample.feed] [])
            (print EvStarting Sample.sys0)).2 = 1
  ∧ history_file (u "output/processed_intelligence.pkl")
      (process_all_sources Sample.libs_dated Sample.first_run
         (Sample.processor [u "data"] 3 [Sample.feed] []) Sample.sys0).1.2
    = Some (Pickled [(u "http://news/1", VStr (u "2024-01-03T00:00:00"))])
  ∧ ExportJson.export_to_json
      (ExportJson.of_history
         (history_file (history_path (u "output"))
            (process_all_sources Sample.libs_dated Sample.first_run
               (Sample.processor [u "data"] 3 [Sample.feed] []) Sample.sys0).1.2))
      (u "2024-01-04T00:00:00") true
    = Some {| ExportJson.generated_at := u "2024-01-04T00:00:00";
              ExportJson.total_items := 0;
              ExportJson.items := VList [] |}.
Proof.
  split; [vm_compute; reflexivity|]. split; [vm_compute; reflexivity|].
  apply (export_of_saved_ledger Sample.libs_dated Sample.first_run
           (Sample.processor [u "data"] 3 [Sample.feed] []) Sample.sys0).
  - apply Forall_nil_2.
  - reflexivity.
Defined.

(** ** [main] *)

(** C10. [main] does not read the values of [--keywords] and [--feeds]:
    two invocations that differ only there do the same. The keyword list is
    that of the file [keywords.txt] (without which [main] ends in an
    exception), and the catalog is [Reader_Feeds.opml]. *)
Theorem main_ignores_paths (L : Libs) (W : World) (args : Args)
  (keywords_path feeds_path : str) (sys : Sys) :
  main L W (set_paths args keywords_path feeds_path) sys = main L W args sys
  ∧ match main L W args sys with
    | Some (processor, _, _) =>
        opml_file processor = Some (u "Reader_Feeds.opml")
        ∧ ∃ text, files W (u "keywords.txt") = Content text
                  ∧ keywords processor = keyword_lines text
    | None => ∀ text, files W (u "keywords.txt") ≠ Content text
    end.
Proof.
  split; [reflexivity|].
  unfold main. destruct (files W (u "keywords.txt")) as [| |text] eqn:E;
    try done.
  unfold init. destruct (load_history _ sys) as [history sys1].
  match goal with
  | |- context [parse_opml L W ?p ?s] =>
      pose proof (parse_opml_config L W p s) as (Hk1 & Ho1 & _);
      destruct (parse_opml L W p s) as [p1 sys3]
  end.
  cbn [fst keywords opml_file] in Hk1, Ho1.
  pose proof (process_all_sources_config L W p1 sys3) as (Hk2 & Ho2 & _).
  destruct (process_all_sources L W p1 sys3) as [[p2 sys4] n].
  cbn [fst] in Hk2, Ho2. split; [by rewrite Ho2, Ho1|].
  exists text. split; [done|]. by rewrite Hk2, Hk1.
Qed.

(** ** Entities *)

Lemma set_order_nil (L : Libs) : set_order_ok L → set_order L [] = [].
Proof.
  intros H. destruct (H []) as [_ Hin].
  destruct (set_order L []) as [|x l]; [done|].
  exfalso. apply (elem_of_nil x). apply Hin. by left.
Qed.

Lemma set_order_singleton (L : Libs) (x : str) :
  set_order_ok L → set_order L [x] = [x].
Proof.
  intros H. destruct (H [x]) as [Hnodup Hin].
  destruct (set_order L [x]) as [|a l].
  - exfalso. apply (elem_of_nil x). apply Hin. by left.
  - assert (a = x) as ->.
    { apply list_elem_of_singleton. apply Hin. by left. }
    destruct l as [|b l]; [done|].
    assert (b = x) as ->.
    { apply list_elem_of_singleton. apply Hin. right. by left. }
    apply NoDup_cons in Hnodup as [Hnotin _]. exfalso. apply Hnotin. by left.
Qed.

Lemma first_occurrences_spec (seen l : list str) :
  NoDup (Sample.first_occurrences seen l)
  ∧ ∀ x, x ∈ Sample.first_occurrences seen l ↔ x ∈ l ∧ x ∉ seen.
Proof.
  revert seen. induction l as [|a l IH]; intros seen; cbn [Sample.first_occurrences].
  - split; [constructor|]. intros x. split.
    + intros H. by apply elem_of_nil in H.
    + intros [H _]. by apply elem_of_nil in H.
  - destruct (existsb (str_eqb a) seen) eqn:E.
    + destruct (IH seen) as [Hnd Hin]. split; [done|]. intros x.
      rewrite Hin, elem_of_cons. split; [tauto|].
      intros [[-> | H] Hs]; [|done]. exfalso. apply Hs.
      apply existsb_exists in E as (y & Hy & Heq).
      apply str_eqb_eq in Heq. subst y. by apply list_elem_of_In.
    + destruct (IH (a :: seen)) as [Hnd Hin].
      assert (Ha : a ∉ seen).
      { intros Hs. apply not_true_iff_false in E. apply E.
        apply existsb_exists. exists a. split; [by apply list_elem_of_In|].
        apply str_eqb_refl. }
      split.
      * apply NoDup_cons. split; [|done]. rewrite Hin.
        intros [_ Hn]. apply Hn. by left.
      * intros x. rewrite !elem_of_cons, Hin, elem_of_cons. split.
        -- intros [-> | [Hx Hn]]; [tauto|]. split; [tauto|].
           intros Hs. apply Hn. by right.
        -- intros [[-> | Hx] Hs]; [tauto|].
           destruct (decide (x = a)) as [-> | Hne]; [tauto|].
           right. split; [done|]. intros [? | ?]; done.
Qed.

Lemma sample_set_order_ok : set_order_ok Sample.libs.
Proof.
  intros l. destruct (first_occurrences_spec [] l) as [Hnd Hin].
  split; [exact Hnd|]. intros x. cbn [set_order Sample.libs]. rewrite Hin.
  split; [tauto|]. intros H. split; [done|]. apply not_elem_of_nil.
Qed.

(** C4, on the code. From "Acme Technologies was fined $1.5 million by
    the Department of Justice" the agencies are ["Department of Justice"]
    and the companies ["Acme Technologies"], but the amounts are ["$1"]:
    the amount pattern is written to take a fraction and a scale word, and
    its fraction is of exactly two digits, so the match ends before
    ".5 million" and the amount is cut short. *)
Theorem extract_entities_example (L : Libs) :
  set_order_ok L →
  extract_entities L
    (u "Acme Technologies was fined $1.5 million by the Department of Justice")
  = {| companies := [u "Acme Technologies"];
       agencies := [u "Department of Justice"];
       amounts := [u "$1"];
       people := [] |}.
Proof.
  intros Hset. unfold extract_entities, dedup5.
  set (text := u "Acme Technologies was fined $1.5 million by the Department of Justice").
  assert (Hamounts : take 5 (Re.findall (amount_pattern L) text) = [u "$1"])
    by (vm_compute; reflexivity).
  assert (Hagencies :
    flat_map (fun pattern => Re.findall pattern text) agency_patterns
    = [u "Department of Justice"]) by (vm_compute; reflexivity).
  assert (Hcompanies :
    company_loop (split_ws text) 0 (split_ws text) [] = [u "Acme Technologies"])
    by (vm_compute; reflexivity).
  rewrite Hamounts, Hagencies, Hcompanies.
  rewrite !set_order_singleton, set_order_nil by done. reflexivity.
Qed.

Lemma extract_entities_example_witness :
  extract_entities Sample.libs
    (u "Acme Technologies was fined $1.5 million by the Department of Justice")
  = {| companies := [u "Acme Technologies"];
       agencies := [u "Department of Justice"];
       amounts := [u "$1"];
       people := [] |}.
Proof. apply (extract_entities_example Sample.libs sample_set_order_ok). Defined.

(** C4 fails on the code: the amounts are not ["$1.5 million"]. *)
Lemma extract_entities_amounts_counterexample :
  amounts (extract_entities Sample.libs
    (u "Acme Technologies was fined $1.5 million by the Department of Justice"))
  ≠ [u "$1.5 million"].
Proof. vm_compute. discriminate. Qed.

(** ** The feed catalog *)

Lemma m_lit (s d : str) (k : str → option str) :
  Re.m (Re.lit s) d k = if starts_with s d then k (drop (length s) d) else None.
Proof.
  revert d k. induction s as [|c s IH]; intros d k; [done|].
  destruct s as [|c' s].
  - cbn [Re.lit Re.chr Re.m starts_with length]. destruct d as [|x d]; [done|].
    rewrite (N.eqb_sym x c). destruct (c =? x)%N; [|done].
    cbn [andb]. by destruct d.
  - change (Re.lit (c :: c' :: s)) with (Re.Seq (Re.chr c) (Re.lit (c' :: s))).
    cbn [Re.m Re.chr]. destruct d as [|x d]; [done|].
    change (starts_with (c :: c' :: s) (x :: d))
      with ((c =? x)%N && starts_with (c' :: s) d).
    rewrite (N.eqb_sym x c). destruct (c =? x)%N; [|done].
    cbn [andb]. rewrite IH. reflexivity.
Qed.

Lemma match_len_bare (c : char) (d : str) :
  Re.match_len bare_ampersand (c :: d)
  = if (c =? ch "&")%N && negb (known_entity d) then Some 1 else None.
Proof.
  unfold Re.match_len, bare_ampersand, known_entity.
  cbn [Re.m Re.chr]. destruct (c =? ch "&")%N; [|done]. cbn [andb].
  rewrite !m_lit.
  destruct (starts_with (u "amp;") d); [done|].
  destruct (starts_with (u "lt;") d); [done|].
  destruct (starts_with (u "gt;") d); [done|].
  destruct (starts_with (u "apos;") d); [done|].
  destruct (starts_with (u "quot;") d); [done|].
  cbn [orb negb length]. f_equal. lia.
Qed.

Lemma scan_gap (r : Re.re) (repl s : str) (skip : nat) (gap : str) :
  Re.assemble repl (Re.scan r s skip gap)
  = rev gap ++ Re.assemble repl (Re.scan r s skip []).
Proof.
  revert skip gap. induction s as [|c s IH]; intros skip gap; cbn [Re.scan].
  - unfold Re.assemble. cbn. by rewrite app_nil_r.
  - destruct skip as [|n]; [|apply IH].
    destruct (Re.match_len r (c :: s)) as [[|n]|].
    + rewrite (IH 0 (c :: gap)), (IH 0 [c]). cbn [rev app].
      by rewrite <- !app_assoc.
    + destruct (Re.scan r s n []) as [ms last]. unfold Re.assemble.
      cbn [fst snd map concat rev app]. by rewrite <- !app_assoc.
    + rewrite (IH 0 (c :: gap)), (IH 0 [c]). cbn [rev app].
      by rewrite <- !app_assoc.
Qed.

Lemma fix_ampersands_cons (c : char) (d : str) :
  fix_ampersands (c :: d)
  = if (c =? ch "&")%N && negb (known_entity d)
    then u "&amp;" ++ fix_ampersands d
    else c :: fix_ampersands d.
Proof.
  unfold fix_ampersands, Re.sub. cbn [Re.scan]. rewrite match_len_bare.
  destruct ((c =? ch "&")%N && negb (known_entity d)).
  - destruct (Re.scan bare_ampersand d 0 []) as [ms last].
    unfold Re.assemble. cbn [fst snd map concat rev app take].
    by rewrite <- app_assoc.
  - by rewrite scan_gap.
Qed.

Lemma escaped_starts_with (p d d' : str) :
  ch "&" ∉ p → escaped d d' → starts_with p d = starts_with p d'.
Proof.
  intros Hp Hesc. revert p Hp.
  induction Hesc as [|c d d' _ IH|d d' _ _ _]; intros p Hp; [done|..].
  - destruct p as [|a p]; [done|]. cbn [starts_with]. rewrite (IH p); [done|].
    intros Hin. apply Hp. by right.
  - destruct p as [|a p]; [done|].
    change (u "&amp;" ++ d') with (ch "&" :: u "amp;" ++ d').
    cbn [starts_with].
    destruct (N.eqb_spec a (ch "&")) as [-> | Hne]; [|done].
    exfalso. apply Hp. by left.
Qed.

Lemma escaped_known_entity (d d' : str) :
  escaped d d' → known_entity d = known_entity d'.
Proof.
  intros H. unfold known_entity.
  assert (Hfree : ∀ p, existsb (N.eqb (ch "&")) p = false → ch "&" ∉ p).
  { intros p Hp Hin. apply not_true_iff_false in Hp. apply Hp.
    apply existsb_exists. exists (ch "&"). split; [by apply list_elem_of_In|].
    apply N.eqb_refl. }
  by rewrite !(escaped_starts_with _ d d') by (done || by apply Hfree).
Qed.

Lemma fix_ampersands_escaped (d d' : str) :
  escaped d d' → fix_ampersands d = fix_ampersands d'.
Proof.
  induction 1 as [|c d d' Hesc IH|d d' Hbare Hesc IH]; [done|..].
  - by rewrite !fix_ampersands_cons, (escaped_known_entity d d' Hesc), IH.
  - rewrite fix_ampersands_cons, Hbare, N.eqb_refl. cbn [andb negb].
    change (u "&amp;" ++ d') with (ch "&" :: ch "a" :: ch "m" :: ch "p" :: ch ";" :: d').
    rewrite !fix_ampersands_cons. cbn. by rewrite IH.
Qed.

Lemma escaped_fix_ampersands (d : str) : escaped d (fix_ampersands d).
Proof.
  induction d as [|c d IH]; [constructor|].
  rewrite fix_ampersands_cons.
  destruct (N.eqb_spec c (ch "&")) as [-> | Hne]; cbn [andb];
    [|by constructor].
  destruct (known_entity d) eqn:E; cbn [negb]; by constructor.
Qed.

(** C9. [parse_opml] always returns: without a catalog file it leaves the
    feeds as they are (none, after [init]) and reports that, and when the
    file cannot be read or parsed, even after the pre-pass on ampersands,
    it leaves the feeds as they are and reports the error. A document [d]
    with bare ampersands yields what the document [d'] yields in which
    ampersands of [d] that begin none of the five entity references are
    written [&amp;]. *)
Theorem parse_opml_resilient (L : Libs) (W : World) (self : Processor)
  (sys : Sys) (path d d' : str) :
  escaped d d' →
  parse_opml L (with_file W path (Content d)) self sys
  = parse_opml L (with_file W path (Content d')) self sys
  ∧ fix_ampersands d = fix_ampersands d'
  ∧ escaped d (fix_ampersands d)
  ∧ match opml_file self with
    | None => parse_opml L W self sys = (self, print EvNoOpml sys)
    | Some p =>
        if truthy p then
          match files W p with
          | Missing => parse_opml L W self sys = (self, print EvNoOpml sys)
          | Unreadable => parse_opml L W self sys = (self, print EvOpmlError sys)
          | Content text =>
              match et_fromstring L (fix_ampersands text) with
              | None => parse_opml L W self sys = (self, print EvOpmlError sys)
              | Some root =>
                  feeds (parse_opml L W self sys).1
                  = outline_loop (outlines root) (feeds self)
                  ∧ (parse_opml L W self sys).2
                    = print (EvFeedsLoaded
                               (length (feeds (parse_opml L W self sys).1))) sys
              end
          end
        else parse_opml L W self sys = (self, print EvNoOpml sys)
    end
  ∧ feeds (init (opml_file self) (output_dir self) (keywords self)
             (days_back self) sys).1 = [].
Proof.
  intros Hesc. pose proof (fix_ampersands_escaped d d' Hesc) as Hfix.
  split; [|split; [done|split; [apply escaped_fix_ampersands|split]]].
  - unfold parse_opml. destruct (opml_file self) as [p|]; [|done].
    destruct (negb (truthy p)); [done|]. cbn [with_file files].
    destruct (str_eqb p path); [|done]. by rewrite Hfix.
  - unfold parse_opml. destruct (opml_file self) as [p|]; [|done].
    destruct (truthy p); cbn [negb]; [|done].
    destruct (files W p); try done.
    by destruct (et_fromstring L _).
  - unfold init. by destruct (load_history _ sys).
Qed.

Lemma parse_opml_resilient_witness :
  parse_opml Sample.libs
    (with_file Sample.first_run (u "Reader_Feeds.opml") (Content Sample.catalog))
    (Sample.processor [] 3 [] []) Sample.sys0
  = parse_opml Sample.libs
      (with_file Sample.first_run (u "Reader_Feeds.opml")
         (Content Sample.catalog_escaped))
      (Sample.processor [] 3 [] []) Sample.sys0
  ∧ fix_ampersands Sample.catalog = Sample.catalog_escaped.
Proof.
  assert (Hfix : fix_ampersands Sample.catalog = Sample.catalog_escaped)
    by (vm_compute; reflexivity).
  split; [|exact Hfix].
  apply (parse_opml_resilient Sample.libs Sample.first_run
           (Sample.processor [] 3 [] []) Sample.sys0 (u "Reader_Feeds.opml")
           Sample.catalog Sample.catalog_escaped).
  rewrite <- Hfix. apply escaped_fix_ampersands.
Defined.

(** * Further properties *)

(** ** The history file *)

Section History.
Context (L : Libs) (W : World).

Lemma process_entry_history (feed : Feed) (st : LoopState) (entry : Entry) :
  history_files (process_entry L W feed st entry).1.2 = history_files st.1.2.
Proof.
  destruct st as [[self sys] items]. rewrite process_entry_eq. cbv zeta.
  destruct (is_recent_sys L W self entry sys) as [-> | ->];
    by destruct (transition _ _ _ _).
Qed.

Lemma fold_entries_history (feed : Feed) (entries : list Entry) (st : LoopState) :
  history_files (fold_left (process_entry L W feed) entries st).1.2
  = history_files st.1.2.
Proof.
  revert st. induction entries as [|e es IH]; intros st; cbn [fold_left]; [done|].
  by rewrite IH, process_entry_history.
Qed.

Lemma fold_feeds_history (fs : list Feed) (st : LoopState) :
  history_files (fold_left (process_feed L W) fs st).1.2 = history_files st.1.2.
Proof.
  revert st. induction fs as [|f fs IH]; intros st; cbn [fold_left]; [done|].
  rewrite IH. destruct st as [[self sys] items]. unfold process_feed.
  destruct (negb (str_eqb (feed_type f) (u "rss"))); [done|].
  destruct (feedparser_parse W (feed_url f)); [|done].
  by rewrite fold_entries_history.
Qed.
End History.

(** X1. What a run saves is what the next run loads: after
    [process_all_sources], a new processor with the same output directory
    starts from the ledger of the finished run when the history could be
    saved. When the save failed with the file open, the file is emptied
    and the new processor starts from an empty ledger; when it failed
    before, from what the history file held before the run (the run
    changes the file only by saving). *)
Theorem history_round_trip (L : Libs) (W : World) (self : Processor)
  (sys : Sys) (opml : option str) (kws : list str) (days : Z) :
  processed_items
    (init opml (output_dir self) kws days
       (process_all_sources L W self sys).1.2).1
  = if history_writable W
    then processed_items (process_all_sources L W self sys).1.1
    else if history_truncated W then []
    else (load_history (history_path (output_dir self)) sys).1.
Proof.
  rewrite process_all_sources_eq. cbv zeta. unfold init, save_history.
  pose proof (fold_feeds_history L W (feeds self) (self, print EvStarting sys, []))
    as Hfile.
  fold (process_rss_feeds L W self (print EvStarting sys)) in Hfile.
  assert (Hout : output_dir (process_rss_feeds L W self (print EvStarting sys)).1.1
                 = output_dir self).
  { unfold process_rss_feeds.
    destruct (fold_feeds_self L W (feeds self) (self, print EvStarting sys, []))
      as [d Hself].
    by rewrite Hself. }
  cbn [fst snd print history_files] in Hfile.
  cbn [fst snd set_results output_dir processed_items]. rewrite Hout.
  destruct (history_writable W); [|destruct (history_truncated W)];
    unfold load_history at 1;
    cbn [print set_history_file history_files fst snd];
    rewrite ?str_eqb_refl; cbn [fst]; try reflexivity.
  rewrite Hfile. unfold load_history.
  by destruct (history_files sys _) as [[|d']|].
Qed.

(** ** The recency filter, over time and lookback *)

Lemma recent_at_lookback (L : Libs) (W : World) (d1 d2 : Z) (entry : Entry)
  (n : nat) :
  (0 ≤ d1)%Z → (d1 ≤ d2)%Z → (now_utc W n ≤ datetime_max)%Z →
  recent_at L W d1 entry n = true → recent_at L W d2 entry n = true.
Proof.
  intros H0 Hle Hmax. unfold recent_at. set (now := now_utc W n) in *.
  destruct (date_str_of entry) as [s|]; [|done].
  destruct (truthy s); [|done].
  destruct (dateutil_parse L (today W n) s) as [d|]; [|done].
  unfold timedelta_days, datetime_sub.
  assert (Hday : (0 < day_us)%Z) by (unfold day_us; lia).
  destruct (Z.leb_spec (Z.abs d2) 999999999) as [Ha2 | Ha2]; [|done].
  destruct (Z.leb_spec (Z.abs d1) 999999999) as [Ha1 | Ha1]; [|lia].
  destruct (Z.leb_spec datetime_min (now - d2 * day_us)) as [H3 | H3];
    [|done].
  destruct (Z.leb_spec (now - d2 * day_us) datetime_max) as [H4 | H4];
    [|done].
  destruct (Z.leb_spec datetime_min (now - d1 * day_us)) as [H1 | H1];
    [|nia].
  destruct (Z.leb_spec (now - d1 * day_us) datetime_max) as [H2 | H2];
    [|nia].
  cbn [andb]. rewrite !Z.leb_le. nia.
Qed.

(** X2. An entry that the recency filter rejects stays rejected at every
    later time, if its date stamp is read then as before (the parser fills
    what a stamp does not name from the day of the run): with a lookback of
    at least 0 days, if [is_recent] answers false in one run it answers
    false in any later run in which the stamp parses to the same date. *)
Theorem stale_stays_stale (L : Libs) (W1 W2 : World) (self : Processor)
  (entry : Entry) (sys1 sys2 : Sys) :
  (0 ≤ days_back self)%Z → later W1 W2 → same_date L W1 W2 entry →
  (is_recent L W1 self entry sys1).1 = false →
  (is_recent L W2 self entry sys2).1 = false.
Proof.
  intros Hdays [Hlater Hmax] Hsame. rewrite !is_recent_at.
  apply recent_at_mono; [done | apply Hlater | apply Hmax | done].
Qed.

Lemma stale_stays_stale_witness :
  (is_recent Sample.libs_dated
     (Sample.world (Sample.new_year_2024 + 5 * day_us) [])
     (Sample.processor [] 3 [] [])
     (Sample.entry None [] (Some (u "2024-01-01T00:00:00"))) Sample.sys0).1
  = false.
Proof.
  apply (stale_stays_stale Sample.libs_dated
           (Sample.world (Sample.new_year_2024 + 4 * day_us) [])
           (Sample.world (Sample.new_year_2024 + 5 * day_us) [])
           (Sample.processor [] 3 [] [])
           (Sample.entry None [] (Some (u "2024-01-01T00:00:00")))
           Sample.sys0 Sample.sys0).
  - vm_compute. discriminate.
  - split; intros; vm_compute; discriminate.
  - intros s n1 n2 _. reflexivity.
  - vm_compute. reflexivity.
Defined.

(** X3. A longer lookback admits at least the same entries: at the same
    reading of the clock, an entry that is recent for [days_back = d1] is
    recent for every [d2 >= d1 >= 0]. *)
Theorem longer_lookback_admits_more (L : Libs) (W : World)
  (self1 self2 : Processor) (entry : Entry) (sys : Sys) :
  (0 ≤ days_back self1)%Z → (days_back self1 ≤ days_back self2)%Z →
  (now_utc W (ticks sys) ≤ datetime_max)%Z →
  (is_recent L W self1 entry sys).1 = true →
  (is_recent L W self2 entry sys).1 = true.
Proof.
  intros H0 Hle Hmax. rewrite !is_recent_at. by apply recent_at_lookback.
Qed.

Lemma longer_lookback_admits_more_witness :
  (is_recent Sample.libs_dated
     (Sample.world (Sample.new_year_2024 + 2 * day_us) [])
     (Sample.processor [] 7 [] [])
     (Sample.entry None [] (Some (u "2024-01-01T00:00:00"))) Sample.sys0).1
  = true.
Proof.
  apply (longer_lookback_admits_more Sample.libs_dated
           (Sample.world (Sample.new_year_2024 + 2 * day_us) [])
           (Sample.processor [] 3 [] []) (Sample.processor [] 7 [] [])).
  - vm_compute. discriminate.
  - vm_compute. discriminate.
  - vm_compute. discriminate.
  - vm_compute. reflexivity.
Defined.

(** ** Entities: bounds and provenance *)

Lemma scan_matches_substrings (r : Re.re) (s : str) (skip : nat) (gap x : str) :
  x ∈ map snd (Re.scan r s skip gap).1 → is_substring x s ∧ x ≠ [].
Proof.
  revert skip gap. induction s as [|c s IH]; intros skip gap; cbn [Re.scan].
  - intros H. by apply elem_of_nil in H.
  - assert (Hlift : ∀ y, is_substring y s → is_substring y (c :: s)).
    { intros y (a & b & ->). by exists (c :: a), b. }
    destruct skip as [|n].
    + destruct (Re.match_len r (c :: s)) as [[|n]|].
      * intros H. apply IH in H as [H1 H2]. split; [by apply Hlift | done].
      * destruct (Re.scan r s n []) as [ms last] eqn:E.
        cbn [fst snd map]. intros H. apply elem_of_cons in H as [-> | H].
        -- split; [|done]. exists [], (drop (S n) (c :: s)).
           cbn [app]. by rewrite take_drop.
        -- assert (H' : x ∈ map snd (Re.scan r s n []).1) by by rewrite E.
           apply IH in H' as [H1 H2]. split; [by apply Hlift | done].
      * intros H. apply IH in H as [H1 H2]. split; [by apply Hlift | done].
    + intros H. apply IH in H as [H1 H2]. split; [by apply Hlift | done].
Qed.

Lemma findall_substrings (r : Re.re) (s x : str) :
  x ∈ Re.findall r s → is_substring x s ∧ x ≠ [].
Proof. apply scan_matches_substrings. Qed.

Lemma dedup5_spec (L : Libs) (l : list str) :
  set_order_ok L →
  length (dedup5 L l) ≤ 5 ∧ NoDup (dedup5 L l) ∧ ∀ x, x ∈ dedup5 L l → x ∈ l.
Proof.
  intros H. destruct (H l) as [Hnd Hin]. unfold dedup5.
  split; [rewrite length_take; lia|]. split.
  - apply (sublist_NoDup _ _ Hnd), sublist_take.
  - intros x Hx. apply Hin. by apply (subseteq_take 5).
Qed.

(** X4. Whatever the text, every category of [extract_entities] has at
    most 5 entries and no duplicate, and [people] is empty. *)
Theorem extract_entities_bounded (L : Libs) (text : str) :
  set_order_ok L →
  let e := extract_entities L text in
  (length (companies e) ≤ 5 ∧ NoDup (companies e))
  ∧ (length (agencies e) ≤ 5 ∧ NoDup (agencies e))
  ∧ (length (amounts e) ≤ 5 ∧ NoDup (amounts e))
  ∧ people e = [].
Proof.
  intros H. cbv zeta. unfold extract_entities.
  cbn [companies agencies amounts people].
  repeat split; try (by apply dedup5_spec).
  destruct (dedup5_spec L [] H) as (_ & _ & Hin).
  destruct (dedup5 L []) as [|x l]; [done|].
  exfalso. apply (elem_of_nil x). apply Hin. by left.
Qed.

Lemma extract_entities_bounded_witness :
  length (amounts (extract_entities Sample.libs
    (u "$1 $2 $3 $4 $5 $6 $1 and the FBI"))) ≤ 5.
Proof.
  apply (extract_entities_bounded Sample.libs
           (u "$1 $2 $3 $4 $5 $6 $1 and the FBI") sample_set_order_ok).
Defined.

(** X5. Every amount and every agency that [extract_entities] reports is
    a non-empty piece of the text, verbatim. *)
Theorem extract_entities_verbatim (L : Libs) (text x : str) :
  set_order_ok L →
  x ∈ amounts (extract_entities L text) ∨ x ∈ agencies (extract_entities L text) →
  is_substring x text ∧ x ≠ [].
Proof.
  intros H. unfold extract_entities. cbn [amounts agencies].
  intros [Hx | Hx]; apply (dedup5_spec L _ H) in Hx.
  - apply (subseteq_take 5) in Hx. by apply findall_substrings in Hx.
  - apply list_elem_of_In, in_flat_map in Hx as (pattern & _ & Hx).
    apply list_elem_of_In in Hx. by apply findall_substrings in Hx.
Qed.

Lemma extract_entities_verbatim_witness :
  is_substring (u "Department of Justice")
    (u "Acme Technologies was fined $1.5 million by the Department of Justice")
  ∧ u "Department of Justice" ≠ [].
Proof.
  apply (extract_entities_verbatim Sample.libs _ _ sample_set_order_ok).
  right. vm_compute. by left.
Defined.

(** ** The items of a run *)

Lemma list_filter_sublist {A} (f : A → bool) (l : list A) :
  List.filter f l `sublist_of` l.
Proof.
  induction l as [|x l IH]; cbn [List.filter]; [constructor|].
  destruct (f x); by constructor.
Qed.

Lemma contains_keywords_some (L : Libs) (self : Processor) (text : str) :
  (contains_keywords L self text).1 = true →
  keywords self = [] ∨ (contains_keywords L self text).2 ≠ [].
Proof.
  unfold contains_keywords. destruct (keywords self) as [|k ks]; [by left|].
  cbn [fst snd]. intros H. right. intros E. rewrite E in H. done.
Qed.

Section Items.
Context (L : Libs) (W : World).

Lemma process_entry_items_ok (self0 : Processor) (feed : Feed)
  (st : LoopState) (entry : Entry) :
  feed ∈ feeds self0 → feed_type feed = u "rss" →
  keywords st.1.1 = keywords self0 →
  Forall (item_ok self0) st.2 →
  Forall (item_ok self0) (process_entry L W feed st entry).2.
Proof.
  destruct st as [[self sys] items]. cbn [fst snd]. intros Hin Hrss Hk Hok.
  rewrite process_entry_eq. cbv zeta.
  pose proof (transition_accepted (processed_items self) (entry_url entry)
    (fst (is_recent L W self entry sys))
    (fst (contains_keywords L self (entry_text L entry)))) as Hacc.
  destruct (transition _ _ _ _); try done.
  destruct (proj1 Hacc eq_refl) as (Hurl & _ & _ & Hmatch).
  cbn [snd]. apply Forall_app. split; [done|]. apply Forall_singleton.
  unfold item_ok, make_item.
  cbn [item_id item_url item_source_type item_source item_keywords].
  repeat split; try done.
  - by exists feed.
  - rewrite <- Hk, contains_keywords_matched. apply list_filter_sublist.
  - rewrite <- Hk. by apply contains_keywords_some.
Qed.

Lemma fold_entries_items_ok (self0 : Processor) (feed : Feed)
  (entries : list Entry) (st : LoopState) :
  feed ∈ feeds self0 → feed_type feed = u "rss" →
  keywords st.1.1 = keywords self0 →
  Forall (item_ok self0) st.2 →
  Forall (item_ok self0) (fold_left (process_entry L W feed) entries st).2.
Proof.
  intros Hin Hrss. revert st.
  induction entries as [|e es IH]; intros st Hk Hok; cbn [fold_left]; [done|].
  apply IH.
  - pose proof (process_entry_extends L W feed st st e (extends_refl st)) as H.
    apply extends_config in H as (H & _). by rewrite H.
  - by apply process_entry_items_ok.
Qed.

Lemma fold_feeds_items_ok (self0 : Processor) (fs : list Feed) (st : LoopState) :
  (∀ f, f ∈ fs → f ∈ feeds self0) →
  keywords st.1.1 = keywords self0 →
  Forall (item_ok self0) st.2 →
  Forall (item_ok self0) (fold_left (process_feed L W) fs st).2.
Proof.
  revert st. induction fs as [|f fs IH]; intros st Hsub Hk Hok;
    cbn [fold_left]; [done|].
  apply IH.
  - intros f' Hf'. apply Hsub. by right.
  - pose proof (process_feed_extends L W st st f (extends_refl st)) as H.
    apply extends_config in H as (H & _). by rewrite H.
  - destruct st as [[self sys] items]. unfold process_feed.
    destruct (str_eqb (feed_type f) (u "rss")) eqn:E; cbn [negb]; [|done].
    apply str_eqb_eq in E.
    destruct (feedparser_parse W (feed_url f)); [|done].
    apply fold_entries_items_ok; try done. apply Hsub. by left.
Qed.
End Items.

(** X6. Every item that [process_rss_feeds] returns has a non-empty
    identifier, which is also its address; its source type is "rss" and
    its source is the title of an RSS feed of the catalog; its keywords
    are configured keywords in configured order, at least one unless no
    keyword is configured. *)
Theorem items_well_formed (L : Libs) (W : World) (self : Processor) (sys : Sys) :
  Forall (item_ok self) (process_rss_feeds L W self sys).2.
Proof.
  unfold process_rss_feeds. by apply fold_feeds_items_ok.
Qed.

(** ** The ledger of a run *)

Lemma dict_set_fresh {V} (d : dict V) (k : str) (v : V) :
  dict_mem d k = false → dict_set d k v = d ++ [(k, v)].
Proof.
  unfold dict_mem. induction d as [|[k0 v0] d IH]; cbn [dict_set dict_get app];
    [done|].
  destruct (str_eqb k0 k); [done|]. intros H. by rewrite IH.
Qed.

Section Ledger.
Context (L : Libs) (W : World).

Lemma process_entry_appends (st : LoopState) (feed : Feed) (entry : Entry) :
  ∃ added new,
    processed_items (process_entry L W feed st entry).1.1
    = processed_items st.1.1 ++ added
    ∧ (process_entry L W feed st entry).2 = st.2 ++ new
    ∧ map fst added = map item_id new
    ∧ Forall (fun kv => ∃ stamp, kv.2 = VStr stamp) added.
Proof.
  destruct st as [[self sys] items]. rewrite process_entry_eq. cbv zeta.
  pose proof (transition_accepted (processed_items self) (entry_url entry)
    (fst (is_recent L W self entry sys))
    (fst (contains_keywords L self (entry_text L entry)))) as Hacc.
  destruct (transition _ _ _ _);
    try (exists [], []; cbn [fst snd]; rewrite !app_nil_r;
         repeat split; try done; apply Forall_nil_2).
  destruct (proj1 Hacc eq_refl) as (_ & Hfresh & _ & _).
  eexists [_], [_]. cbn [fst snd set_processed_items processed_items].
  rewrite (dict_set_fresh _ _ _ Hfresh). repeat split.
  apply Forall_singleton. by eexists.
Qed.

Lemma fold_entries_appends (feed : Feed) (entries : list Entry) (st : LoopState) :
  ∃ added new,
    processed_items (fold_left (process_entry L W feed) entries st).1.1
    = processed_items st.1.1 ++ added
    ∧ (fold_left (process_entry L W feed) entries st).2 = st.2 ++ new
    ∧ map fst added = map item_id new
    ∧ Forall (fun kv => ∃ stamp, kv.2 = VStr stamp) added.
Proof.
  revert st. induction entries as [|e es IH]; intros st; cbn [fold_left].
  - exists [], []. rewrite !app_nil_r. repeat split. apply Forall_nil_2.
  - destruct (IH (process_entry L W feed st e)) as (a2 & n2 & H1 & H2 & H3 & H4).
    destruct (process_entry_appends st feed e) as (a1 & n1 & G1 & G2 & G3 & G4).
    exists (a1 ++ a2), (n1 ++ n2). rewrite H1, H2, G1, G2, !app_assoc, !map_app.
    repeat split; [by rewrite H3, G3 | by apply Forall_app].
Qed.

Lemma fold_feeds_appends (fs : list Feed) (st : LoopState) :
  ∃ added new,
    processed_items (fold_left (process_feed L W) fs st).1.1
    = processed_items st.1.1 ++ added
    ∧ (fold_left (process_feed L W) fs st).2 = st.2 ++ new
    ∧ map fst added = map item_id new
    ∧ Forall (fun kv => ∃ stamp, kv.2 = VStr stamp) added.
Proof.
  revert st. induction fs as [|f fs IH]; intros st; cbn [fold_left].
  - exists [], []. rewrite !app_nil_r. repeat split. apply Forall_nil_2.
  - destruct (IH (process_feed L W st f)) as (a2 & n2 & H1 & H2 & H3 & H4).
    assert (∃ a1 n1,
      processed_items (process_feed L W st f).1.1 = processed_items st.1.1 ++ a1
      ∧ (process_feed L W st f).2 = st.2 ++ n1
      ∧ map fst a1 = map item_id n1
      ∧ Forall (fun kv => ∃ stamp, kv.2 = VStr stamp) a1)
      as (a1 & n1 & G1 & G2 & G3 & G4).
    { destruct st as [[self sys] items]. unfold process_feed.
      destruct (negb (str_eqb (feed_type f) (u "rss")));
        [exists [], []; cbn [fst snd]; rewrite !app_nil_r; repeat split;
         apply Forall_nil_2|].
      destruct (feedparser_parse W (feed_url f));
        [|exists [], []; cbn [fst snd]; rewrite !app_nil_r; repeat split;
          apply Forall_nil_2].
      apply (fold_entries_appends f _
               (self, print (EvProcessing (feed_title f)) sys, items)). }
    exists (a1 ++ a2), (n1 ++ n2). rewrite H1, H2, G1, G2, !app_assoc, !map_app.
    repeat split; [by rewrite H3, G3 | by apply Forall_app].
Qed.
End Ledger.

(** X7. A run only appends to the ledger: the entries it held keep their
    place and their timestamp, and behind them comes one entry for each
    item of the run, in the order of the items, keyed by the identifier
    of the item and holding a timestamp string. *)
Theorem ledger_append_only (L : Libs) (W : World) (self : Processor) (sys : Sys) :
  ∃ added,
    processed_items (process_rss_feeds L W self sys).1.1
    = processed_items self ++ added
    ∧ map fst added = map item_id (process_rss_feeds L W self sys).2
    ∧ Forall (fun kv => ∃ stamp, kv.2 = VStr stamp) added.
Proof.
  destruct (fold_feeds_appends L W (feeds self) (self, sys, []))
    as (added & new & H1 & H2 & H3 & H4).
  exists added. unfold process_rss_feeds. rewrite H1, H2. by repeat split.
Qed.

(** ** The results of a run *)

Lemma dict_get_set_same {V} (d : dict V) (k : str) (v : V) :
  dict_get (dict_set d k v) k = Some v.
Proof.
  induction d as [|[k0 v0] d IH]; cbn [dict_set dict_get].
  - by rewrite str_eqb_refl.
  - destruct (str_eqb k0 k) eqn:E; cbn [dict_get]; by rewrite E.
Qed.

Lemma dict_get_set_other {V} (d : dict V) (k k' : str) (v : V) :
  k ≠ k' → dict_get (dict_set d k v) k' = dict_get d k'.
Proof.
  intros Hne. induction d as [|[k0 v0] d IH]; cbn [dict_set dict_get].
  - by rewrite (proj2 (str_eqb_neq k k') Hne).
  - destruct (str_eqb k0 k) eqn:E; cbn [dict_get].
    + apply str_eqb_eq in E. subst k0.
      by rewrite (proj2 (str_eqb_neq k k') Hne).
    + by rewrite IH.
Qed.

Lemma store_items_other (items : list Item) (r : dict Item) (k : str) :
  k ∉ map item_id items →
  dict_get (fold_left (fun r item => dict_set r (item_id item) item) items r) k
  = dict_get r k.
Proof.
  revert r. induction items as [|a items IH]; intros r Hk; cbn [fold_left];
    [done|].
  rewrite IH.
  - apply dict_get_set_other. intros Heq. apply Hk. subst k. by left.
  - intros H. apply Hk. by right.
Qed.

Lemma store_items_lookup (items : list Item) (r : dict Item) (item : Item) :
  NoDup (map item_id items) → item ∈ items →
  dict_get (fold_left (fun r item => dict_set r (item_id item) item) items r)
    (item_id item) = Some item.
Proof.
  revert r. induction items as [|a items IH]; intros r Hnd Hin.
  - by apply elem_of_nil in Hin.
  - cbn [fold_left]. cbn [map] in Hnd. apply NoDup_cons in Hnd as [Ha Hnd].
    apply elem_of_cons in Hin as [Heq | Hin].
    + subst a. rewrite (store_items_other items _ (item_id item) Ha).
      apply dict_get_set_same.
    + by apply IH.
Qed.

(** X8. After [process_all_sources], each item of the run is found in
    [self.results] under its identifier, an identifier of no item of the
    run keeps what [results] held for it, and the number returned is the
    number of items of the run. *)
Theorem results_hold_the_items (L : Libs) (W : World) (self : Processor)
  (sys : Sys) :
  let run := process_rss_feeds L W self (print EvStarting sys) in
  let done := process_all_sources L W self sys in
  Forall (fun item => dict_get (results done.1.1) (item_id item) = Some item)
    run.2
  ∧ (∀ k, k ∉ map item_id run.2 →
          dict_get (results done.1.1) k = dict_get (results self) k)
  ∧ done.2 = length run.2.
Proof.
  cbv zeta. rewrite process_all_sources_eq. cbv zeta.
  cbn [fst snd set_results results].
  pose proof (fold_feeds_extends L W (feeds self) _ _
    (extends_refl (self, print EvStarting sys, []))) as Hext.
  fold (process_rss_feeds L W self (print EvStarting sys)) in Hext.
  destruct (fold_feeds_self L W (feeds self) (self, print EvStarting sys, []))
    as [d Hd].
  fold (process_rss_feeds L W self (print EvStarting sys)) in Hd.
  destruct (process_rss_feeds L W self (print EvStarting sys))
    as [[self1 sys1] items1].
  cbn [fst snd] in *. subst self1.
  destruct Hext as (_ & _ & _ & _ & new & Hnew & Hnd & _).
  cbn [app] in Hnew. subst new.
  cbn [set_processed_items results]. split; [|split; [|done]].
  - apply Forall_forall. intros item Hin. by apply store_items_lookup.
  - intros k Hk. by apply store_items_other.
Qed.

(** ** What a run does not depend on *)

Lemma set_feeds_nil_eq (p q : Processor) :
  set_feeds p [] = set_feeds q [] →
  keywords p = keywords q ∧ days_back p = days_back q
  ∧ processed_items p = processed_items q.
Proof. destruct p, q. cbn. intros H. by injection H. Qed.

Lemma set_feeds_nil_inj (p q : Processor) :
  set_feeds p [] = set_feeds q [] → feeds p = feeds q → p = q.
Proof. destruct p, q. cbn. intros H ->. by injection H as -> -> -> -> -> ->. Qed.

Section Agree.
Context (L : Libs) (W : World).

Lemma agree_refl (st : LoopState) : agree st st.
Proof. by repeat split. Qed.

Lemma is_recent_agree (self1 self2 : Processor) (entry : Entry) (s1 s2 : Sys) :
  days_back self1 = days_back self2 → ticks s1 = ticks s2 →
  (is_recent L W self1 entry s1).1 = (is_recent L W self2 entry s2).1
  ∧ ticks (is_recent L W self1 entry s1).2 = ticks (is_recent L W self2 entry s2).2.
Proof.
  intros Hd Ht. unfold is_recent. rewrite Hd, Ht.
  destruct (e_published entry) as [s|]; [|destruct (e_updated entry) as [s|]];
    try done;
    destruct (truthy s); try done;
    destruct (dateutil_parse L _ s); try done;
    destruct (timedelta_days (days_back self2)); cbn [fst snd tick ticks];
    try (by rewrite Ht);
    destruct (datetime_sub _ _); cbn [fst snd tick ticks]; by rewrite Ht.
Qed.

Lemma process_entry_agree (feed : Feed) (st1 st2 : LoopState) (entry : Entry) :
  agree st1 st2 →
  agree (process_entry L W feed st1 entry) (process_entry L W feed st2 entry).
Proof.
  destruct st1 as [[self1 sys1] items1], st2 as [[self2 sys2] items2].
  intros (Hself & Hitems & Hticks). cbn [fst snd] in *. subst items2.
  destruct (set_feeds_nil_eq _ _ Hself) as (Hk & Hd & Hl).
  rewrite !process_entry_eq. cbv zeta.
  destruct (is_recent_agree self1 self2 entry sys1 sys2 Hd Hticks) as [Hr Ht].
  rewrite Hr, Hl, (contains_keywords_config L self1 self2 _ Hk).
  destruct (transition _ _ _ _); try (by repeat split).
  repeat split; cbn [fst snd tick ticks]; [| |by rewrite Ht].
  - rewrite Ht.
    change (set_processed_items (set_feeds self1 []) (dict_set
              (processed_items self2) (entry_url entry)
              (VStr (now_isoformat W (ticks (is_recent L W self2 entry sys2).2))))
            = set_processed_items (set_feeds self2 []) (dict_set
              (processed_items self2) (entry_url entry)
              (VStr (now_isoformat W (ticks (is_recent L W self2 entry sys2).2))))).
    by rewrite Hself.
  - unfold make_item. by rewrite (contains_keywords_config L self1 self2 _ Hk).
Qed.

Lemma fold_entries_agree (feed : Feed) (entries : list Entry)
  (st1 st2 : LoopState) :
  agree st1 st2 →
  agree (fold_left (process_entry L W feed) entries st1)
        (fold_left (process_entry L W feed) entries st2).
Proof.
  revert st1 st2. induction entries as [|e es IH]; intros st1 st2 H;
    cbn [fold_left]; [done|].
  by apply IH, process_entry_agree.
Qed.

Lemma process_feed_agree (st1 st2 : LoopState) (feed : Feed) :
  agree st1 st2 → agree (process_feed L W st1 feed) (process_feed L W st2 feed).
Proof.
  destruct st1 as [[self1 sys1] items1], st2 as [[self2 sys2] items2].
  intros H. unfold process_feed.
  destruct (negb (str_eqb (feed_type feed) (u "rss"))); [done|].
  destruct (feedparser_parse W (feed_url feed)); [|done].
  by apply fold_entries_agree.
Qed.

Lemma fold_feeds_agree (fs : list Feed) (st1 st2 : LoopState) :
  agree st1 st2 →
  agree (fold_left (process_feed L W) fs st1) (fold_left (process_feed L W) fs st2).
Proof.
  revert st1 st2. induction fs as [|f fs IH]; intros st1 st2 H;
    cbn [fold_left]; [done|].
  by apply IH, process_feed_agree.
Qed.

Lemma process_feed_down (st : LoopState) (feed : Feed) :
  feed_type feed ≠ u "rss" ∨ feedparser_parse W (feed_url feed) = None →
  agree (process_feed L W st feed) st.
Proof.
  destruct st as [[self sys] items]. unfold process_feed. intros [H | H].
  - apply str_eqb_neq in H. by rewrite H.
  - rewrite H. by destruct (negb _).
Qed.
End Agree.

(** X9. One feed's failure does not touch the others: a feed whose type
    is not "rss", or whose fetch raises, contributes no item and no ledger
    entry, and the items and the ledger of the run are those of the run
    over the catalog without that feed. *)
Theorem failed_feed_is_isolated (L : Libs) (W : World) (self : Processor)
  (sys : Sys) (fs1 fs2 : list Feed) (bad : Feed) :
  feed_type bad ≠ u "rss" ∨ feedparser_parse W (feed_url bad) = None →
  (process_rss_feeds L W (set_feeds self (fs1 ++ bad :: fs2)) sys).2
  = (process_rss_feeds L W (set_feeds self (fs1 ++ fs2)) sys).2
  ∧ processed_items
      (process_rss_feeds L W (set_feeds self (fs1 ++ bad :: fs2)) sys).1.1
    = processed_items
        (process_rss_feeds L W (set_feeds self (fs1 ++ fs2)) sys).1.1.
Proof.
  intros Hbad. unfold process_rss_feeds. cbn [set_feeds feeds].
  rewrite !fold_left_app. cbn [fold_left].
  assert (H : agree
    (fold_left (process_feed L W) fs2
       (process_feed L W
          (fold_left (process_feed L W) fs1
             (set_feeds self (fs1 ++ bad :: fs2), sys, [])) bad))
    (fold_left (process_feed L W) fs2
       (fold_left (process_feed L W) fs1
          (set_feeds self (fs1 ++ fs2), sys, [])))).
  { apply fold_feeds_agree.
    destruct (process_feed_down L W
      (fold_left (process_feed L W) fs1
         (set_feeds self (fs1 ++ bad :: fs2), sys, [])) bad Hbad)
      as (H1 & H2 & H3).
    assert (Hpre : agree
      (fold_left (process_feed L W) fs1
         (set_feeds self (fs1 ++ bad :: fs2), sys, []))
      (fold_left (process_feed L W) fs1 (set_feeds self (fs1 ++ fs2), sys, [])))
      by (apply fold_feeds_agree; by repeat split).
    destruct Hpre as (G1 & G2 & G3).
    repeat split; congruence. }
  destruct H as (H1 & H2 & _). split; [done|].
  by destruct (set_feeds_nil_eq _ _ H1) as (_ & _ & ?).
Qed.

Lemma failed_feed_is_isolated_witness :
  (process_rss_feeds Sample.libs_dated Sample.first_run
     (set_feeds (Sample.processor [u "data"] 3 [] [])
        ([] ++ Sample.down :: [Sample.feed])) Sample.sys0).2
  = (process_rss_feeds Sample.libs_dated Sample.first_run
       (set_feeds (Sample.processor [u "data"] 3 [] [])
          ([] ++ [Sample.feed])) Sample.sys0).2
  ∧ length (process_rss_feeds Sample.libs_dated Sample.first_run
       (set_feeds (Sample.processor [u "data"] 3 [] [])
          ([] ++ Sample.down :: [Sample.feed])) Sample.sys0).2 = 1.
Proof.
  split; [|vm_compute; reflexivity].
  apply (failed_feed_is_isolated Sample.libs_dated Sample.first_run
           (Sample.processor [u "data"] 3 [] []) Sample.sys0 []
           [Sample.feed] Sample.down).
  right. reflexivity.
Defined.

Lemma parse_opml_clock (L : Libs) (W : World) (self : Processor) (s1 s2 : Sys) :
  (parse_opml L W self s1).1 = (parse_opml L W self s2).1
  ∧ ticks (parse_opml L W self s1).2 = ticks s1
  ∧ history_files (parse_opml L W self s1).2 = history_files s1.
Proof.
  unfold parse_opml. destruct (opml_file self) as [path|]; [|done].
  destruct (negb (truthy path)); [done|].
  destruct (files W path); try done.
  by destruct (et_fromstring L _).
Qed.

Lemma process_all_sources_clock (L : Libs) (W : World) (self : Processor)
  (s1 s2 : Sys) :
  ticks s1 = ticks s2 →
  (process_all_sources L W self s1).1.1 = (process_all_sources L W self s2).1.1
  ∧ (process_all_sources L W self s1).2 = (process_all_sources L W self s2).2
  ∧ (history_writable W = true →
     (∀ path, path ≠ history_path (output_dir self) →
              history_files s1 path = history_files s2 path) →
     ∀ path,
       history_file path (process_all_sources L W self s1).1.2
       = history_file path (process_all_sources L W self s2).1.2).
Proof.
  intros Ht. rewrite !process_all_sources_eq. cbv zeta. unfold process_rss_feeds.
  assert (H : agree
    (fold_left (process_feed L W) (feeds self) (self, print EvStarting s1, []))
    (fold_left (process_feed L W) (feeds self) (self, print EvStarting s2, [])))
    by (apply fold_feeds_agree; by repeat split).
  destruct H as (H1 & H2 & H3).
  destruct (fold_feeds_self L W (feeds self) (self, print EvStarting s1, []))
    as [d1 Hd1].
  destruct (fold_feeds_self L W (feeds self) (self, print EvStarting s2, []))
    as [d2 Hd2].
  cbn [fst snd] in Hd1, Hd2.
  assert (Hp : (fold_left (process_feed L W) (feeds self)
                  (self, print EvStarting s1, [])).1.1
               = (fold_left (process_feed L W) (feeds self)
                    (self, print EvStarting s2, [])).1.1).
  { apply set_feeds_nil_inj; [done|]. by rewrite Hd1, Hd2. }
  pose proof (fold_feeds_history L W (feeds self) (self, print EvStarting s1, []))
    as Hf1.
  pose proof (fold_feeds_history L W (feeds self) (self, print EvStarting s2, []))
    as Hf2.
  cbn [fst snd print history_files] in Hf1, Hf2.
  cbn [fst snd]. rewrite Hp, H2. repeat split.
  intros Hw Hother path. unfold save_history. rewrite Hw.
  unfold history_file. cbn [print set_history_file history_files].
  rewrite Hf1, Hf2. cbn [set_results output_dir]. rewrite Hd2.
  cbn [set_processed_items output_dir].
  destruct (str_eqb path (history_path (output_dir self))) eqn:E; [done|].
  apply Hother. by apply str_eqb_neq.
Qed.

(** X10. [--reset] comes too late to change the run: the ledger is
    loaded when the processor is built, before the history file is
    removed, so the run with [--reset] ends with the same processor (its
    ledger and results included) and the same number of items as the run
    without it, and where the history file can be written it is written
    back with the same content. *)
Theorem reset_comes_too_late (L : Libs) (W : World) (args : Args) (sys : Sys) :
  match main L W (set_reset args true) sys,
        main L W (set_reset args false) sys with
  | Some with_reset, Some without =>
      with_reset.1.1 = without.1.1
      ∧ with_reset.2 = without.2
      ∧ (history_writable W = true →
         ∀ path, history_file path with_reset.1.2
                 = history_file path without.1.2)
  | None, None => True
  | _, _ => False
  end.
Proof.
  unfold main. destruct (files W (u "keywords.txt")) as [| |text]; try done.
  cbn [set_reset args_output_dir args_days_back args_reset andb].
  destruct (init _ _ _ _ sys) as [processor sys1]. cbv zeta.
  set (path0 := history_path (output_dir processor)).
  set (sys2 := if history_exists path0 sys1 then
                 if history_removable W
                 then print EvHistoryReset (set_history_file path0 None sys1)
                 else print EvHistoryResetError sys1
               else sys1).
  assert (Ht : ticks sys2 = ticks sys1).
  { unfold sys2. destruct (history_exists path0 sys1); [|done].
    by destruct (history_removable W). }
  assert (Hfiles : ∀ path, path ≠ path0 →
            history_files sys2 path = history_files sys1 path).
  { intros path Hne. apply str_eqb_neq in Hne. unfold sys2.
    destruct (history_exists path0 sys1); [|done].
    destruct (history_removable W); [|done].
    cbn [print set_history_file history_files]. by rewrite Hne. }
  destruct (parse_opml_clock L W processor sys2 sys1) as (Hp & Hc2 & Hf2).
  destruct (parse_opml_clock L W processor sys1 sys1) as (_ & Hc1 & Hf1).
  pose proof (parse_opml_config L W processor sys1) as (_ & _ & _ & Hout).
  destruct (parse_opml L W processor sys2) as [p2 s2].
  destruct (parse_opml L W processor sys1) as [p1 s1].
  cbn [fst snd] in Hp, Hc1, Hc2, Hf1, Hf2, Hout. subst p2.
  assert (Hs : ticks s2 = ticks s1) by congruence.
  pose proof (process_all_sources_clock L W p1 s2 s1 Hs) as (G1 & G2 & G3).
  destruct (process_all_sources L W p1 s2) as [[q2 t2] n2].
  destruct (process_all_sources L W p1 s1) as [[q1 t1] n1].
  cbn [fst snd] in *. repeat split; try done.
  intros Hw path.
  assert (G : history_file path t2 = history_file path t1).
  { apply (G3 Hw). intros path' Hne. rewrite Hf1, Hf2. apply Hfiles.
    unfold path0. by rewrite <- Hout. }
  by destruct (0 <? n2)%nat, (0 <? n1)%nat, (report_rendered W).
Qed.

(** ** The catalog pre-pass and the loader *)

Lemma scan_found_gap (r : Re.re) (s : str) (skip : nat) (gap : str) :
  map snd (Re.scan r s skip gap).1 = map snd (Re.scan r s skip []).1.
Proof.
  revert skip gap. induction s as [|c s IH]; intros skip gap; cbn [Re.scan];
    [done|].
  destruct skip as [|n]; [|apply IH].
  destruct (Re.match_len r (c :: s)) as [[|n]|].
  - by rewrite (IH 0 (c :: gap)), (IH 0 [c]).
  - by destruct (Re.scan r s n []) as [ms last].
  - by rewrite (IH 0 (c :: gap)), (IH 0 [c]).
Qed.

Lemma findall_bare_cons (c : char) (d : str) :
  Re.findall bare_ampersand (c :: d)
  = if (c =? ch "&")%N && negb (known_entity d)
    then [c] :: Re.findall bare_ampersand d
    else Re.findall bare_ampersand d.
Proof.
  unfold Re.findall. cbn [Re.scan]. rewrite match_len_bare.
  destruct ((c =? ch "&")%N && negb (known_entity d)).
  - by destruct (Re.scan bare_ampersand d 0 []) as [ms last].
  - by rewrite scan_found_gap.
Qed.

Lemma findall_bare_fixed (d : str) :
  Re.findall bare_ampersand (fix_ampersands d) = [].
Proof.
  induction d as [|c d IH]; [done|].
  rewrite fix_ampersands_cons.
  destruct (N.eqb_spec c (ch "&")) as [-> | Hne]; cbn [andb].
  - destruct (known_entity d) eqn:E; cbn [negb].
    + rewrite findall_bare_cons, N.eqb_refl.
      by rewrite <- (escaped_known_entity d _ (escaped_fix_ampersands d)), E.
    + change (u "&amp;" ++ fix_ampersands d)
        with (ch "&" :: ch "a" :: ch "m" :: ch "p" :: ch ";" :: fix_ampersands d).
      by rewrite !findall_bare_cons.
  - rewrite findall_bare_cons.
    by destruct (N.eqb_spec c (ch "&")).
Qed.

(** X11. After the pre-pass of [parse_opml] no bare ampersand is left:
    the pattern of the pre-pass finds no match in its own output, and
    running the pre-pass a second time changes nothing. *)
Theorem fix_ampersands_settles (d : str) :
  Re.findall bare_ampersand (fix_ampersands d) = []
  ∧ fix_ampersands (fix_ampersands d) = fix_ampersands d.
Proof.
  split; [apply findall_bare_fixed|].
  symmetry. apply fix_ampersands_escaped, escaped_fix_ampersands.
Qed.

(** X12. A catalog without a bare ampersand reaches the XML parser as it
    is: where the pattern of the pre-pass finds no match, the pre-pass
    returns its input. *)
Theorem fix_ampersands_keeps_clean (d : str) :
  Re.findall bare_ampersand d = [] → fix_ampersands d = d.
Proof.
  induction d as [|c d IH]; [done|].
  rewrite findall_bare_cons, fix_ampersands_cons.
  destruct ((c =? ch "&")%N && negb (known_entity d)); [done|].
  intros H. by rewrite IH.
Qed.

Lemma fix_ampersands_keeps_clean_witness :
  fix_ampersands (u "<outline title='A &amp; B' xmlUrl='http://a?x=1&amp;y=2'/>")
  = u "<outline title='A &amp; B' xmlUrl='http://a?x=1&amp;y=2'/>".
Proof.
  apply (fix_ampersands_keeps_clean
           (u "<outline title='A &amp; B' xmlUrl='http://a?x=1&amp;y=2'/>")).
  vm_compute. reflexivity.
Defined.

Lemma outline_loop_appends (os : list Element) (fs : list Feed) :
  ∃ added, outline_loop os fs = fs ++ added
    ∧ (length added ≤ length os)%nat
    ∧ Forall (fun f => feed_type f = u "rss" ∧ truthy (feed_url f) = true
                       ∧ ∃ o, o ∈ os
                              ∧ dict_get (attrib_of o) (u "xmlUrl")
                                = Some (feed_url f)) added.
Proof.
  revert fs. induction os as [|o os IH]; intros fs; cbn [outline_loop].
  - exists []. by rewrite app_nil_r.
  - destruct (dict_get (attrib_of o) (u "xmlUrl")) as [url|] eqn:Hurl;
      unfold default at 2; cbn [from_option id].
    + destruct (truthy url) eqn:Ht.
      * match goal with
        | |- context [outline_loop os ?x] =>
            destruct (IH x) as (added & -> & Hlen & Hall)
        end.
        eexists (_ :: added). split; [by rewrite <- app_assoc|].
        split; [cbn [length]; lia|].
        constructor.
        -- cbn. repeat split; [done|]. exists o. split; [by left|done].
        -- eapply Forall_impl; [exact Hall|].
           intros f (? & ? & o' & ? & ?). repeat split; try done.
           exists o'. split; [by right|done].
      * destruct (IH fs) as (added & -> & Hlen & Hall).
        exists added. split; [done|]. split; [cbn [length]; lia|].
        eapply Forall_impl; [exact Hall|].
        intros f (? & ? & o' & ? & ?). repeat split; try done.
        exists o'. split; [by right|done].
    + cbn [truthy]. destruct (IH fs) as (added & -> & Hlen & Hall).
      exists added. split; [done|]. split; [cbn [length]; lia|].
      eapply Forall_impl; [exact Hall|].
      intros f (? & ? & o' & ? & ?). repeat split; try done.
      exists o'. split; [by right|done].
Qed.

(** X13. [parse_opml] only ever appends to the catalog: the feeds the
    processor had stay in front, in order, and every feed that is added has
    type "rss" and a non-empty url; whatever the file holds (missing,
    unreadable, not XML), nothing else of the processor changes. *)
Theorem parse_opml_appends_feeds (L : Libs) (W : World) (self : Processor)
  (sys : Sys) :
  ∃ added,
    (parse_opml L W self sys).1 = set_feeds self (feeds self ++ added)
    ∧ Forall (fun f => feed_type f = u "rss" ∧ truthy (feed_url f) = true)
             added.
Proof.
  assert (Hsame : self = set_feeds self (feeds self ++ []))
    by (rewrite app_nil_r; by destruct self).
  unfold parse_opml. destruct (opml_file self) as [path|];
    [|by exists []].
  destruct (negb (truthy path)); [by exists []|].
  destruct (files W path) as [| |content]; try (by exists []).
  destruct (et_fromstring L _) as [root|]; [|by exists []].
  destruct (outline_loop_appends (outlines root) (feeds self))
    as (added & -> & _ & Hall).
  exists added. split; [done|].
  eapply Forall_impl; [exact Hall|]. by intros f (? & ? & _).
Qed.

(** ** The export *)

Lemma items_loop_filter (kvs : list (str * value)) (acc : list value) :
  ExportJson.items_loop kvs acc
  = acc ++ List.filter ExportJson.is_dict (dict_values kvs).
Proof.
  revert acc. induction kvs as [|[k v] kvs IH]; intros acc;
    cbn [ExportJson.items_loop dict_values map snd List.filter].
  - by rewrite app_nil_r.
  - rewrite IH. destruct (ExportJson.is_dict v); [|done].
    by rewrite <- app_assoc.
Qed.

(** X14. From a pickled dict, [export_to_json] exports exactly the values
    that are themselves dicts, in the order of the pickle, and
    [total_items] is their number, never more than the pickle has
    entries; keys and the other values are dropped. *)
Theorem export_keeps_the_dicts (d : dict value) (now : str) :
  ExportJson.export_to_json (Some (Some (VDict d))) now true
  = Some {| ExportJson.generated_at := now;
            ExportJson.total_items :=
              length (List.filter ExportJson.is_dict (dict_values d));
            ExportJson.items :=
              VList (List.filter ExportJson.is_dict (dict_values d)) |}
  ∧ (length (List.filter ExportJson.is_dict (dict_values d)) ≤ length d)%nat.
Proof.
  split.
  - unfold ExportJson.export_to_json. by rewrite items_loop_filter.
  - unfold dict_values. rewrite <- (length_map snd d). apply filter_length_le.
Qed.

(** ** The keywords *)

Lemma match_len_cls (p : char → bool) (c : char) (s : str) :
  Re.match_len (Re.Cls p) (c :: s) = if p c then Some 1 else None.
Proof.
  unfold Re.match_len. cbn [Re.m]. destruct (p c); [|done].
  f_equal. cbn [length]. lia.
Qed.

(** What [scan] leaves between the matches is made of characters at which
    no non-empty match starts. *)
Lemma scan_gaps (r : Re.re) (Q : char → Prop) (s : str) (skip : nat)
  (gap : str) :
  (∀ c s', (∀ n, Re.match_len r (c :: s') ≠ Some (S n)) → Q c) →
  Forall Q gap →
  Forall (Forall Q) (map fst (Re.scan r s skip gap).1)
  ∧ Forall Q (Re.scan r s skip gap).2.
Proof.
  intros Hr. revert skip gap.
  induction s as [|c s IH]; intros skip gap Hgap; cbn [Re.scan].
  - cbn [fst snd map]. split; [constructor|]. by apply Forall_rev.
  - destruct skip as [|n]; [|by apply IH].
    destruct (Re.match_len r (c :: s)) as [[|n]|] eqn:E.
    + apply IH. constructor; [|done]. apply (Hr c s). intros n. by rewrite E.
    + destruct (IH n [] (Forall_nil_2 _)) as [H1 H2].
      destruct (Re.scan r s n []) as [ms last]. cbn [fst snd map] in *.
      split; [|done]. constructor; [by apply Forall_rev | done].
    + apply IH. constructor; [|done]. apply (Hr c s). intros n. by rewrite E.
Qed.

Lemma split_cls_pieces (p : char → bool) (s : str) :
  Forall (Forall (fun c => p c = false)) (Re.split (Re.Cls p) s).
Proof.
  unfold Re.split.
  destruct (scan_gaps (Re.Cls p) (fun c => p c = false) s 0 []) as [H1 H2].
  - intros c s' H. specialize (H 0%nat). rewrite match_len_cls in H.
    by destruct (p c).
  - constructor.
  - destruct (Re.scan (Re.Cls p) s 0 []) as [ms last]. cbn [fst snd] in *.
    apply Forall_app. split; [done|]. by apply Forall_singleton.
Qed.

Lemma lstrip_suffix (s : str) : ∃ p, s = p ++ lstrip s.
Proof.
  induction s as [|c s [p IH]]; [by exists []|]. cbn [lstrip].
  destruct (isspace c); [|by exists []].
  exists (c :: p). cbn [app]. by rewrite <- IH.
Qed.

Lemma lstrip_head (s : str) (c : char) :
  head (lstrip s) = Some c → isspace c = false.
Proof.
  induction s as [|a s IH]; [done|]. cbn [lstrip].
  destruct (isspace a) eqn:E; [done|]. cbn [head]. by intros [= <-].
Qed.

Lemma lstrip_fixed (s : str) :
  (∀ c, head s = Some c → isspace c = false) → lstrip s = s.
Proof.
  destruct s as [|a s]; [done|]. intros H. cbn [lstrip].
  by rewrite (H a eq_refl).
Qed.

Lemma lstrip_Forall (Q : char → Prop) (s : str) :
  Forall Q s → Forall Q (lstrip s).
Proof.
  destruct (lstrip_suffix s) as [p Hp]. intros H. rewrite Hp in H.
  by apply Forall_app in H as [_ H].
Qed.

Lemma strip_Forall (Q : char → Prop) (s : str) :
  Forall Q s → Forall Q (strip s).
Proof.
  intros H. unfold strip, rstrip.
  by apply Forall_rev, lstrip_Forall, Forall_rev, lstrip_Forall.
Qed.

Lemma head_rev_last (s : str) : head (rev s) = last s.
Proof.
  induction s as [|a s IH] using rev_ind; [done|].
  by rewrite rev_app_distr, last_snoc.
Qed.

Lemma last_lstrip (s : str) : lstrip s ≠ [] → last (lstrip s) = last s.
Proof.
  destruct (lstrip_suffix s) as [p Hp]. intros Hne.
  rewrite Hp at 2. destruct (lstrip s) as [|a t] using rev_ind; [done|].
  by rewrite app_assoc, !last_snoc.
Qed.

Lemma strip_strip (s : str) : strip (strip s) = strip s.
Proof.
  unfold strip at 1. unfold rstrip.
  assert (Hhead : ∀ c, head (strip s) = Some c → isspace c = false).
  { unfold strip, rstrip. rewrite head_rev_last. intros c Hc.
    destruct (decide (lstrip (rev (lstrip s)) = [])) as [E | E];
      [by rewrite E in Hc|].
    rewrite (last_lstrip _ E), <- head_rev_last, rev_involutive in Hc.
    by apply lstrip_head in Hc. }
  rewrite (lstrip_fixed _ Hhead).
  assert (Hlast : ∀ c, head (rev (strip s)) = Some c → isspace c = false).
  { unfold strip, rstrip. rewrite rev_involutive. apply lstrip_head. }
  by rewrite (lstrip_fixed _ Hlast), rev_involutive.
Qed.

(** X15. The keywords that [load_keywords] returns are clean: none is
    empty, none has whitespace at either end (stripping it again changes
    nothing), and none holds a line break; a missing or unreadable file
    gives no keyword at all. *)
Theorem load_keywords_clean (W : World) (file_path : str) (sys : Sys) :
  Forall (fun k => k ≠ [] ∧ strip k = k
                   ∧ Forall (fun c => c ≠ 10%N ∧ c ≠ 13%N) k)
         (load_keywords W file_path sys).1
  ∧ ((∀ text, files W file_path ≠ Content text) →
     (load_keywords W file_path sys).1 = []).
Proof.
  unfold load_keywords. split.
  - destruct (files W file_path) as [| |text]; try by constructor.
    cbn [fst]. unfold keyword_lines, file_lines.
    apply Forall_forall. intros k Hk.
    apply list_elem_of_In, filter_In in Hk as [Hk Ht].
    apply in_map_iff in Hk as (line & <- & Hline).
    split; [by destruct (strip line)|]. split; [apply strip_strip|].
    apply strip_Forall.
    pose proof (split_cls_pieces (fun c => (c =? 10) || (c =? 13))%N text) as H.
    rewrite Forall_forall in H. apply list_elem_of_In in Hline.
    specialize (H _ Hline). eapply Forall_impl; [exact H|].
    intros c Hc. cbn beta in Hc. apply orb_false_iff in Hc as [H1 H2].
    by split; apply N.eqb_neq.
  - intros Hne. destruct (files W file_path) as [| |text]; try done.
    by destruct (Hne text).
Qed.

(** ** The statistics of the report *)

Lemma count_one_total (d : dict nat) (k : str) :
  Report.total (Report.count_one d k) = S (Report.total d).
Proof.
  unfold Report.count_one, Report.total, dict_values.
  induction d as [|[k0 v0] d IH]; cbn [dict_set dict_get map snd fold_right];
    [done|].
  destruct (str_eqb k0 k); cbn [map snd fold_right default from_option id].
  - lia.
  - rewrite IH. lia.
Qed.

Lemma count_one_get (d : dict nat) (k k' : str) :
  dict_get (Report.count_one d k) k'
  = if str_eqb k' k then Some (S (default 0%nat (dict_get d k')))
    else dict_get d k'.
Proof.
  unfold Report.count_one. destruct (str_eqb k' k) eqn:E.
  - apply str_eqb_eq in E. subst k'. rewrite dict_get_set_same. f_equal. lia.
  - apply str_eqb_neq in E. by rewrite dict_get_set_other.
Qed.

Lemma count_loop_total (keys : list str) (d : dict nat) :
  Report.total (fold_left Report.count_one keys d)
  = (Report.total d + length keys)%nat.
Proof.
  revert d. induction keys as [|k keys IH]; intros d; cbn [fold_left length];
    [lia|].
  rewrite IH, count_one_total. lia.
Qed.

Lemma count_loop_get (keys : list str) (d : dict nat) (k : str) :
  dict_get (fold_left Report.count_one keys d) k
  = match Report.occurrences k keys, dict_get d k with
    | O, found => found
    | S n, found => Some (default 0%nat found + S n)%nat
    end.
Proof.
  unfold Report.occurrences. revert d.
  induction keys as [|a keys IH]; intros d; cbn [fold_left List.filter];
    [done|].
  rewrite IH, count_one_get.
  destruct (str_eqb k a); cbn [length]; [|done].
  destruct (length (List.filter (str_eqb k) keys)); cbn [default from_option id];
    f_equal; lia.
Qed.

Lemma fold_count_concat {A} (f : A → list str) (l : list A) (d : dict nat) :
  fold_left (fun d x => fold_left Report.count_one (f x) d) l d
  = fold_left Report.count_one (concat (map f l)) d.
Proof.
  revert d. induction l as [|x l IH]; intros d; cbn [fold_left map concat];
    [done|].
  by rewrite fold_left_app, IH.
Qed.

Lemma fold_count_map {A} (f : A → str) (l : list A) (d : dict nat) :
  fold_left (fun d x => Report.count_one d (f x)) l d
  = fold_left Report.count_one (map f l) d.
Proof.
  revert d. induction l as [|x l IH]; intros d; cbn [fold_left map]; [done|].
  apply IH.
Qed.

(** X16. The counters of [generate_stats] add up: the counts of
    [source_breakdown] sum to [total_items], the number of items, and the
    counts of [keyword_frequency] sum to the number of keyword matches of
    all items together. *)
Theorem generate_stats_totals (items : list Item) :
  Report.total_items (Report.generate_stats items) = length items
  ∧ Report.total (Report.source_breakdown (Report.generate_stats items))
    = length items
  ∧ Report.total (Report.keyword_frequency (Report.generate_stats items))
    = length (concat (map item_keywords items)).
Proof.
  unfold Report.generate_stats.
  cbn [Report.total_items Report.source_breakdown Report.keyword_frequency].
  rewrite fold_count_map, fold_count_concat, !count_loop_total, length_map.
  done.
Qed.

(** X17. Each counter of [generate_stats] counts what its key says: a
    source type is a key of [source_breakdown] exactly when some item has
    it, with the number of those items as its count, and a keyword is a key
    of [keyword_frequency] exactly when some item matched it, with the
    number of its matches as its count. *)
Theorem generate_stats_counts (items : list Item) (k : str) :
  dict_get (Report.source_breakdown (Report.generate_stats items)) k
  = (let n := Report.occurrences k (map item_source_type items) in
     if (0 <? n)%nat then Some n else None)
  ∧ dict_get (Report.keyword_frequency (Report.generate_stats items)) k
    = (let n := Report.occurrences k (concat (map item_keywords items)) in
       if (0 <? n)%nat then Some n else None).
Proof.
  unfold Report.generate_stats.
  cbn [Report.source_breakdown Report.keyword_frequency].
  rewrite fold_count_map, fold_count_concat, !count_loop_get. cbv zeta.
  split.
  - by destruct (Report.occurrences k (map item_source_type items)).
  - by destruct (Report.occurrences k (concat (map item_keywords items))).
Qed.

Lemma set_add_spec (s : list str) (x y : str) :
  y ∈ Report.set_add s x ↔ y ∈ s ∨ y = x.
Proof.
  unfold Report.set_add. destruct (existsb (str_eqb x) s) eqn:E.
  - split; [by left|]. intros [H | ->]; [done|].
    apply existsb_exists in E as (z & Hz & Heq).
    apply str_eqb_eq in Heq. subst z. by apply list_elem_of_In.
  - rewrite elem_of_app, list_elem_of_singleton. done.
Qed.

Lemma set_add_NoDup (s : list str) (x : str) :
  NoDup s → NoDup (Report.set_add s x).
Proof.
  intros H. unfold Report.set_add. destruct (existsb (str_eqb x) s) eqn:E;
    [done|].
  apply NoDup_app. split; [done|]. split; [|apply NoDup_singleton].
  intros y Hy Hx. apply list_elem_of_singleton in Hx. subst y.
  apply not_true_iff_false in E. apply E. apply existsb_exists.
  exists x. split; [by apply list_elem_of_In | apply str_eqb_refl].
Qed.

Lemma set_update_spec (l s : list str) (y : str) :
  y ∈ Report.set_update s l ↔ y ∈ s ∨ y ∈ l.
Proof.
  unfold Report.set_update. revert s.
  induction l as [|x l IH]; intros s; cbn [fold_left].
  - split; [by left|]. intros [H | H]; [done|]. by apply elem_of_nil in H.
  - rewrite IH, set_add_spec, elem_of_cons. tauto.
Qed.

Lemma set_update_NoDup (l s : list str) :
  NoDup s → NoDup (Report.set_update s l).
Proof.
  unfold Report.set_update. revert s.
  induction l as [|x l IH]; intros s H; cbn [fold_left]; [done|].
  by apply IH, set_add_NoDup.
Qed.

Lemma collect_spec (items : list Item) (acc : list str * list str) :
  NoDup acc.1 →
  NoDup (fold_left Report.collect items acc).1
  ∧ (∀ x, x ∈ (fold_left Report.collect items acc).1
          ↔ x ∈ acc.1
            ∨ ∃ item, item ∈ items
                ∧ (x ∈ agencies (item_entities item)
                   ∨ x ∈ companies (item_entities item)))
  ∧ (fold_left Report.collect items acc).2
    = acc.2 ++ concat (map (fun item => amounts (item_entities item)) items).
Proof.
  revert acc. induction items as [|item items IH]; intros [ag am] Hnd;
    cbn [fold_left map concat fst snd].
  - split; [done|]. split; [|by rewrite app_nil_r].
    intros x. split; [by left|]. intros [H | (item & H & _)]; [done|].
    by apply elem_of_nil in H.
  - set (ag1 := if Report.nonempty (agencies (item_entities item))
                then Report.set_update ag (agencies (item_entities item))
                else ag).
    set (ag2 := if Report.nonempty (companies (item_entities item))
                then Report.set_update ag1 (companies (item_entities item))
                else ag1).
    set (am1 := if Report.nonempty (amounts (item_entities item))
                then am ++ amounts (item_entities item) else am).
    change (Report.collect (ag, am) item) with (ag2, am1).
    assert (H1 : NoDup ag1 ∧ ∀ x, x ∈ ag1 ↔ x ∈ ag ∨ x ∈ agencies (item_entities item)).
    { unfold ag1. destruct (agencies (item_entities item)) as [|a l];
        cbn [Report.nonempty].
      - split; [done|]. intros x. split; [by left|].
        intros [H | H]; [done|]. by apply elem_of_nil in H.
      - split; [by apply set_update_NoDup | apply set_update_spec]. }
    assert (H2 : NoDup ag2 ∧ ∀ x, x ∈ ag2 ↔ x ∈ ag1 ∨ x ∈ companies (item_entities item)).
    { unfold ag2. destruct (companies (item_entities item)) as [|a l];
        cbn [Report.nonempty].
      - split; [apply H1|]. intros x. split; [by left|].
        intros [H | H]; [done|]. by apply elem_of_nil in H.
      - split; [apply set_update_NoDup, H1 | apply set_update_spec]. }
    assert (H3 : am1 = am ++ amounts (item_entities item)).
    { unfold am1. destruct (amounts (item_entities item));
        cbn [Report.nonempty]; [by rewrite app_nil_r | done]. }
    destruct (IH (ag2, am1) (proj1 H2)) as (G1 & G2 & G3).
    cbn [fst snd] in G1, G2, G3. split; [done|]. split.
    + intros x. rewrite G2, (proj2 H2), (proj2 H1). split.
      * intros [[[H | H] | H] | (it & Hin & H)].
        -- by left.
        -- right. exists item. split; [by left | by left].
        -- right. exists item. split; [by left | by right].
        -- right. exists it. split; [by right | done].
      * intros [H | (it & Hin & H)]; [by left; left; left|].
        apply elem_of_cons in Hin as [-> | Hin].
        -- destruct H as [H | H]; [by left; left; right | by left; right].
        -- right. by exists it.
    + by rewrite G3, H3, <- app_assoc.
Qed.

(** X18. In the statistics the companies are filed under the agencies:
    [companies_mentioned] is always empty, while [agencies_mentioned] holds
    exactly the agencies and the companies of all items, each once, and
    [total_amounts] is the amounts of the items one after the other. *)
Theorem generate_stats_entities (items : list Item) :
  Report.companies_mentioned (Report.generate_stats items) = []
  ∧ NoDup (Report.agencies_mentioned (Report.generate_stats items))
  ∧ (∀ x, x ∈ Report.agencies_mentioned (Report.generate_stats items)
          ↔ ∃ item, item ∈ items
              ∧ (x ∈ agencies (item_entities item)
                 ∨ x ∈ companies (item_entities item)))
  ∧ Report.total_amounts (Report.generate_stats items)
    = concat (map (fun item => amounts (item_entities item)) items).
Proof.
  unfold Report.generate_stats.
  cbn [Report.companies_mentioned Report.agencies_mentioned
       Report.total_amounts].
  destruct (collect_spec items ([], []) (NoDup_nil_2)) as (H1 & H2 & H3).
  split; [done|]. split; [done|]. split; [|done].
  intros x. rewrite H2. cbn [fst]. split; [|by right].
  intros [H | H]; [by apply elem_of_nil in H | done].
Qed.

Lemma occurrences_all (k : str) (keys : list str) :
  Forall (fun x => x = k) keys → Report.occurrences k keys = length keys.
Proof.
  unfold Report.occurrences. induction 1 as [|x keys -> _ IH]; [done|].
  cbn [List.filter]. rewrite str_eqb_refl. cbn [length]. by rewrite IH.
Qed.

Lemma occurrences_none (k : str) (keys : list str) :
  Forall (fun x => x ≠ k) keys → Report.occurrences k keys = 0%nat.
Proof.
  unfold Report.occurrences. induction 1 as [|x keys Hx _ IH]; [done|].
  cbn [List.filter].
  assert (E : str_eqb k x = false) by (apply str_eqb_neq; congruence).
  by rewrite E.
Qed.

(** X19. The report of a run only knows one kind of source: whatever the
    order in which the items of [process_rss_feeds] reach
    [generate_stats], [source_breakdown] has the single key "rss", with
    the number of items as its count, and no key at all when nothing was
    found. *)
Theorem run_stats_only_rss (L : Libs) (W : World) (self : Processor)
  (sys : Sys) (items : list Item) (k : str) :
  items ≡ₚ (process_rss_feeds L W self sys).2 →
  dict_get (Report.source_breakdown (Report.generate_stats items)) k
  = if str_eqb k (u "rss") && (0 <? length items)%nat
    then Some (length items) else None.
Proof.
  intros Hperm.
  assert (Hall : Forall (fun x => x = u "rss") (map item_source_type items)).
  { apply Forall_fmap, Forall_forall. intros item Hin. cbn.
    rewrite Hperm in Hin.
    assert (H : Forall (item_ok self) (process_rss_feeds L W self sys).2)
      by (unfold process_rss_feeds; by apply fold_feeds_items_ok).
    rewrite Forall_forall in H. by destruct (H item Hin) as (_ & _ & ? & _). }
  unfold Report.generate_stats. cbn [Report.source_breakdown].
  rewrite fold_count_map, count_loop_get. cbn [dict_get].
  destruct (str_eqb k (u "rss")) eqn:E; cbn [andb].
  - apply str_eqb_eq in E. subst k.
    rewrite (occurrences_all _ _ Hall), length_map.
    destruct (length items); [done|]. cbn. f_equal.
  - rewrite occurrences_none; [done|].
    eapply Forall_impl; [exact Hall|]. intros x Hx Hk. subst x k.
    by rewrite str_eqb_refl in E.
Qed.

Lemma run_stats_only_rss_witness :
  dict_get
    (Report.source_breakdown
       (Report.generate_stats
          (process_rss_feeds Sample.libs_dated Sample.first_run
             (Sample.processor [u "data"] 3 [Sample.feed] []) Sample.sys0).2))
    (u "rss")
  = Some 1%nat.
Proof.
  apply (run_stats_only_rss Sample.libs_dated Sample.first_run
           (Sample.processor [u "data"] 3 [Sample.feed] []) Sample.sys0
           (process_rss_feeds Sample.libs_dated Sample.first_run
              (Sample.processor [u "data"] 3 [Sample.feed] [])
              Sample.sys0).2 (u "rss")).
  vm_compute. reflexivity.
Defined.

(** ** The article processor: tags *)

Lemma m_sound (r : Re.re) (s : str) (k : str → option str) (out : str) :
  Re.m r s k = Some out →
  ∃ x rest, s = x ++ rest ∧ consumes r x ∧ k rest = Some out.
Proof.
  revert s k out. induction r as [|p|a IHa b IHb|a IHa b IHb|a IHa|a IHa];
    intros s k out; cbn [Re.m consumes].
  - intros H. by exists [], s.
  - destruct s as [|c s]; [done|]. destruct (p c) eqn:E; [|done].
    intros H. exists [c], s. split; [done|]. split; [by exists c | done].
  - intros H. apply IHa in H as (x1 & rest1 & -> & H1 & H).
    apply IHb in H as (x2 & rest2 & -> & H2 & H).
    exists (x1 ++ x2), rest2. split; [by rewrite app_assoc|].
    split; [by exists x1, x2 | done].
  - destruct (Re.m a s k) as [o|] eqn:E.
    + intros [= <-]. apply IHa in E as (x & rest & -> & H1 & H).
      exists x, rest. split; [done|]. split; [by left | done].
    + intros H. apply IHb in H as (x & rest & -> & H1 & H).
      exists x, rest. split; [done|]. split; [by right | done].
  - generalize (length s) as fuel. intros fuel. revert s.
    induction fuel as [|fuel IH]; intros s.
    + intros H. exists [], s. split; [done|]. split; [by exists [] | done].
    + match goal with
      | |- match ?t with _ => _ end = _ → _ => destruct t as [o|] eqn:E
      end.
      * intros [= <-]. apply IHa in E as (x1 & rest1 & -> & H1 & H).
        destruct (length rest1 <? length (x1 ++ rest1))%nat; [|done].
        apply IH in H as (x2 & rest2 & -> & (xs & -> & Hxs) & H).
        exists (x1 ++ concat xs), rest2. split; [by rewrite app_assoc|].
        split; [|done]. exists (x1 :: xs). split; [done | by constructor].
      * intros H. exists [], s. split; [done|].
        split; [by exists [] | done].
  - destruct (Re.m a s Some); [done|]. intros H. by exists [], s.
Qed.

Lemma scan_found_consumes (r : Re.re) (s : str) (skip : nat) (gap x : str) :
  x ∈ map snd (Re.scan r s skip gap).1 → consumes r x.
Proof.
  revert skip gap. induction s as [|c s IH]; intros skip gap; cbn [Re.scan].
  - intros H. by apply elem_of_nil in H.
  - destruct skip as [|n]; [|apply IH].
    destruct (Re.match_len r (c :: s)) as [[|n]|] eqn:E; [apply IH| |apply IH].
    destruct (Re.scan r s n []) as [ms last] eqn:Es.
    cbn [fst snd map]. intros H. apply elem_of_cons in H as [-> | H].
    + unfold Re.match_len in E.
      destruct (Re.m r (c :: s) Some) as [rest|] eqn:Em; [|done].
      apply m_sound in Em as (x0 & rest0 & Hs & Hx0 & [= ->]).
      rewrite Hs in *. injection E as E. rewrite length_app in E.
      rewrite take_app_length'; [done | lia].
    + apply (IH n []). by rewrite Es.
Qed.

Lemma findall_consumes (r : Re.re) (s x : str) :
  x ∈ Re.findall r s → consumes r x.
Proof. apply scan_found_consumes. Qed.

Lemma tag_pattern_shape (x : str) :
  consumes Article.tag_pattern x →
  ∃ y, x = ch "#" :: y ∧ y ≠ [] ∧ Forall (fun c => Article.tag_char c = true) y.
Proof.
  unfold Article.tag_pattern, Re.Plus, Re.chr. cbn [consumes].
  intros (x1 & x2 & -> & (c1 & -> & Hc1) & x3 & x4 & -> & (c2 & -> & Hc2)
          & xs & -> & Hxs).
  apply N.eqb_eq in Hc1. subst c1.
  exists (c2 :: concat xs). split; [done|]. split; [done|].
  constructor; [done|].
  induction Hxs as [|z xs (c & -> & Hc) _ IH]; [constructor|].
  cbn [concat app]. by constructor.
Qed.

Lemma tag_char_lower (c : char) :
  Article.tag_char c = true →
  is_ascii c = true
  ∧ Article.tag_char (ascii_lower c) = true
  ∧ Re.range (ch "A") (ch "Z") (ascii_lower c) = false.
Proof.
  unfold Article.tag_char, Re.range, is_ascii, ascii_lower.
  change (ch "a") with 97%N. change (ch "z") with 122%N.
  change (ch "A") with 65%N. change (ch "Z") with 90%N.
  change (ch "0") with 48%N. change (ch "9") with 57%N.
  change (ch "_") with 95%N. change (ch "-") with 45%N.
  rewrite !orb_true_iff, !andb_true_iff, !N.leb_le, !N.eqb_eq.
  intros H.
  destruct (N.leb_spec 65 c), (N.leb_spec c 90); cbn [andb];
    rewrite ?orb_true_iff, ?andb_true_iff, ?andb_false_iff, ?N.leb_le,
      ?N.leb_gt, ?N.eqb_eq, ?N.ltb_lt; lia.
Qed.

(** X20. The tags that [extract_tags_from_summary] returns are clean: no
    tag occurs twice; each is non-empty, made of lower-case letters,
    digits, [_] and [-] only, and is the lower-cased text that follows a
    [#] somewhere in the summary. *)
Theorem extract_tags_clean (L : Libs) (summary : str) :
  set_order_ok L →
  NoDup (Article.extract_tags_from_summary L summary)
  ∧ ∀ tag, tag ∈ Article.extract_tags_from_summary L summary →
      tag ≠ []
      ∧ Forall (fun c => Article.tag_char c = true
                         ∧ Re.range (ch "A") (ch "Z") c = false) tag
      ∧ ∃ written, tag = map ascii_lower written
                   ∧ is_substring (ch "#" :: written) summary.
Proof.
  intros Hset. unfold Article.extract_tags_from_summary.
  destruct (Hset (map (lower L)
              (map (drop 1) (Re.findall Article.tag_pattern summary))))
    as [Hnd Hin].
  split; [done|]. intros tag Htag. apply Hin in Htag.
  apply list_elem_of_fmap in Htag as (y & -> & Hy).
  apply list_elem_of_fmap in Hy as (x & -> & Hx).
  pose proof (findall_substrings _ _ _ Hx) as [Hsub _].
  apply findall_consumes, tag_pattern_shape in Hx as (y & -> & Hne & Hy).
  change (drop 1 (ch "#" :: y)) with y.
  assert (Hascii : forallb is_ascii y = true).
  { apply forallb_forall. intros c Hc. apply list_elem_of_In in Hc.
    rewrite Forall_forall in Hy. by apply tag_char_lower, Hy. }
  unfold lower. rewrite Hascii. split; [by destruct y|]. split.
  - apply Forall_fmap. eapply Forall_impl; [exact Hy|].
    intros c Hc. cbn. by apply tag_char_lower in Hc as (_ & ? & ?).
  - by exists y.
Qed.

Lemma extract_tags_clean_witness :
  NoDup (Article.extract_tags_from_summary Sample.libs
           (u "Themes: #AI and #Data-Protection, again #ai.")).
Proof.
  apply (extract_tags_clean Sample.libs
           (u "Themes: #AI and #Data-Protection, again #ai.")
           sample_set_order_ok).
Defined.

(** ** The article processor: file names *)

(** The characters of a substitution: those of the text at which no
    match starts, and those of the replacement. *)
Lemma scan_gaps_of (r : Re.re) (P Q : char → Prop) (s : str) (skip : nat)
  (gap : str) :
  (∀ c s', P c → (∀ n, Re.match_len r (c :: s') ≠ Some (S n)) → Q c) →
  Forall P s → Forall Q gap →
  Forall (Forall Q) (map fst (Re.scan r s skip gap).1)
  ∧ Forall Q (Re.scan r s skip gap).2.
Proof.
  intros Hr. revert skip gap.
  induction s as [|c s IH]; intros skip gap Hs Hgap; cbn [Re.scan].
  - cbn [fst snd map]. split; [constructor|]. by apply Forall_rev.
  - apply Forall_cons in Hs as [Hc Hs'].
    destruct skip as [|n]; [|by apply IH].
    destruct (Re.match_len r (c :: s)) as [[|n]|] eqn:E.
    + apply IH; [done|]. constructor; [|done].
      apply (Hr c s Hc). intros n' Hn.
      generalize (eq_trans (eq_sym E) Hn). discriminate.
    + destruct (IH n [] Hs' (Forall_nil_2 _)) as [H1 H2].
      destruct (Re.scan r s n []) as [ms last]. cbn [fst snd map] in *.
      split; [|done]. constructor; [by apply Forall_rev | done].
    + apply IH; [done|]. constructor; [|done].
      apply (Hr c s Hc). intros n' Hn.
      generalize (eq_trans (eq_sym E) Hn). discriminate.
Qed.

Lemma sub_Forall (r : Re.re) (P Q : char → Prop) (repl s : str) :
  (∀ c s', P c → (∀ n, Re.match_len r (c :: s') ≠ Some (S n)) → Q c) →
  Forall Q repl → Forall P s → Forall Q (Re.sub r repl s).
Proof.
  intros Hr Hrepl Hs. unfold Re.sub, Re.assemble.
  destruct (scan_gaps_of r P Q s 0 [] Hr Hs (Forall_nil_2 _)) as [H1 H2].
  destruct (Re.scan r s 0 []) as [ms last]. cbn [fst snd] in *.
  apply Forall_app. split; [|done].
  induction ms as [|[g x] ms IH]; cbn [map concat fst]; [constructor|].
  cbn [map fst] in H1. apply Forall_cons in H1 as [Hg Hms].
  rewrite !Forall_app. repeat split; try done.
  by apply IH.
Qed.

Lemma star_cls_total (p : char → bool) (s : str) :
  ∃ rest, Re.m (Re.Star (Re.Cls p)) s Some = Some rest
          ∧ (length rest ≤ length s)%nat.
Proof.
  cbn [Re.m]. generalize (length s) at 1 as fuel. intros fuel. revert s.
  induction fuel as [|fuel IH]; intros s; [by exists s|].
  destruct s as [|c s]; [by exists []|].
  destruct (p c); [|by exists (c :: s)].
  assert (E : (length s <? length (c :: s))%nat = true)
    by (apply Nat.ltb_lt; cbn [length]; lia).
  rewrite E. destruct (IH s) as (rest & -> & Hlen).
  exists rest. split; [done|]. cbn [length]. lia.
Qed.

Lemma plus_cls_matches (p : char → bool) (c : char) (s : str) :
  p c = true → ∃ n, Re.match_len (Re.Plus (Re.Cls p)) (c :: s) = Some (S n).
Proof.
  intros Hc. unfold Re.match_len, Re.Plus.
  change (Re.m (Re.Seq (Re.Cls p) (Re.Star (Re.Cls p))) (c :: s) Some)
    with (if p c then Re.m (Re.Star (Re.Cls p)) s Some else None).
  rewrite Hc. destruct (star_cls_total p s) as (rest & -> & Hlen).
  exists (length s - length rest)%nat. f_equal. cbn [length]. lia.
Qed.

Lemma lstrip_char_suffix (x : char) (s : str) :
  ∃ p, s = p ++ Article.lstrip_char x s.
Proof.
  induction s as [|c s [p IH]]; [by exists []|]. cbn [Article.lstrip_char].
  destruct (c =? x)%N; [|by exists []].
  exists (c :: p). cbn [app]. by rewrite <- IH.
Qed.

Lemma strip_char_Forall (Q : char → Prop) (x : char) (s : str) :
  Forall Q s → Forall Q (Article.strip_char x s).
Proof.
  assert (H : ∀ t, Forall Q t → Forall Q (Article.lstrip_char x t)).
  { intros t Ht. destruct (lstrip_char_suffix x t) as [p Hp].
    rewrite Hp in Ht. by apply Forall_app in Ht as [_ Ht]. }
  intros Hs. unfold Article.strip_char.
  by apply Forall_rev, H, Forall_rev, H.
Qed.

Lemma lstrip_char_all (x : char) (s : str) :
  Forall (fun c => c = x) s → Article.lstrip_char x s = [].
Proof.
  induction 1 as [|c s -> _ IH]; [done|]. cbn [Article.lstrip_char].
  by rewrite N.eqb_refl.
Qed.

Lemma slice_to_length (s : str) (n : Z) :
  (0 ≤ n)%Z → (Z.of_nat (length (Article.slice_to s n)) ≤ n)%Z.
Proof.
  intros Hn. unfold Article.slice_to.
  destruct (Z.leb_spec 0 n); [|lia]. rewrite length_take. lia.
Qed.

Lemma slice_to_Forall (Q : char → Prop) (s : str) (n : Z) :
  Forall Q s → Forall Q (Article.slice_to s n).
Proof.
  intros H. unfold Article.slice_to. destruct (0 <=? n)%Z; by apply Forall_take.
Qed.

Section Filenames.
Context (unicode_isalnum : char → bool).

Lemma special_false (c : char) :
  Article.special unicode_isalnum c = false → isspace c = false →
  (Article.isword unicode_isalnum c = true ∨ c = ch "-")
  ∧ c ≠ ch "/" ∧ c ≠ ch "." ∧ c ≠ 92%N ∧ c ≠ 0%N.
Proof.
  unfold Article.special. intros H Hs. apply negb_false_iff in H.
  rewrite Hs, orb_false_r in H. apply orb_true_iff in H as [H | H].
  - split; [by left|].
    repeat split; intros ->; vm_compute in H; discriminate.
  - apply N.eqb_eq in H. subst c. split; [by right|].
    repeat split; intros E; vm_compute in E; discriminate.
Qed.

Lemma cleaned (title : str) :
  Forall (fun c => Article.special unicode_isalnum c = false
                   ∧ isspace c = false)
    (Re.sub (Re.Plus (Re.Cls isspace)) (u "_")
       (Re.sub (Re.Cls (Article.special unicode_isalnum)) [] title)).
Proof.
  apply (sub_Forall _ (fun c => Article.special unicode_isalnum c = false)).
  - intros c s' Hc Hno. split; [done|].
    destruct (isspace c) eqn:E; [|done].
    destruct (plus_cls_matches isspace c s' E) as [n Hn].
    by destruct (Hno n).
  - apply Forall_singleton. by vm_compute.
  - apply (sub_Forall _ (fun _ => True)).
    + intros c s' _ Hno. specialize (Hno 0%nat). rewrite match_len_cls in Hno.
      by destruct (Article.special unicode_isalnum c).
    + constructor.
    + by apply Forall_true.
Qed.

(** X21. A file name from [sanitize_filename] is safe to join to a
    directory: it is a stem followed by [.md]; for a non-negative
    [max_length] the stem has at most [max_length] characters; the stem has
    no whitespace, no path separator, no dot and no NUL, only word
    characters and hyphens. *)
Theorem sanitize_filename_safe (title : str) (max_length : Z) :
  (0 ≤ max_length)%Z →
  ∃ stem,
    Article.sanitize_filename unicode_isalnum title max_length
    = stem ++ u ".md"
    ∧ (Z.of_nat (length stem) ≤ max_length)%Z
    ∧ Forall (fun c => isspace c = false
                       ∧ (Article.isword unicode_isalnum c = true ∨ c = ch "-")
                       ∧ c ≠ ch "/" ∧ c ≠ ch "." ∧ c ≠ 92%N ∧ c ≠ 0%N) stem.
Proof.
  intros Hmax. unfold Article.sanitize_filename.
  set (clean := Article.strip_char (ch "_") _).
  assert (Hclean : Forall (fun c => Article.special unicode_isalnum c = false
                                    ∧ isspace c = false) clean)
    by apply strip_char_Forall, cleaned.
  eexists. split; [reflexivity|]. split.
  - destruct (Z.ltb_spec max_length (Z.of_nat (length clean)));
      [by apply slice_to_length | lia].
  - assert (Hcut : Forall (fun c => Article.special unicode_isalnum c = false
                                    ∧ isspace c = false)
                     (if (max_length <? Z.of_nat (length clean))%Z
                      then Article.slice_to clean max_length else clean))
      by (destruct (max_length <? _)%Z; [by apply slice_to_Forall | done]).
    eapply Forall_impl; [exact Hcut|].
    intros c [H1 H2]. split; [done|]. by apply special_false.
Qed.

(** X22. A title without a letter, a digit or a hyphen loses everything:
    if every character of the title is an underscore or no word character,
    and none is a hyphen, the file name is [.md] alone, whatever
    [max_length]; all such titles share one file. *)
Theorem sanitize_filename_empty_stem (title : str) (max_length : Z) :
  Forall (fun c => (Article.isword unicode_isalnum c = false ∨ c = ch "_")
                   ∧ c ≠ ch "-") title →
  Article.sanitize_filename unicode_isalnum title max_length = u ".md".
Proof.
  intros Htitle. unfold Article.sanitize_filename.
  set (step1 := Re.sub (Re.Cls (Article.special unicode_isalnum)) [] title).
  assert (H1 : Forall (fun c => isspace c = true ∨ c = ch "_") step1).
  { apply (sub_Forall _ (fun c => (Article.isword unicode_isalnum c = false
                                  ∨ c = ch "_") ∧ c ≠ ch "-"));
      [|constructor|done].
    intros c s' [Hw Hh] Hno. specialize (Hno 0%nat).
    rewrite match_len_cls in Hno. unfold Article.special in Hno.
    destruct Hw as [Hw | ->]; [|by right].
    rewrite Hw in Hno. apply N.eqb_neq in Hh. rewrite Hh in Hno.
    destruct (isspace c); [by left|]. by cbn in Hno. }
  set (step2 := Re.sub (Re.Plus (Re.Cls isspace)) (u "_") step1).
  assert (H2 : Forall (fun c => c = ch "_") step2).
  { apply (sub_Forall _ (fun c => isspace c = true ∨ c = ch "_"));
      [|by apply Forall_singleton|done].
    intros c s' [Hs | ->] Hno; [|done].
    destruct (plus_cls_matches isspace c s' Hs) as [n Hn].
    by destruct (Hno n). }
  assert (H3 : Article.strip_char (ch "_") step2 = []).
  { unfold Article.strip_char. by rewrite (lstrip_char_all _ _ H2). }
  assert (Hs : Article.slice_to [] max_length = [])
    by (unfold Article.slice_to; destruct (0 <=? max_length)%Z; apply take_nil).
  rewrite H3, Hs. by destruct (max_length <? _)%Z.
Qed.
End Filenames.

Lemma sanitize_filename_safe_witness :
  ∃ stem,
    Article.sanitize_filename (fun _ => false)
      (u "AI/ML: what's next?  (part 2)") 100
    = stem ++ u ".md"
    ∧ (Z.of_nat (length stem) ≤ 100)%Z
    ∧ Forall (fun c => isspace c = false
                       ∧ (Article.isword (fun _ => false) c = true ∨ c = ch "-")
                       ∧ c ≠ ch "/" ∧ c ≠ ch "." ∧ c ≠ 92%N ∧ c ≠ 0%N) stem.
Proof.
  apply (sanitize_filename_safe (fun _ => false)
           (u "AI/ML: what's next?  (part 2)") 100).
  lia.
Defined.

Lemma sanitize_filename_empty_stem_witness :
  Article.sanitize_filename (fun _ => false) (u "?!... _ ...") 100 = u ".md".
Proof.
  apply (sanitize_filename_empty_stem (fun _ => false) (u "?!... _ ...") 100).
  repeat constructor; try (by left; vm_compute); try (by right);
    by vm_compute.
Defined.

(** ** The article processor: the summary request *)

Section Summaries.
Context (L : Libs) (client : nat → str → Article.Reply).

(** The loop of [summarize_with_claude] from attempt [a] on, with [n]
    attempts left: either it ends in attempt [a + k], after [k] rate
    limits that were each slept on, or it runs out of attempts. *)
Lemma retry_loop_spec (prompt : str) (max_retries : Z) (n a : nat)
  (trace : list Article.Effect) :
  (∃ k, (k < n)%nat
     ∧ (Article.retry_loop L client prompt max_retries (seq a n) trace).2
       = trace
         ++ flat_map (fun i => [Article.Called i;
                                Article.Slept (2 ^ Z.of_nat i * 2)])
                     (seq a k)
         ++ [Article.Called (a + k)]
     ∧ (∀ i, i ∈ seq a k → (Z.of_nat i < max_retries - 1)%Z)
     ∧ match client (a + k)%nat prompt with
       | Article.Replied text =>
           (Article.retry_loop L client prompt max_retries (seq a n) trace).1
           = {| Article.summary := text;
                Article.tags := Article.extract_tags_from_summary L text;
                Article.raw_response := text |}
       | Article.RateLimited =>
           ¬ (Z.of_nat (a + k) < max_retries - 1)%Z
           ∧ (Article.retry_loop L client prompt max_retries (seq a n) trace).1
             = {| Article.summary :=
                    u "Rate limit exceeded after "
                    ++ Article.str_of_int max_retries ++ u " retries";
                  Article.tags := []; Article.raw_response := [] |}
       | Article.Raised e =>
           (Article.retry_loop L client prompt max_retries (seq a n) trace).1
           = {| Article.summary := u "Error generating summary: " ++ e;
                Article.tags := []; Article.raw_response := [] |}
       end)
  ∨ ((Article.retry_loop L client prompt max_retries (seq a n) trace).2
     = trace
       ++ flat_map (fun i => [Article.Called i;
                              Article.Slept (2 ^ Z.of_nat i * 2)])
                   (seq a n)
     ∧ (∀ i, i ∈ seq a n → (Z.of_nat i < max_retries - 1)%Z)
     ∧ (Article.retry_loop L client prompt max_retries (seq a n) trace).1
       = {| Article.summary := u "Error: Max retries exceeded";
            Article.tags := []; Article.raw_response := [] |}).
Proof.
  revert a trace. induction n as [|n IH]; intros a trace;
    cbn [seq Article.retry_loop].
  - right. cbn [flat_map fst snd]. rewrite app_nil_r.
    split; [done|]. split; [|done]. intros i Hi. by apply elem_of_nil in Hi.
  - assert (Hfirst : ∀ i : nat, i ∈ @nil nat → (Z.of_nat i < max_retries - 1)%Z)
      by (intros i Hi; by apply elem_of_nil in Hi).
    destruct (client a prompt) as [text| |e] eqn:E.
    + left. exists 0%nat. rewrite Nat.add_0_r, E. cbn [seq flat_map fst snd app].
      split; [lia|]. done.
    + destruct (Z.ltb_spec (Z.of_nat a) (max_retries - 1)) as [Hlt | Hge].
      * destruct (IH (S a) ((trace ++ [Article.Called a])
                            ++ [Article.Slept (2 ^ Z.of_nat a * 2)]))
          as [(k & Hk & Htr & Hall & Hres) | (Htr & Hall & Hres)].
        -- left. exists (S k). split; [lia|].
           replace (a + S k)%nat with (S a + k)%nat by lia.
           split; [|split; [|done]].
           ++ rewrite Htr. cbn [seq flat_map]. by rewrite <- !app_assoc.
           ++ intros i Hi. cbn [seq] in Hi.
              apply elem_of_cons in Hi as [-> | Hi]; [done | by apply Hall].
        -- right. split; [|split; [|done]].
           ++ rewrite Htr. cbn [seq flat_map]. by rewrite <- !app_assoc.
           ++ intros i Hi. cbn [seq] in Hi.
              apply elem_of_cons in Hi as [-> | Hi]; [done | by apply Hall].
      * left. exists 0%nat. rewrite Nat.add_0_r, E.
        cbn [seq flat_map fst snd app]. split; [lia|]. split; [done|].
        split; [done|]. split; [lia | done].
    + left. exists 0%nat. rewrite Nat.add_0_r, E. cbn [seq flat_map fst snd app].
      split; [lia|]. done.
Qed.

Lemma slept_backoff (l : list nat) :
  Article.slept
    (flat_map (fun i => [Article.Called i; Article.Slept (2 ^ Z.of_nat i * 2)]) l)
  = map (fun i => (2 ^ Z.of_nat i * 2)%Z) l.
Proof.
  unfold Article.slept. induction l as [|i l IH]; [done|].
  cbn [flat_map map app]. by rewrite IH.
Qed.

Lemma backoff_sum (a k : nat) :
  fold_right Z.add 0%Z (map (fun i => (2 ^ Z.of_nat i * 2)%Z) (seq a k))
  = (2 ^ (Z.of_nat (a + k) + 1) - 2 ^ (Z.of_nat a + 1))%Z.
Proof.
  revert a. induction k as [|k IH]; intros a; cbn [seq map fold_right].
  - rewrite Nat.add_0_r. lia.
  - rewrite IH. replace (a + S k)%nat with (S a + k)%nat by lia.
    replace (Z.of_nat (S a) + 1)%Z with (Z.of_nat a + 1 + 1)%Z by lia.
    rewrite (Z.pow_add_r 2 (Z.of_nat a + 1) 1), (Z.pow_add_r 2 (Z.of_nat a) 1)
      by lia.
    change (2 ^ 1)%Z with 2%Z. lia.
Qed.

(** X23. [summarize_with_claude] backs off and gives up: it asks the API
    at most [max_retries] times, one attempt after the other; between two
    attempts it sleeps 2, 4, 8, ... seconds and never after the last one,
    so that after attempt [k] it has slept [2^(k+1) - 2] seconds in all;
    with [max_retries <= 0] it neither asks nor sleeps. *)
Theorem summarize_backoff (title url content : str) (max_retries : Z) :
  ∃ k : nat,
    (Article.summarize_with_claude L client title url content max_retries).2
    = flat_map (fun i => [Article.Called i;
                          Article.Slept (2 ^ Z.of_nat i * 2)]) (seq 0 k)
      ++ (if (0 <? max_retries)%Z then [Article.Called k] else [])
    ∧ (Z.of_nat k < Z.max 1 max_retries)%Z
    ∧ fold_right Z.add 0%Z
        (Article.slept
           (Article.summarize_with_claude L client title url content
              max_retries).2)
      = (2 ^ (Z.of_nat k + 1) - 2)%Z.
Proof.
  unfold Article.summarize_with_claude. cbv zeta.
  match goal with
  | |- context [Article.retry_loop L client ?p _ _ _] => set (prompt := p)
  end.
  assert (Hsum : ∀ k tail,
    Article.slept tail = [] →
    fold_right Z.add 0%Z
      (Article.slept
         (flat_map (fun i => [Article.Called i;
                              Article.Slept (2 ^ Z.of_nat i * 2)]) (seq 0 k)
          ++ tail))
    = (2 ^ (Z.of_nat k + 1) - 2)%Z).
  { intros k tail Htail. unfold Article.slept at 1. rewrite flat_map_app.
    fold (Article.slept tail). rewrite Htail, app_nil_r.
    fold (Article.slept
            (flat_map (fun i => [Article.Called i;
                                 Article.Slept (2 ^ Z.of_nat i * 2)])
                      (seq 0 k))).
    rewrite slept_backoff, backoff_sum. cbn [Nat.add Z.of_nat Z.add].
    change (2 ^ 1)%Z with 2%Z. done. }
  destruct (retry_loop_spec prompt max_retries (Z.to_nat max_retries) 0 [])
    as [(k & Hk & Htr & Hall & _) | (Htr & Hall & _)].
  - exists k. assert (H0 : (0 <? max_retries)%Z = true)
      by (apply Z.ltb_lt; lia).
    rewrite H0, Htr. cbn [app Nat.add]. split; [done|]. split; [lia|].
    by apply Hsum.
  - assert (Hn : Z.to_nat max_retries = 0%nat).
    { destruct (Z.to_nat max_retries) as [|n] eqn:En; [done|]. exfalso.
      assert (Hin : n ∈ seq 0 (S n)) by (apply list_elem_of_In, in_seq; lia).
      specialize (Hall n Hin). lia. }
    exists 0%nat. assert (H0 : (0 <? max_retries)%Z = false)
      by (apply Z.ltb_ge; lia).
    rewrite H0, Htr, Hn. cbn [seq flat_map app]. split; [done|].
    split; [lia | done].
Qed.

(** X24. A failure of the API comes back as a summary: either some
    attempt was answered, and the summary and the raw response are that
    answer and the tags those of the answer, or there are no tags and no
    raw response and the summary is a non-empty message. The summary is
    empty only if the API answered with an empty text. *)
Theorem summarize_outcome (title url content : str) (max_retries : Z) :
  (∃ attempt prompt text,
      client attempt prompt = Article.Replied text
      ∧ (Article.summarize_with_claude L client title url content
           max_retries).1
        = {| Article.summary := text;
             Article.tags := Article.extract_tags_from_summary L text;
             Article.raw_response := text |})
  ∨ (Article.summary
       (Article.summarize_with_claude L client title url content
          max_retries).1 ≠ []
     ∧ Article.tags
         (Article.summarize_with_claude L client title url content
            max_retries).1 = []
     ∧ Article.raw_response
         (Article.summarize_with_claude L client title url content
            max_retries).1 = []).
Proof.
  unfold Article.summarize_with_claude. cbv zeta.
  match goal with
  | |- context [Article.retry_loop L client ?p _ _ _] => set (prompt := p)
  end.
  destruct (retry_loop_spec prompt max_retries (Z.to_nat max_retries) 0 [])
    as [(k & _ & _ & _ & Hres) | (_ & _ & Hres)].
  - destruct (client (0 + k)%nat prompt) as [text| |e] eqn:E.
    + left. by exists (0 + k)%nat, prompt, text.
    + right. destruct Hres as [_ ->]. by cbn.
    + right. rewrite Hres. by cbn.
  - right. rewrite Hres. by cbn.
Qed.

(** X25. What lies beyond the first 15000 characters of the content
    never reaches the API: two contents that are both longer and agree on
    their first 15000 characters give the same requests, the same waits
    and the same result. *)
Theorem summarize_ignores_the_tail (title url content1 content2 : str)
  (max_retries : Z) :
  (15000 < Z.of_nat (length content1))%Z →
  (15000 < Z.of_nat (length content2))%Z →
  Article.slice_to content1 15000 = Article.slice_to content2 15000 →
  Article.summarize_with_claude L client title url content1 max_retries
  = Article.summarize_with_claude L client title url content2 max_retries.
Proof.
  intros H1 H2 Heq. unfold Article.summarize_with_claude. cbv zeta.
  apply Z.ltb_lt in H1, H2. by rewrite H1, H2, Heq.
Qed.
End Summaries.

Lemma summarize_ignores_the_tail_witness :
  Article.summarize_with_claude Sample.libs (fun _ _ => Article.RateLimited)
    (u "T") (u "http://t")
    (replicate (Z.to_nat 15000) (ch "a") ++ u "one ending") 2
  = Article.summarize_with_claude Sample.libs (fun _ _ => Article.RateLimited)
      (u "T") (u "http://t")
      (replicate (Z.to_nat 15000) (ch "a") ++ u "quite another") 2.
Proof.
  apply (summarize_ignores_the_tail Sample.libs
           (fun _ _ => Article.RateLimited) (u "T") (u "http://t")
           (replicate (Z.to_nat 15000) (ch "a") ++ u "one ending")
           (replicate (Z.to_nat 15000) (ch "a") ++ u "quite another") 2).
  - vm_compute. reflexivity.
  - vm_compute. reflexivity.
  - vm_compute. reflexivity.
Defined.

(** ** Where the items of a run come from *)

Section Provenance.
Context (L : Libs) (W : World).

Lemma make_item_config (p q : Processor) (feed : Feed) (entry : Entry) :
  keywords p = keywords q → make_item L p feed entry = make_item L q feed entry.
Proof.
  intros Hk. unfold make_item.
  by rewrite (contains_keywords_config L p q _ Hk).
Qed.

Lemma step_carries (self0 : Processor) (feed : Feed) (st : LoopState)
  (entry : Entry) :
  keywords st.1.1 = keywords self0 → days_back st.1.1 = days_back self0 →
  (∀ k, dict_mem (processed_items self0) k = true
        → dict_mem (processed_items st.1.1) k = true) →
  keywords (process_entry L W feed st entry).1.1 = keywords self0
  ∧ days_back (process_entry L W feed st entry).1.1 = days_back self0
  ∧ (∀ k, dict_mem (processed_items self0) k = true
          → dict_mem (processed_items (process_entry L W feed st entry).1.1) k
            = true).
Proof.
  intros Hk Hd Hm.
  pose proof (process_entry_extends L W feed st st entry (extends_refl st)) as H.
  apply extends_config in H as (H1 & H2 & _ & H3).
  split; [congruence|]. split; [congruence|]. intros k Hin. by apply H3, Hm.
Qed.

Lemma process_entry_trace (self0 : Processor) (feed : Feed) (st : LoopState)
  (entry : Entry) :
  keywords st.1.1 = keywords self0 → days_back st.1.1 = days_back self0 →
  (∀ k, dict_mem (processed_items self0) k = true
        → dict_mem (processed_items st.1.1) k = true) →
  ∃ acc : list (Feed * Entry),
    (process_entry L W feed st entry).2
    = st.2 ++ map (fun fe => make_item L self0 fe.1 fe.2) acc
    ∧ map snd acc `sublist_of` [entry]
    ∧ Forall (fun fe => fe.1 = feed
                ∧ truthy (entry_url fe.2) = true
                ∧ dict_mem (processed_items self0) (entry_url fe.2) = false
                ∧ fst (contains_keywords L self0 (entry_text L fe.2)) = true
                ∧ ∃ n, recent_at L W (days_back self0) fe.2 n = true)
             acc.
Proof.
  destruct st as [[self sys] items]. cbn [fst snd]. intros Hk Hd Hm.
  rewrite process_entry_eq. cbv zeta.
  pose proof (transition_accepted (processed_items self) (entry_url entry)
    (fst (is_recent L W self entry sys))
    (fst (contains_keywords L self (entry_text L entry)))) as Hacc.
  destruct (transition _ _ _ _);
    try (exists []; cbn [snd map]; rewrite app_nil_r;
         split; [done|]; split; [apply sublist_nil_l | apply Forall_nil_2]).
  destruct (proj1 Hacc eq_refl) as (Hurl & Hfresh & Hrecent & Hmatch).
  exists [(feed, entry)]. cbn [snd map fst].
  split; [by rewrite (make_item_config self self0 _ _ Hk)|].
  split; [done|]. apply Forall_singleton. cbn [fst snd].
  split; [done|]. split; [done|]. split.
  - destruct (dict_mem (processed_items self0) (entry_url entry)) eqn:E;
      [|done]. apply Hm in E. congruence.
  - split; [by rewrite <- (contains_keywords_config L self self0 _ Hk)|].
    exists (ticks sys). by rewrite <- Hd, <- is_recent_at.
Qed.

Lemma fold_entries_trace (self0 : Processor) (feed : Feed)
  (entries : list Entry) (st : LoopState) :
  keywords st.1.1 = keywords self0 → days_back st.1.1 = days_back self0 →
  (∀ k, dict_mem (processed_items self0) k = true
        → dict_mem (processed_items st.1.1) k = true) →
  ∃ acc : list (Feed * Entry),
    (fold_left (process_entry L W feed) entries st).2
    = st.2 ++ map (fun fe => make_item L self0 fe.1 fe.2) acc
    ∧ map snd acc `sublist_of` entries
    ∧ Forall (fun fe => fe.1 = feed
                ∧ truthy (entry_url fe.2) = true
                ∧ dict_mem (processed_items self0) (entry_url fe.2) = false
                ∧ fst (contains_keywords L self0 (entry_text L fe.2)) = true
                ∧ ∃ n, recent_at L W (days_back self0) fe.2 n = true)
             acc.
Proof.
  revert st. induction entries as [|e es IH]; intros st Hk Hd Hm;
    cbn [fold_left].
  - exists []. cbn [map]. rewrite app_nil_r. split; [done|].
    split; [done | apply Forall_nil_2].
  - destruct (process_entry_trace self0 feed st e Hk Hd Hm)
      as (a1 & G1 & G2 & G3).
    destruct (step_carries self0 feed st e Hk Hd Hm) as (Hk' & Hd' & Hm').
    destruct (IH _ Hk' Hd' Hm') as (a2 & H1 & H2 & H3).
    exists (a1 ++ a2). rewrite H1, G1, !map_app, <- app_assoc.
    split; [done|]. split; [|by apply Forall_app].
    change (e :: es) with ([e] ++ es). by apply sublist_app.
Qed.

Lemma process_feed_carries (self0 : Processor) (st : LoopState) (feed : Feed) :
  keywords st.1.1 = keywords self0 → days_back st.1.1 = days_back self0 →
  (∀ k, dict_mem (processed_items self0) k = true
        → dict_mem (processed_items st.1.1) k = true) →
  keywords (process_feed L W st feed).1.1 = keywords self0
  ∧ days_back (process_feed L W st feed).1.1 = days_back self0
  ∧ (∀ k, dict_mem (processed_items self0) k = true
          → dict_mem (processed_items (process_feed L W st feed).1.1) k = true).
Proof.
  intros Hk Hd Hm.
  pose proof (process_feed_extends L W st st feed (extends_refl st)) as H.
  apply extends_config in H as (H1 & H2 & _ & H3).
  split; [congruence|]. split; [congruence|]. intros k Hin. by apply H3, Hm.
Qed.

Lemma fold_feeds_trace (self0 : Processor) (fs : list Feed) (st : LoopState) :
  (∀ f, f ∈ fs → f ∈ feeds self0) →
  keywords st.1.1 = keywords self0 → days_back st.1.1 = days_back self0 →
  (∀ k, dict_mem (processed_items self0) k = true
        → dict_mem (processed_items st.1.1) k = true) →
  ∃ acc : list (Feed * Entry),
    (fold_left (process_feed L W) fs st).2
    = st.2 ++ map (fun fe => make_item L self0 fe.1 fe.2) acc
    ∧ map snd acc `sublist_of` examined_by W fs
    ∧ Forall (acceptable L W self0) acc.
Proof.
  revert st. induction fs as [|f fs IH]; intros st Hsub Hk Hd Hm;
    cbn [fold_left].
  - exists []. cbn [map]. rewrite app_nil_r. split; [done|].
    split; [done | apply Forall_nil_2].
  - destruct (process_feed_carries self0 st f Hk Hd Hm) as (Hk' & Hd' & Hm').
    destruct (IH (process_feed L W st f)
                (fun g Hg => Hsub g (proj2 (elem_of_cons _ _ _) (or_intror Hg)))
                Hk' Hd' Hm') as (a2 & H1 & H2 & H3).
    assert (Hf : f ∈ feeds self0) by (apply Hsub; by left).
    assert (∃ a1 : list (Feed * Entry),
      (process_feed L W st f).2
      = st.2 ++ map (fun fe => make_item L self0 fe.1 fe.2) a1
      ∧ map snd a1 `sublist_of`
          (if str_eqb (feed_type f) (u "rss") then
             match feedparser_parse W (feed_url f) with
             | Some entries => examined entries
             | None => []
             end
           else [])
      ∧ Forall (acceptable L W self0) a1) as (a1 & G1 & G2 & G3).
    { destruct st as [[self sys] items]. unfold process_feed.
      destruct (str_eqb (feed_type f) (u "rss")) eqn:Erss; cbn [negb].
      - apply str_eqb_eq in Erss.
        destruct (feedparser_parse W (feed_url f)) as [entries|] eqn:Efetch.
        + destruct (fold_entries_trace self0 f (examined entries)
                      (self, print (EvProcessing (feed_title f)) sys, items)
                      Hk Hd Hm) as (a1 & G1 & G2 & G3).
          exists a1. split; [done|]. split; [done|].
          rewrite Forall_forall in G3. apply Forall_forall.
          intros [f' e'] Hin. destruct (G3 _ Hin) as (Hfe & Hu & Hfr & Hma & Hre).
          cbn [fst snd] in *. subst f'. unfold acceptable. cbn [fst snd].
          repeat split; try done. exists entries. split; [done|].
          apply (elem_of_sublist (map snd a1)); [|done].
          apply list_elem_of_fmap. by exists (f, e').
        + exists []. cbn [snd map]. rewrite app_nil_r.
          split; [done|]. split; [done | apply Forall_nil_2].
      - exists []. cbn [snd map]. rewrite app_nil_r.
        split; [done|]. split; [done | apply Forall_nil_2]. }
    exists (a1 ++ a2). rewrite H1, G1, !map_app, <- app_assoc.
    split; [done|]. split; [|by apply Forall_app].
    unfold examined_by. cbn [flat_map]. by apply sublist_app.
Qed.

(** X26. Nothing in the result of a run is made up: the items of
    [process_rss_feeds] are, in order, the items built from a
    sub-sequence of the entries that the run examines (the first 50 of each
    RSS feed that answers, feed after feed); each of these entries has an
    identifier that the ledger did not hold when the run began, matches the
    keywords, and was recent when the clock was read for it. *)
Theorem items_trace_back (self : Processor) (sys : Sys) :
  ∃ accepted : list (Feed * Entry),
    (process_rss_feeds L W self sys).2
    = map (fun fe => make_item L self fe.1 fe.2) accepted
    ∧ map snd accepted `sublist_of` examined_by W (feeds self)
    ∧ Forall (acceptable L W self) accepted.
Proof.
  unfold process_rss_feeds.
  destruct (fold_feeds_trace self (feeds self) (self, sys, []))
    as (acc & H1 & H2 & H3); try done.
  by exists acc.
Qed.

Lemma dict_mem_app {V} (d1 d2 : dict V) (k : str) :
  dict_mem (d1 ++ d2) k = dict_mem d1 k || dict_mem d2 k.
Proof.
  unfold dict_mem. induction d1 as [|[k0 v0] d1 IH]; cbn [app dict_get];
    [done|].
  by destruct (str_eqb k0 k).
Qed.

Lemma dict_mem_keys {V} (d : dict V) (k : str) :
  dict_mem d k = true → k ∈ map fst d.
Proof.
  unfold dict_mem. induction d as [|[k0 v0] d IH]; cbn [dict_get map fst];
    [done|].
  destruct (str_eqb k0 k) eqn:E.
  - apply str_eqb_eq in E. subst k0. intros _. by left.
  - intros H. right. by apply IH.
Qed.

(** X27. Nothing that qualifies is missed: an entry that the run
    examines, that has an identifier, that matches the keywords and that is
    recent at every reading of the clock is in the ledger already or gives
    an item of the run under its identifier. *)
Theorem nothing_missed (self : Processor) (sys : Sys) (entry : Entry) :
  entry ∈ examined_by W (feeds self) →
  truthy (entry_url entry) = true →
  fst (contains_keywords L self (entry_text L entry)) = true →
  (∀ n, recent_at L W (days_back self) entry n = true) →
  dict_mem (processed_items self) (entry_url entry) = true
  ∨ ∃ item, item ∈ (process_rss_feeds L W self sys).2
            ∧ item_id item = entry_url entry.
Proof.
  intros Hin Hurl Hmatch Hrecent. unfold process_rss_feeds.
  pose proof (fold_feeds_settled L W (feeds self) (self, sys, []) entry Hin)
    as Hs.
  cbn [fst snd] in Hs.
  destruct Hs as [Hs | [Hs | [Hs | [n Hs]]]]; [congruence| |congruence|].
  - destruct (fold_feeds_appends L W (feeds self) (self, sys, []))
      as (added & new & H1 & H2 & H3 & _).
    cbn [fst snd app] in H1, H2. rewrite H1, dict_mem_app in Hs.
    apply orb_true_iff in Hs as [Hs | Hs]; [by left|]. right.
    apply dict_mem_keys in Hs. rewrite H3 in Hs.
    apply list_elem_of_fmap in Hs as (item & Hid & Hitem).
    exists item. by rewrite H2.
  - specialize (Hrecent n). congruence.
Qed.
End Provenance.

Lemma nothing_missed_witness :
  dict_mem (processed_items (Sample.processor [u "data"] 3 [Sample.feed] []))
    (u "http://news/1") = true
  ∨ ∃ item,
      item ∈ (process_rss_feeds Sample.libs_dated Sample.first_run
                (Sample.processor [u "data"] 3 [Sample.feed] [])
                Sample.sys0).2
      ∧ item_id item = u "http://news/1".
Proof.
  apply (nothing_missed Sample.libs_dated Sample.first_run
           (Sample.processor [u "data"] 3 [Sample.feed] []) Sample.sys0
           (Sample.entry (Some (u "http://news/1")) (u "Data protection news")
              (Some (u "2024-01-01T00:00:00")))).
  - vm_compute. by left.
  - reflexivity.
  - vm_compute. reflexivity.
  - intros n. vm_compute. reflexivity.
Defined.

(** ** One feed, entry after entry *)

(** C8. The loop over a feed visits the first 50 entries that the server
    answers, one after the other in the order of the answer: the feed is
    processed by processing these entries from the first on, each in the
    state that the one before it left; what the server answers after the
    50th entry changes nothing; the items that the feed adds are, in their
    order, those of a sub-sequence of the first 50 entries; a feed adds at
    most 50 items and reads the clock at most 100 times, and of 500
    entries 50 are examined. *)
Theorem bounded_work (L : Libs) (W : World) (feed : Feed) (st : LoopState)
  (entries : list Entry) (e : Entry) :
  process_feed L (serving W (feed_url feed) (Some entries)) st feed
  = process_feed L (serving W (feed_url feed) (Some (take 50 entries))) st feed
  ∧ process_feed L (serving W (feed_url feed) (Some entries)) st feed
    = (if str_eqb (feed_type feed) (u "rss")
       then fold_left
              (process_entry L (serving W (feed_url feed) (Some entries)) feed)
              (take 50 entries)
              (st.1.1, print (EvProcessing (feed_title feed)) st.1.2, st.2)
       else st)
  ∧ (∃ accepted,
       (process_feed L (serving W (feed_url feed) (Some entries)) st feed).2
       = st.2 ++ map (make_item L st.1.1 feed) accepted
       ∧ accepted `sublist_of` take 50 entries)
  ∧ examined entries `prefix_of` entries
  ∧ length (examined entries) = min 50 (length entries)
  ∧ length (process_feed L W st feed).2 ≤ length st.2 + 50
  ∧ ticks (process_feed L W st feed).1.2 ≤ ticks st.1.2 + 100
  ∧ length (examined (replicate 500 e)) = 50.
Proof.
  destruct st as [[self sys] items].
  assert (Heq :
    process_feed L (serving W (feed_url feed) (Some entries))
      (self, sys, items) feed
    = (if str_eqb (feed_type feed) (u "rss")
       then fold_left
              (process_entry L (serving W (feed_url feed) (Some entries)) feed)
              (take 50 entries)
              (self, print (EvProcessing (feed_title feed)) sys, items)
       else (self, sys, items))).
  { unfold process_feed. cbn [serving feedparser_parse].
    rewrite str_eqb_refl. by destruct (str_eqb (feed_type feed) (u "rss")). }
  split; [|split; [exact Heq|split; [|split; [|split; [|split; [|split]]]]]].
  - unfold process_feed. cbn [serving feedparser_parse]. rewrite str_eqb_refl.
    destruct (negb (str_eqb (feed_type feed) (u "rss"))); [done|].
    unfold examined. rewrite take_take. reflexivity.
  - rewrite Heq. cbn [fst snd].
    destruct (str_eqb (feed_type feed) (u "rss")).
    + destruct (fold_entries_trace L
                  (serving W (feed_url feed) (Some entries)) self feed
                  (take 50 entries)
                  (self, print (EvProcessing (feed_title feed)) sys, items)
                  eq_refl eq_refl (fun k H => H)) as (acc & H1 & H2 & H3).
      exists (map snd acc). split; [|done]. rewrite H1. cbn [snd]. f_equal.
      rewrite map_map. apply map_ext_Forall.
      eapply Forall_impl; [exact H3|]. by intros [f x] (-> & _).
    + exists []. cbn [map snd]. rewrite app_nil_r.
      split; [done | apply sublist_nil_l].
  - unfold examined. apply prefix_take.
  - apply examined_length.
  - unfold process_feed.
    destruct (negb (str_eqb (feed_type feed) (u "rss"))); [cbn [snd]; lia|].
    destruct (feedparser_parse W (feed_url feed)) as [es|]; [|cbn [snd]; lia].
    pose proof (fold_entries_bounds L W feed (examined es)
      (self, print (EvProcessing (feed_title feed)) sys, items)) as [H _].
    rewrite examined_length in H. cbn [snd] in *. lia.
  - unfold process_feed.
    destruct (negb (str_eqb (feed_type feed) (u "rss"))); [cbn [fst snd]; lia|].
    destruct (feedparser_parse W (feed_url feed)) as [es|];
      [|cbn [fst snd print ticks]; lia].
    pose proof (fold_entries_bounds L W feed (examined es)
      (self, print (EvProcessing (feed_title feed)) sys, items)) as [_ H].
    rewrite examined_length in H. cbn [fst snd print ticks] in *. lia.
  - rewrite examined_length, length_replicate. reflexivity.
Qed.
